(** * LL-journal: the entry write coordinator and its three backends

    A shallow embedding of [internal/journal], [internal/git], [internal/s3],
    [internal/store], [internal/handlers], [internal/config] and
    [internal/migrations].

    The three backends are external systems.  Each is modelled by its
    observable state:
    - the S3 bucket is a finite map from keys to object bodies;
    - the git root directory is a finite map from user to repository, a
      repository being its commit chain, its index and its work tree;
    - the PostgreSQL database is the three tables of
      [migrations/001_journal_schema.sql] with their primary keys, UNIQUE
      constraints and ON DELETE CASCADE foreign keys (column types such as
      UUID or VARCHAR(n) are not modelled).

    Every backend call can fail.  A call takes an environment that says,
    per call site, whether the call fails and with which message, and that
    gives the reading of the clock.  A failing call has no effect on the
    backend.

    The configuration is a function of the environment of the process and of
    the two files that [Load] looks for; the migrations are a function of the
    entries of their directory and act on the table of applied migrations and
    on the statements that the database has executed. *)

From stdpp Require Import gmap strings list sorting pretty.
From Stdlib Require Import ZArith Lia Ascii String.

Open Scope string_scope.
Open Scope list_scope.
Open Scope Z_scope.

(** ** Go errors *)

(** A Go [error] as this program builds and inspects them: sentinel values of
    the libraries, errors of the libraries that carry only a message, and
    [fmt.Errorf] with or without a wrapped cause. *)
Inductive error : Type :=
  | ErrNoRows                     (* database/sql *)
  | ErrConstraint (name : string) (* lib/pq: constraint violated on INSERT *)
  | ErrNoSuchKey                  (* S3 GetObject on a missing key *)
  | ErrRepositoryNotExists        (* go-git *)
  | ErrReferenceNotFound          (* go-git: no HEAD *)
  | ErrObjectNotFound             (* go-git: no such commit *)
  | ErrFileNotFound               (* go-git: path not in tree *)
  | ErrEntryNotFound              (* go-git: path neither in work tree nor index *)
  | ErrEmptyCommit                (* go-git: tree equal to the parent's *)
  | ErrParse                      (* time.Parse *)
  | EOF                           (* io *)
  | Fault (msg : string)          (* any other failure of a backend call *)
  | Errorf (msg : string)                       (* fmt.Errorf("msg") *)
  | Wrap (msg : string) (cause : error).        (* fmt.Errorf("msg: %w", err) *)

(** [err.Error()] *)
Fixpoint Error (e : error) : string :=
  match e with
  | ErrNoRows => "sql: no rows in result set"
  | ErrConstraint name => "pq: violates constraint " +:+ name
  | ErrNoSuchKey => "NoSuchKey: The specified key does not exist."
  | ErrRepositoryNotExists => "repository does not exist"
  | ErrReferenceNotFound => "reference not found"
  | ErrObjectNotFound => "object not found"
  | ErrFileNotFound => "file not found"
  | ErrEntryNotFound => "entry not found"
  | ErrEmptyCommit => "cannot create empty commit: clean working tree"
  | ErrParse => "parsing time: cannot parse"
  | EOF => "EOF"
  | Fault msg => msg
  | Errorf msg => msg
  | Wrap msg cause => msg +:+ ": " +:+ Error cause
  end.

Inductive result (A : Type) : Type :=
  | Ok (a : A)
  | Err (e : error).
Arguments Ok {A} a.
Arguments Err {A} e.

Definition is_Ok {A} (r : result A) : bool :=
  match r with Ok _ => true | Err _ => false end.

(** ** Dates: [time.Parse("2006-01-02", s)] and [t.Format("2006-01-02")] *)

Record Date : Type := mkDate { year : Z; month : Z; day : Z }.

#[global] Instance Date_eq_dec : EqDecision Date.
Proof. solve_decision. Defined.

Definition digit (a : ascii) : option Z :=
  let n := Z.of_N (N_of_ascii a) in
  if (48 <=? n) && (n <=? 57) then Some (n - 48) else None.

Definition isLeap (y : Z) : bool :=
  (y mod 4 =? 0) && (negb (y mod 100 =? 0) || (y mod 400 =? 0)).

Definition daysIn (m y : Z) : Z :=
  if m =? 2 then (if isLeap y then 29 else 28)
  else if (m =? 4) || (m =? 6) || (m =? 9) || (m =? 11) then 30
  else 31.

(** The layout admits exactly four digits, a dash, two digits, a dash and two
    digits; the month and the day are range checked. *)
Definition parseDate (s : string) : option Date :=
  match list_ascii_of_string s with
  | [y1; y2; y3; y4; s1; m1; m2; s2; d1; d2] =>
      match digit y1, digit y2, digit y3, digit y4,
            digit m1, digit m2, digit d1, digit d2 with
      | Some a, Some b, Some c, Some d, Some e, Some f, Some g, Some h =>
          let y := 1000 * a + 100 * b + 10 * c + d in
          let m := 10 * e + f in
          let dd := 10 * g + h in
          if Ascii.eqb s1 "-" && Ascii.eqb s2 "-"
             && (1 <=? m) && (m <=? 12) && (1 <=? dd) && (dd <=? daysIn m y)
          then Some (mkDate y m dd) else None
      | _, _, _, _, _, _, _, _ => None
      end
  | _ => None
  end.

Definition two_digits (n : Z) : string :=
  if n <? 10 then "0" +:+ pretty n else pretty n.

Definition four_digits (n : Z) : string :=
  if n <? 10 then "000" +:+ pretty n
  else if n <? 100 then "00" +:+ pretty n
  else if n <? 1000 then "0" +:+ pretty n
  else pretty n.

Definition formatDate (d : Date) : string :=
  four_digits (year d) +:+ "-" +:+ two_digits (month d) +:+ "-" +:+ two_digits (day d).

(** Key of the ORDER BY entry_date clause. *)
Definition date_ord (d : Date) : Z := year d * 10000 + month d * 100 + day d.

(** ** The database rows ([store.Journal], [store.JournalEntry],
       [store.JournalVersion]) *)

(** Commit identifiers.  go-git derives them from the commit's content, which
    includes the parent; on the single chain this program builds each commit
    has a different ancestry, so the model names a commit by its position in
    the chain, counted from 1 at the root.  0 is the zero hash. *)
Definition plumbing_Hash : Type := nat.

Record Journal : Type := mkJournal {
  J_ID : string;
  J_UserSub : string;
  J_Title : string;
  J_Description : option string;
  J_CreatedAt : Z;
  J_UpdatedAt : Z }.

Record JournalEntry : Type := mkJournalEntry {
  E_ID : string;
  E_JournalID : string;
  E_EntryDate : Date;
  E_S3Key : string;
  E_GitCommitHash : option plumbing_Hash;
  E_WordCount : option Z;
  E_CreatedAt : Z;
  E_UpdatedAt : Z }.

Record JournalVersion : Type := mkJournalVersion {
  V_ID : string;
  V_EntryID : string;
  V_CommitHash : plumbing_Hash;
  V_CommitMessage : option string;
  V_AuthorName : option string;
  V_AuthorEmail : option string;
  V_CreatedAt : Z }.

(** ** A go-git repository *)

Record Commit : Type := mkCommit {
  C_Hash : plumbing_Hash;
  C_Message : string;
  C_AuthorName : string;
  C_AuthorEmail : string;
  C_When : Z;
  C_Tree : gmap string string }.

(** [commits] is the chain reachable from HEAD, newest first: HEAD points at
    the first one and each commit's parent is the next one.  There is no HEAD
    while the chain is empty. *)
Record Repository : Type := mkRepository {
  commits : list Commit;
  index : gmap string string;
  worktree : gmap string string }.

(** ** The world *)

(** Mutating backend calls, as the ghost trace records them. *)
Inductive Call : Type :=
  | S3Upload (key : string)
  | S3Delete (key : string)
  | GitInit (userSub : string)
  | GitCommitFile (userSub path : string)
  | DbCreateJournal (id : string)
  | DbUpdateJournal (id : string)
  | DbDeleteJournal (id : string)
  | DbCreateJournalEntry (journalID : string) (date : Date)
  | DbUpdateJournalEntry (id : string)
  | DbDeleteJournalEntry (id : string)
  | DbCreateJournalVersion (entryID : string) (h : plumbing_Hash).

Record Event : Type := mkEvent { ev_call : Call; ev_ok : bool }.

Record World : Type := mkWorld {
  bucket : gmap string string;
  repos : gmap string Repository;
  journals : list Journal;
  journal_entries : list JournalEntry;
  journal_versions : list JournalVersion;
  trace : list Event }.

Definition empty_world : World := mkWorld ∅ ∅ [] [] [] [].

(** Places where a backend call can fail. *)
Inductive Site : Type :=
  | PutObject | GetObject | DeleteObject (key : string)
  | PlainOpen | PlainInit | InitWorktree | InitWriteFile | InitAdd | InitCommit
  | Worktree | MkdirAll | WriteFile | Add | Status | Head | CommitSite
  | CommitObject | FileReader | Read | Log | TreeOf (h : plumbing_Hash)
  | SelectJournal | SelectEntry | SelectEntryByDate | SelectEntries
  | InsertJournal | UpdateJournalRow | DeleteJournalRow
  | InsertEntry | UpdateEntryRow | DeleteEntryRow | InsertVersion
  | SelectJournals | SelectVersions | SelectVersion.

Record Env : Type := mkEnv {
  faults : Site → option string;
  now : Z }.

Definition no_faults (t : Z) : Env := mkEnv (λ _, None) t.

(** ** The monad of backend code: environment, world, and a Go error *)

Definition M (A : Type) : Type := Env → World → result A * World.

Definition ret {A} (a : A) : M A := λ _ w, (Ok a, w).
Definition raise {A} (e : error) : M A := λ _ w, (Err e, w).
Definition bind {A B} (m : M A) (k : A → M B) : M B :=
  λ env w, match m env w with
           | (Ok a, w') => k a env w'
           | (Err e, w') => (Err e, w')
           end.

(** [x, err := f(); ...] where the code goes on after looking at [err]. *)
Definition try {A} (m : M A) : M (result A) :=
  λ env w, let '(r, w') := m env w in (Ok r, w').

(** [if err != nil { return fmt.Errorf("msg: %w", err) }] *)
Definition wrap {A} (msg : string) (m : M A) : M A :=
  λ env w, match m env w with
           | (Ok a, w') => (Ok a, w')
           | (Err e, w') => (Err (Wrap msg e), w')
           end.

Definition get : M World := λ _ w, (Ok w, w).
Definition put (w : World) : M unit := λ _ _, (Ok tt, w).
Definition clock : M Z := λ env w, (Ok (now env), w).

(** The call at [site] fails when the environment says so. *)
Definition fallible (site : Site) : M unit :=
  λ env w, match faults env site with
           | Some msg => (Err (Fault msg), w)
           | None => (Ok tt, w)
           end.

Definition modify (f : World → World) : M unit := λ _ w, (Ok tt, f w).

Definition add_event (c : Call) (ok : bool) (w : World) : World :=
  mkWorld (bucket w) (repos w) (journals w) (journal_entries w)
          (journal_versions w) (trace w ++ [mkEvent c ok]).

(** Runs a mutating backend call and appends its outcome to the trace. *)
Definition traced {A} (c : Call) (m : M A) : M A :=
  λ env w, let '(r, w') := m env w in (r, add_event c (is_Ok r) w').

Notation "'let*' x ':=' m 'in' k" := (bind m (λ x, k))
  (at level 10, x name, m at level 100, k at level 200,
   format "'[v' 'let*'  x  ':='  m  'in' '/' k ']'").

(** ** Strings *)

(** [strings.ReplaceAll(s, old, new)] for a non-empty [old]: the occurrences
    are found from left to right and do not overlap.  [skip] counts the
    characters of a match that are still to be dropped. *)
Fixpoint replace_from (old new : string) (skip : nat) (s : string) : string :=
  match s with
  | EmptyString => EmptyString
  | String c rest =>
      match skip with
      | S k => replace_from old new k rest
      | O => if String.prefix old s
             then new +:+ replace_from old new (Nat.pred (String.length old)) rest
             else String c (replace_from old new O rest)
      end
  end.

Definition ReplaceAll (s old new : string) : string := replace_from old new O s.

Definition NUL : string := String (ascii_of_nat 0) EmptyString.
Definition CR : string := String (ascii_of_nat 13) EmptyString.
Definition LF : string := String (ascii_of_nat 10) EmptyString.

(** [strings.Contains] *)
Fixpoint Contains (s sub : string) : bool :=
  String.prefix sub s ||
  match s with
  | EmptyString => false
  | String _ rest => Contains rest sub
  end.

(** The white space of [strings.Fields] within ASCII; the white space that
    UTF-8 encodes on several bytes is not modelled. *)
Definition isSpace (c : ascii) : bool :=
  let n := nat_of_ascii c in
  (Nat.eqb n 9 || Nat.eqb n 10 || Nat.eqb n 11 || Nat.eqb n 12
   || Nat.eqb n 13 || Nat.eqb n 32)%bool.

(** [len(strings.Fields(s))]: the number of maximal runs of characters that
    are not white space.  [inField] says whether the previous character was
    part of a field. *)
Fixpoint count_fields (inField : bool) (s : string) : nat :=
  match s with
  | EmptyString => O
  | String c rest =>
      if isSpace c then count_fields false rest
      else if inField then count_fields true rest
      else S (count_fields true rest)
  end.

(** [int32(n)] *)
Definition int32 (n : Z) : Z := (n + 2 ^ 31) mod 2 ^ 32 - 2 ^ 31.

(** [strings.HasPrefix] and [strings.HasSuffix] *)
Definition HasPrefix (s prefix : string) : bool := String.prefix prefix s.

Definition HasSuffix (s suffix : string) : bool :=
  (String.length suffix <=? String.length s)%nat
  && String.eqb (substring (String.length s - String.length suffix)
                           (String.length suffix) s) suffix.

(** [strings.TrimSpace], for the white space of [isSpace]. *)
Fixpoint TrimLeft (s : string) : string :=
  match s with
  | EmptyString => EmptyString
  | String c rest => if isSpace c then TrimLeft rest else s
  end.

Fixpoint TrimRight (s : string) : string :=
  match s with
  | EmptyString => EmptyString
  | String c rest =>
      match TrimRight rest with
      | EmptyString => if isSpace c then EmptyString else String c EmptyString
      | kept => String c kept
      end
  end.

Definition TrimSpace (s : string) : string := TrimRight (TrimLeft s).

(** [strings.Split(s, sep)] for a separator of one character: the fields
    between the separators, one more than there are separators. *)
Fixpoint Split (s : string) (sep : ascii) : list string :=
  match s with
  | EmptyString => [EmptyString]
  | String c rest =>
      if Ascii.eqb c sep then EmptyString :: Split rest sep
      else match Split rest sep with
           | field :: fields => String c field :: fields
           | [] => [String c EmptyString]
           end
  end.

(** ** World updates *)

Definition set_bucket (b : gmap string string) (w : World) : World :=
  mkWorld b (repos w) (journals w) (journal_entries w) (journal_versions w) (trace w).
Definition set_repos (r : gmap string Repository) (w : World) : World :=
  mkWorld (bucket w) r (journals w) (journal_entries w) (journal_versions w) (trace w).
Definition set_journals (js : list Journal) (w : World) : World :=
  mkWorld (bucket w) (repos w) js (journal_entries w) (journal_versions w) (trace w).
Definition set_journal_entries (es : list JournalEntry) (w : World) : World :=
  mkWorld (bucket w) (repos w) (journals w) es (journal_versions w) (trace w).
Definition set_journal_versions (vs : list JournalVersion) (w : World) : World :=
  mkWorld (bucket w) (repos w) (journals w) (journal_entries w) vs (trace w).

(** ** internal/s3 *)

Module s3.

Definition Upload (key content : string) : M unit :=
  traced (S3Upload key)
    (let* _ := fallible PutObject in
     modify (λ w, set_bucket (<[key := content]> (bucket w)) w)).

Definition Download (key : string) : M string :=
  let* _ := fallible GetObject in
  let* w := get in
  match bucket w !! key with
  | Some content => ret content
  | None => raise ErrNoSuchKey
  end.

(** DeleteObject succeeds on a key that is absent. *)
Definition Delete (key : string) : M unit :=
  traced (S3Delete key)
    (let* _ := fallible (DeleteObject key) in
     modify (λ w, set_bucket (delete key (bucket w)) w)).

Definition GenerateKey (userSub journalID entryDate : string) : string :=
  userSub +:+ "/" +:+ journalID +:+ "/" +:+ entryDate +:+ ".md".

End s3.

(** ** internal/git *)

Module git.

Record CommitInfo : Type := mkCommitInfo {
  Hash : plumbing_Hash;
  Message : string;
  AuthorName : string;
  AuthorEmail : string;
  CreatedAt : Z }.

(** *** The go-git calls the client makes, on the repository of [userSub] *)

Definition empty_repository : Repository := mkRepository [] ∅ ∅.

Definition head_tree (r : Repository) : gmap string string :=
  match commits r with
  | c :: _ => C_Tree c
  | [] => ∅
  end.

(** The repository behind a handle that [PlainOpen] or [PlainInit] returned. *)
Definition repository (userSub : string) : M Repository :=
  let* w := get in
  match repos w !! userSub with
  | Some r => ret r
  | None => raise ErrRepositoryNotExists
  end.

Definition set_repository (userSub : string) (r : Repository) : M unit :=
  modify (λ w, set_repos (<[userSub := r]> (repos w)) w).

Definition PlainOpen_ (userSub : string) : M unit :=
  let* _ := fallible PlainOpen in
  let* _ := repository userSub in
  ret tt.

Definition PlainInit_ (userSub : string) : M unit :=
  traced (GitInit userSub)
    (let* _ := fallible PlainInit in
     set_repository userSub empty_repository).

(** [os.WriteFile] inside the work tree. *)
Definition WriteFile_ (site : Site) (userSub path content : string) : M unit :=
  let* _ := fallible site in
  let* r := repository userSub in
  set_repository userSub
    (mkRepository (commits r) (index r) (<[path := content]> (worktree r))).

(** [wt.Add(path)]: stages the file as the work tree has it. *)
Definition Add_ (site : Site) (userSub path : string) : M unit :=
  let* _ := fallible site in
  let* r := repository userSub in
  match worktree r !! path, index r !! path with
  | Some content, _ =>
      set_repository userSub
        (mkRepository (commits r) (<[path := content]> (index r)) (worktree r))
  | None, Some _ =>
      set_repository userSub
        (mkRepository (commits r) (delete path (index r)) (worktree r))
  | None, None => raise ErrEntryNotFound
  end.

(** [wt.Status()] followed by [status.IsClean()]: nothing staged against
    HEAD and nothing changed or untracked in the work tree. *)
Definition IsClean_ (userSub : string) : M bool :=
  let* _ := fallible Status in
  let* r := repository userSub in
  ret (bool_decide (index r = head_tree r ∧ worktree r = index r)).

(** [repo.Head()] *)
Definition Head_ (userSub : string) : M plumbing_Hash :=
  let* _ := fallible Head in
  let* r := repository userSub in
  match commits r with
  | c :: _ => ret (C_Hash c)
  | [] => raise ErrReferenceNotFound
  end.

(** [wt.Commit(message, &git.CommitOptions{Author: ...})]: the tree of the
    new commit is the index, its parent is HEAD; a tree equal to the
    parent's is refused. *)
Definition Commit_ (site : Site) (userSub message : string) : M plumbing_Hash :=
  let* _ := fallible site in
  let* r := repository userSub in
  if bool_decide (index r = head_tree r) then raise ErrEmptyCommit
  else
    let* t := clock in
    let c := mkCommit (S (List.length (commits r))) message
                      "LifeLogger System" "system@lifelogger.life" t (index r) in
    let* _ := set_repository userSub
                (mkRepository (c :: commits r) (index r) (worktree r)) in
    ret (C_Hash c).

(** [repo.CommitObject(hash)] *)
Definition CommitObject_ (userSub : string) (h : plumbing_Hash) : M Commit :=
  let* _ := fallible CommitObject in
  let* r := repository userSub in
  match find (λ c, Nat.eqb (C_Hash c) h) (commits r) with
  | Some c => ret c
  | None => raise ErrObjectNotFound
  end.

(** *** The client *)

Definition filePath (journalID entryDate : string) : string :=
  journalID +:+ "/" +:+ entryDate +:+ ".md".

Definition GetOrInitRepo (userSub : string) : M unit :=
  let* opened := try (PlainOpen_ userSub) in
  match opened with
  | Ok _ => ret tt
  | Err ErrRepositoryNotExists =>
      let* _ := wrap "failed to initialize git repository" (PlainInit_ userSub) in
      let* _ := wrap "failed to get worktree" (fallible InitWorktree) in
      let* _ := wrap "failed to create .gitkeep"
                  (WriteFile_ InitWriteFile userSub ".gitkeep" "") in
      let* _ := wrap "failed to add .gitkeep" (Add_ InitAdd userSub ".gitkeep") in
      let* _ := wrap "failed to create initial commit"
                  (Commit_ InitCommit userSub "Initial commit") in
      ret tt
  | Err err => raise (Wrap "failed to open git repository" err)
  end.

Definition CommitFile (userSub journalID entryDate content commitMessage : string)
  : M plumbing_Hash :=
  traced (GitCommitFile userSub (filePath journalID entryDate))
    (let* _ := GetOrInitRepo userSub in
     let* _ := wrap "failed to get worktree" (fallible Worktree) in
     let* _ := wrap "failed to create entry directory" (fallible MkdirAll) in
     let relativePath := filePath journalID entryDate in
     let* _ := wrap "failed to write file"
                 (WriteFile_ WriteFile userSub relativePath content) in
     let* _ := wrap "failed to add file to git" (Add_ Add userSub relativePath) in
     let* clean := wrap "failed to get status" (IsClean_ userSub) in
     if clean : bool then wrap "failed to get HEAD" (Head_ userSub)
     else
       let commitMessage :=
         if String.eqb commitMessage "" then "Entry for " +:+ entryDate
         else commitMessage in
       wrap "failed to commit" (Commit_ CommitSite userSub commitMessage)).

(** [reader.Read(content)] into a buffer of [file.Size] bytes.  The blob is
    held in memory, so one call fills the buffer; on a blob of no bytes the
    reader is at its end at once and the call returns [io.EOF]. *)
Definition Read_ (blob : string) : M string :=
  let* _ := fallible Read in
  if String.eqb blob "" then raise EOF else ret blob.

Definition GetFileContent (userSub journalID entryDate : string)
    (commitHash : option plumbing_Hash) : M string :=
  let* _ := GetOrInitRepo userSub in
  let* commit :=
    match commitHash with
    | None =>
        let* h := wrap "failed to get HEAD" (Head_ userSub) in
        wrap "failed to get commit" (CommitObject_ userSub h)
    | Some h => wrap "failed to get commit" (CommitObject_ userSub h)
    end in
  match C_Tree commit !! filePath journalID entryDate with
  | None => raise (Wrap "failed to get file from commit" ErrFileNotFound)
  | Some blob =>
      let* _ := wrap "failed to read file" (fallible FileReader) in
      wrap "failed to read file content" (Read_ blob)
  end.

Definition info (c : Commit) : CommitInfo :=
  mkCommitInfo (C_Hash c) (C_Message c) (C_AuthorName c) (C_AuthorEmail c) (C_When c).

(** The callback of [cIter.ForEach] over the commits that [repo.Log] yields
    from HEAD; the walk stops at the first error. *)
Fixpoint ForEach (env : Env) (path : string) (log : list Commit)
    (acc : list CommitInfo) : list CommitInfo * option error :=
  match log with
  | [] => (acc, None)
  | c :: rest =>
      match faults env (TreeOf (C_Hash c)) with
      | Some msg => (acc, Some (Fault msg))
      | None =>
          match C_Tree c !! path with
          | None => ForEach env path rest acc
          | Some _ => ForEach env path rest (acc ++ [info c])
          end
      end
  end.

(** [for i, j := 0, len(commits)-1; i < j; i, j = i+1, j-1 { swap }] *)
Fixpoint reverse_loop {A} (fuel i j : nat) (l : list A) : list A :=
  match fuel with
  | O => l
  | S fuel' =>
      if Nat.ltb i j then
        match l !! i, l !! j with
        | Some x, Some y =>
            reverse_loop fuel' (S i) (Nat.pred j) (<[j := x]> (<[i := y]> l))
        | _, _ => l
        end
      else l
  end.

Definition reverse_in_place {A} (l : list A) : list A :=
  reverse_loop (List.length l) O (Nat.pred (List.length l)) l.

(** On an error of the walk Go returns the error next to the commits
    collected so far; every caller drops them, and so does the model. *)
Definition ListCommits (userSub journalID entryDate : string) : M (list CommitInfo) :=
  let* _ := GetOrInitRepo userSub in
  let path := filePath journalID entryDate in
  let* _ := wrap "failed to get HEAD" (Head_ userSub) in
  let* _ := wrap "failed to get log" (fallible Log) in
  let* r := repository userSub in
  λ env w,
    match ForEach env path (commits r) [] with
    | (found, None) => (Ok (reverse_in_place found), w)
    | (_, Some err) => (Err err, w)
    end.

Definition GetLatestCommitHash (userSub journalID entryDate : string) : M plumbing_Hash :=
  let* _ := GetOrInitRepo userSub in
  wrap "failed to get HEAD" (Head_ userSub).

End git.

(** ** internal/store *)

Module store.

(** ["journal-%d"] of [time.Now().UnixNano()] *)
Definition generateUUID : M string :=
  let* t := clock in
  ret ("journal-" +:+ pretty t).

Definition journal_matches (id userSub : string) (j : Journal) : bool :=
  String.eqb (J_ID j) id && String.eqb (J_UserSub j) userSub.

Definition GetJournal (id userSub : string) : M Journal :=
  let* _ := fallible SelectJournal in
  let* w := get in
  match find (journal_matches id userSub) (journals w) with
  | Some j => ret j
  | None => raise ErrNoRows
  end.

Definition CreateJournal (journal : Journal) : M Journal :=
  let* id := (if String.eqb (J_ID journal) "" then generateUUID
              else ret (J_ID journal)) in
  let* _ :=
    traced (DbCreateJournal id)
      (let* _ := fallible InsertJournal in
       let* t := clock in
       let* w := get in
       if existsb (λ j, String.eqb (J_ID j) id) (journals w)
       then raise (ErrConstraint "journals_pkey")
       else put (set_journals
                   (journals w ++
                      [mkJournal id (J_UserSub journal) (J_Title journal)
                                 (J_Description journal) t t]) w)) in
  GetJournal id (J_UserSub journal).

(** The rows that reference journal [id] go with it, and their versions
    with them. *)
Definition DeleteJournal (id userSub : string) : M unit :=
  traced (DbDeleteJournal id)
    (let* _ := fallible DeleteJournalRow in
     let* w := get in
     if existsb (journal_matches id userSub) (journals w) then
       let gone (e : JournalEntry) := String.eqb (E_JournalID e) id in
       let orphan (v : JournalVersion) :=
         existsb (λ e, gone e && String.eqb (E_ID e) (V_EntryID v))
                 (journal_entries w) in
       put (set_journal_versions
              (filter (λ v, orphan v = false) (journal_versions w))
              (set_journal_entries
                 (filter (λ e, gone e = false) (journal_entries w))
                 (set_journals
                    (filter (λ j, journal_matches id userSub j = false) (journals w))
                    w)))
     else ret tt).

Definition GetJournalEntry (id : string) : M JournalEntry :=
  let* _ := fallible SelectEntry in
  let* w := get in
  match find (λ e, String.eqb (E_ID e) id) (journal_entries w) with
  | Some e => ret e
  | None => raise ErrNoRows
  end.

Definition entry_at (journalID : string) (date : Date) (e : JournalEntry) : bool :=
  String.eqb (E_JournalID e) journalID && bool_decide (E_EntryDate e = date).

Definition GetJournalEntryByDate (journalID : string) (entryDate : Date)
  : M JournalEntry :=
  let* _ := fallible SelectEntryByDate in
  let* w := get in
  match find (entry_at journalID entryDate) (journal_entries w) with
  | Some e => ret e
  | None => raise ErrNoRows
  end.

Definition later_first (a b : JournalEntry) : Prop :=
  date_ord (E_EntryDate b) ≤ date_ord (E_EntryDate a).

#[global] Instance later_first_dec a b : Decision (later_first a b).
Proof. unfold later_first. apply _. Defined.

(** ORDER BY entry_date DESC *)
Definition ListJournalEntries (journalID : string) : M (list JournalEntry) :=
  let* _ := fallible SelectEntries in
  let* w := get in
  ret (merge_sort later_first
         (filter (λ e, String.eqb (E_JournalID e) journalID = true)
                 (journal_entries w))).

Definition CreateJournalEntry (entry : JournalEntry) : M JournalEntry :=
  let* id := (if String.eqb (E_ID entry) "" then generateUUID
              else ret (E_ID entry)) in
  let* _ :=
    traced (DbCreateJournalEntry (E_JournalID entry) (E_EntryDate entry))
      (let* _ := fallible InsertEntry in
       let* t := clock in
       let* w := get in
       if existsb (λ e, String.eqb (E_ID e) id) (journal_entries w)
       then raise (ErrConstraint "journal_entries_pkey")
       else if negb (existsb (λ j, String.eqb (J_ID j) (E_JournalID entry))
                             (journals w))
       then raise (ErrConstraint "journal_entries_journal_id_fkey")
       else if existsb (entry_at (E_JournalID entry) (E_EntryDate entry))
                       (journal_entries w)
       then raise (ErrConstraint "journal_entries_journal_id_entry_date_key")
       else put (set_journal_entries
                   (journal_entries w ++
                      [mkJournalEntry id (E_JournalID entry) (E_EntryDate entry)
                         (E_S3Key entry) (E_GitCommitHash entry)
                         (E_WordCount entry) t t]) w)) in
  GetJournalEntry id.

(** UPDATE ... WHERE id = $4: no row to update is not an error. *)
Definition UpdateJournalEntry (entry : JournalEntry) : M unit :=
  traced (DbUpdateJournalEntry (E_ID entry))
    (let* _ := fallible UpdateEntryRow in
     let* t := clock in
     modify (λ w,
       set_journal_entries
         (map (λ e, if String.eqb (E_ID e) (E_ID entry)
                    then mkJournalEntry (E_ID e) (E_JournalID e) (E_EntryDate e)
                           (E_S3Key entry) (E_GitCommitHash entry)
                           (E_WordCount entry) (E_CreatedAt e) t
                    else e)
              (journal_entries w)) w)).

(** The versions of a deleted row go with it. *)
Definition DeleteJournalEntry (id : string) : M unit :=
  traced (DbDeleteJournalEntry id)
    (let* _ := fallible DeleteEntryRow in
     let* w := get in
     if existsb (λ e, String.eqb (E_ID e) id) (journal_entries w) then
       put (set_journal_versions
              (filter (λ v, String.eqb (V_EntryID v) id = false) (journal_versions w))
              (set_journal_entries
                 (filter (λ e, String.eqb (E_ID e) id = false) (journal_entries w))
                 w))
     else ret tt).

Definition CreateJournalVersion (version : JournalVersion) : M JournalVersion :=
  let* id := (if String.eqb (V_ID version) "" then generateUUID
              else ret (V_ID version)) in
  let version := mkJournalVersion id (V_EntryID version) (V_CommitHash version)
                   (V_CommitMessage version) (V_AuthorName version)
                   (V_AuthorEmail version) (V_CreatedAt version) in
  traced (DbCreateJournalVersion (V_EntryID version) (V_CommitHash version))
    (let* _ := fallible InsertVersion in
     let* w := get in
     if existsb (λ v, String.eqb (V_ID v) id) (journal_versions w)
     then raise (ErrConstraint "journal_versions_pkey")
     else if negb (existsb (λ e, String.eqb (E_ID e) (V_EntryID version))
                           (journal_entries w))
     then raise (ErrConstraint "journal_versions_entry_id_fkey")
     else if existsb (λ v, String.eqb (V_EntryID v) (V_EntryID version)
                           && Nat.eqb (V_CommitHash v) (V_CommitHash version))
                     (journal_versions w)
     then raise (ErrConstraint "journal_versions_entry_id_commit_hash_key")
     else
       let* _ := put (set_journal_versions (journal_versions w ++ [version]) w) in
       ret version).

(** ORDER BY created_at DESC *)
Definition newest_first (a b : Journal) : Prop := J_CreatedAt b ≤ J_CreatedAt a.

#[global] Instance newest_first_dec a b : Decision (newest_first a b).
Proof. unfold newest_first. apply _. Defined.

Definition ListJournals (userSub : string) : M (list Journal) :=
  let* _ := fallible SelectJournals in
  let* w := get in
  ret (merge_sort newest_first
         (filter (λ j, String.eqb (J_UserSub j) userSub = true) (journals w))).

(** UPDATE ... WHERE id = $3 AND user_sub = $4: no row to update is not an
    error. *)
Definition UpdateJournal (journal : Journal) : M unit :=
  traced (DbUpdateJournal (J_ID journal))
    (let* _ := fallible UpdateJournalRow in
     let* t := clock in
     modify (λ w,
       set_journals
         (map (λ j, if journal_matches (J_ID journal) (J_UserSub journal) j
                    then mkJournal (J_ID j) (J_UserSub j) (J_Title journal)
                           (J_Description journal) (J_CreatedAt j) t
                    else j)
              (journals w)) w)).

Definition version_newest_first (a b : JournalVersion) : Prop :=
  V_CreatedAt b ≤ V_CreatedAt a.

#[global] Instance version_newest_first_dec a b : Decision (version_newest_first a b).
Proof. unfold version_newest_first. apply _. Defined.

Definition ListJournalVersions (entryID : string) : M (list JournalVersion) :=
  let* _ := fallible SelectVersions in
  let* w := get in
  ret (merge_sort version_newest_first
         (filter (λ v, String.eqb (V_EntryID v) entryID = true) (journal_versions w))).

Definition version_of (entryID : string) (commitHash : plumbing_Hash)
    (v : JournalVersion) : bool :=
  String.eqb (V_EntryID v) entryID && Nat.eqb (V_CommitHash v) commitHash.

Definition GetJournalVersion (entryID : string) (commitHash : plumbing_Hash)
  : M JournalVersion :=
  let* _ := fallible SelectVersion in
  let* w := get in
  match find (version_of entryID commitHash) (journal_versions w) with
  | Some v => ret v
  | None => raise ErrNoRows
  end.

End store.

(** ** internal/journal *)

Module journal.

Definition sanitizeMarkdown (content : string) : string :=
  let content := ReplaceAll content NUL "" in
  let content := ReplaceAll content (CR +:+ LF) LF in
  let content := ReplaceAll content CR LF in
  content.

Definition countWords (content : string) : Z :=
  Z.of_nat (count_fields false content).

Definition CreateJournal (userSub title description : string) : M Journal :=
  store.CreateJournal
    (mkJournal "" userSub title
       (if String.eqb description "" then None else Some description) 0 0).

Definition GetJournal (id userSub : string) : M Journal :=
  store.GetJournal id userSub.

(** The loop of [DeleteJournal] over the listed entries: a failed delete is
    logged and the loop goes on. *)
Fixpoint delete_blobs (userSub id : string) (entries : list JournalEntry) : M unit :=
  match entries with
  | [] => ret tt
  | entry :: rest =>
      let entryDate := formatDate (E_EntryDate entry) in
      let s3Key := s3.GenerateKey userSub id entryDate in
      let* _ := try (s3.Delete s3Key) in
      delete_blobs userSub id rest
  end.

Definition DeleteJournal (id userSub : string) : M unit :=
  let* entries := wrap "failed to list entries" (store.ListJournalEntries id) in
  let* _ := delete_blobs userSub id entries in
  store.DeleteJournal id userSub.

Definition CreateEntry (userSub journalID entryDate content : string)
  : M JournalEntry :=
  match parseDate entryDate with
  | None => raise (Wrap "invalid date format" ErrParse)
  | Some date =>
      let* _ := wrap "journal not found" (store.GetJournal journalID userSub) in
      let* existing := try (store.GetJournalEntryByDate journalID date) in
      match existing with
      | Ok _ => raise (Errorf ("entry for date " +:+ entryDate +:+ " already exists"))
      | Err _ =>
          let content := sanitizeMarkdown content in
          let wordCount := countWords content in
          let s3Key := s3.GenerateKey userSub journalID entryDate in
          let* _ := wrap "failed to upload to S3" (s3.Upload s3Key content) in
          let* committed :=
            try (git.CommitFile userSub journalID entryDate content
                   ("Entry for " +:+ entryDate)) in
          match committed with
          | Err err =>
              let* _ := try (s3.Delete s3Key) in
              raise (Wrap "failed to commit to Git" err)
          | Ok commitHash =>
              let entry :=
                mkJournalEntry "" journalID date s3Key (Some commitHash)
                               (Some (int32 wordCount)) 0 0 in
              let* created := try (store.CreateJournalEntry entry) in
              match created with
              | Err err =>
                  let* _ := try (s3.Delete s3Key) in
                  raise (Wrap "failed to save entry" err)
              | Ok createdEntry =>
                  let* t := clock in
                  let version :=
                    mkJournalVersion "" (E_ID createdEntry) commitHash
                      (Some ("Entry for " +:+ entryDate))
                      (Some "LifeLogger System") (Some "system@lifelogger.life") t in
                  let* _ := try (store.CreateJournalVersion version) in
                  ret createdEntry
              end
          end
      end
  end.

Definition GetEntry (userSub journalID entryDate : string)
  : M (JournalEntry * string) :=
  match parseDate entryDate with
  | None => raise (Wrap "invalid date format" ErrParse)
  | Some date =>
      let* entry := wrap "entry not found" (store.GetJournalEntryByDate journalID date) in
      let* _ := wrap "journal not found" (store.GetJournal journalID userSub) in
      let* content := wrap "failed to download from S3" (s3.Download (E_S3Key entry)) in
      ret (entry, content)
  end.

Definition UpdateEntry (userSub journalID entryDate content : string)
  : M JournalEntry :=
  match parseDate entryDate with
  | None => raise (Wrap "invalid date format" ErrParse)
  | Some date =>
      let* entry := wrap "entry not found" (store.GetJournalEntryByDate journalID date) in
      let* _ := wrap "journal not found" (store.GetJournal journalID userSub) in
      let content := sanitizeMarkdown content in
      let wordCount := countWords content in
      let* _ := wrap "failed to upload to S3" (s3.Upload (E_S3Key entry) content) in
      let* commitHash :=
        wrap "failed to commit to Git"
          (git.CommitFile userSub journalID entryDate content
             ("Update entry for " +:+ entryDate)) in
      let entry :=
        mkJournalEntry (E_ID entry) (E_JournalID entry) (E_EntryDate entry)
          (E_S3Key entry) (Some commitHash) (Some (int32 wordCount))
          (E_CreatedAt entry) (E_UpdatedAt entry) in
      let* _ := wrap "failed to update entry" (store.UpdateJournalEntry entry) in
      let* t := clock in
      let version :=
        mkJournalVersion "" (E_ID entry) commitHash
          (Some ("Update entry for " +:+ entryDate))
          (Some "LifeLogger System") (Some "system@lifelogger.life") t in
      let* _ := try (store.CreateJournalVersion version) in
      ret entry
  end.

Definition DeleteEntry (userSub journalID entryDate : string) : M unit :=
  match parseDate entryDate with
  | None => raise (Wrap "invalid date format" ErrParse)
  | Some date =>
      let* entry := wrap "entry not found" (store.GetJournalEntryByDate journalID date) in
      let* _ := wrap "journal not found" (store.GetJournal journalID userSub) in
      let* _ := try (s3.Delete (E_S3Key entry)) in
      store.DeleteJournalEntry (E_ID entry)
  end.

Definition ListVersions (userSub journalID entryDate : string)
  : M (list git.CommitInfo) :=
  let* _ := wrap "journal not found" (store.GetJournal journalID userSub) in
  git.ListCommits userSub journalID entryDate.

(** [commitHash] is [None] for the empty string, which reads HEAD. *)
Definition GetVersion (userSub journalID entryDate : string)
    (commitHash : option plumbing_Hash) : M string :=
  let* _ := wrap "journal not found" (store.GetJournal journalID userSub) in
  git.GetFileContent userSub journalID entryDate commitHash.

Definition ListJournals (userSub : string) : M (list Journal) :=
  store.ListJournals userSub.

Definition UpdateJournal (id userSub title description : string) : M unit :=
  store.UpdateJournal
    (mkJournal id userSub title
       (if String.eqb description "" then None else Some description) 0 0).

Definition ListEntries (userSub journalID : string) : M (list JournalEntry) :=
  let* _ := wrap "journal not found" (store.GetJournal journalID userSub) in
  store.ListJournalEntries journalID.

End journal.

(** ** internal/handlers *)

Module handlers.

Definition StatusBadRequest : Z := 400.
Definition StatusUnauthorized : Z := 401.
Definition StatusNotFound : Z := 404.
Definition StatusConflict : Z := 409.
Definition StatusInternalServerError : Z := 500.
Definition StatusOK : Z := 200.
Definition StatusCreated : Z := 201.

Record CreateEntryRequest : Type := mkCreateEntryRequest {
  EntryDate : string;
  Content : string }.

(** What a handler reads of the request: the [X-User-Sub] header, the URL
    parameters and the decoded JSON body, [None] when decoding fails. *)
Record Request (Body : Type) : Type := mkRequest {
  userSub : string;
  journalId : string;
  date : string;
  body : option Body }.
Arguments mkRequest {Body}.
Arguments userSub {Body}.
Arguments journalId {Body}.
Arguments date {Body}.
Arguments body {Body}.

Inductive Response : Type :=
  | HttpError (msg : string) (code : Z)       (* http.Error(w, msg, code) *)
  | Json (code : Z) (entry : JournalEntry).   (* the encoded entry *)

Definition status (r : Response) : Z :=
  match r with
  | HttpError _ code => code
  | Json code _ => code
  end.

Definition Handler : Type := Env → World → Response * World.

Definition CreateEntry (r : Request CreateEntryRequest) : Handler :=
  λ env w,
    if String.eqb (userSub r) "" then (HttpError "Unauthorized" StatusUnauthorized, w)
    else
      match body r with
      | None => (HttpError "Invalid request body" StatusBadRequest, w)
      | Some req =>
          if String.eqb (EntryDate req) ""
          then (HttpError "entry_date is required" StatusBadRequest, w)
          else if String.eqb (Content req) ""
          then (HttpError "content is required" StatusBadRequest, w)
          else
            match journal.CreateEntry (userSub r) (journalId r) (EntryDate req)
                                      (Content req) env w with
            | (Err err, w') =>
                if Contains (Error err) "already exists"
                then (HttpError (Error err) StatusConflict, w')
                else if Contains (Error err) "not found"
                then (HttpError (Error err) StatusNotFound, w')
                else (HttpError (Error err) StatusInternalServerError, w')
            | (Ok entry, w') => (Json StatusCreated entry, w')
            end
      end.

(** [UpdateEntryRequest] has the one field [Content]. *)
Definition UpdateEntry (r : Request string) : Handler :=
  λ env w,
    if String.eqb (userSub r) "" then (HttpError "Unauthorized" StatusUnauthorized, w)
    else
      match body r with
      | None => (HttpError "Invalid request body" StatusBadRequest, w)
      | Some content =>
          if String.eqb content ""
          then (HttpError "content is required" StatusBadRequest, w)
          else
            match journal.UpdateEntry (userSub r) (journalId r) (date r) content env w with
            | (Err err, w') =>
                if Contains (Error err) "not found"
                then (HttpError (Error err) StatusNotFound, w')
                else (HttpError (Error err) StatusInternalServerError, w')
            | (Ok entry, w') => (Json StatusOK entry, w')
            end
      end.

(** *** The other handlers

    Each is a function of what it reads of the request: the [X-User-Sub]
    header, its URL parameters and, where it has one, the decoded JSON body
    ([None] when decoding fails). *)

Definition StatusNoContent : Z := 204.

Record CreateJournalRequest : Type := mkCreateJournalRequest {
  Title : string;
  Description : string }.

(** [UpdateJournalRequest] has the same two fields. *)
Definition UpdateJournalRequest : Type := CreateJournalRequest.

(** The time of a version is kept as it is; its rendering as text is not
    modelled. *)
Record VersionResponse : Type := mkVersionResponse {
  Hash : plumbing_Hash;
  Message : string;
  AuthorName : string;
  AuthorEmail : string;
  CreatedAt : Z }.

Inductive Payload : Type :=
  | OfJournal (journal : Journal)
  | OfJournals (journals : list Journal)
  | OfEntry (entry : JournalEntry) (content : string)
  | OfEntries (entries : list JournalEntry)
  | OfVersions (versions : list VersionResponse)
  | OfVersion (commit_hash : option plumbing_Hash) (content : string).

Inductive Reply : Type :=
  | Refused (msg : string) (code : Z)   (* http.Error(w, msg, code) *)
  | Encoded (p : Payload)               (* json.NewEncoder(w).Encode(p) *)
  | NoContent.                          (* w.WriteHeader(http.StatusNoContent) *)

Definition code (r : Reply) : Z :=
  match r with
  | Refused _ c => c
  | Encoded _ => StatusOK
  | NoContent => StatusNoContent
  end.

(** [if strings.Contains(err.Error(), "not found") { 404 } else { 500 }] *)
Definition refuse (err : error) (notFound : string) : Reply :=
  if Contains (Error err) "not found" then Refused notFound StatusNotFound
  else Refused (Error err) StatusInternalServerError.

Definition CreateJournal (userSub : string) (body : option CreateJournalRequest)
  : Env → World → Reply * World :=
  λ env w,
    if String.eqb userSub "" then (Refused "Unauthorized" StatusUnauthorized, w)
    else
      match body with
      | None => (Refused "Invalid request body" StatusBadRequest, w)
      | Some req =>
          if String.eqb (Title req) ""
          then (Refused "Title is required" StatusBadRequest, w)
          else
            match journal.CreateJournal userSub (Title req) (Description req) env w with
            | (Err err, w') => (Refused (Error err) StatusInternalServerError, w')
            | (Ok journal, w') => (Encoded (OfJournal journal), w')
            end
      end.

Definition GetJournal (userSub id : string) : Env → World → Reply * World :=
  λ env w,
    if String.eqb userSub "" then (Refused "Unauthorized" StatusUnauthorized, w)
    else
      match journal.GetJournal id userSub env w with
      | (Err err, w') => (refuse err "Journal not found", w')
      | (Ok journal, w') => (Encoded (OfJournal journal), w')
      end.

Definition ListJournals (userSub : string) : Env → World → Reply * World :=
  λ env w,
    if String.eqb userSub "" then (Refused "Unauthorized" StatusUnauthorized, w)
    else
      match journal.ListJournals userSub env w with
      | (Err err, w') => (Refused (Error err) StatusInternalServerError, w')
      | (Ok journals, w') => (Encoded (OfJournals journals), w')
      end.

Definition UpdateJournal (userSub id : string) (body : option UpdateJournalRequest)
  : Env → World → Reply * World :=
  λ env w,
    if String.eqb userSub "" then (Refused "Unauthorized" StatusUnauthorized, w)
    else
      match body with
      | None => (Refused "Invalid request body" StatusBadRequest, w)
      | Some req =>
          match journal.GetJournal id userSub env w with
          | (Err err, w1) => (refuse err "Journal not found", w1)
          | (Ok existing, w1) =>
              let title := if String.eqb (Title req) "" then J_Title existing
                           else Title req in
              let description := Description req in
              match journal.UpdateJournal id userSub title description env w1 with
              | (Err err, w2) => (Refused (Error err) StatusInternalServerError, w2)
              | (Ok _, w2) =>
                  match journal.GetJournal id userSub env w2 with
                  | (Err err, w3) =>
                      (Refused (Error err) StatusInternalServerError, w3)
                  | (Ok updated, w3) => (Encoded (OfJournal updated), w3)
                  end
              end
          end
      end.

Definition DeleteJournal (userSub id : string) : Env → World → Reply * World :=
  λ env w,
    if String.eqb userSub "" then (Refused "Unauthorized" StatusUnauthorized, w)
    else
      match journal.DeleteJournal id userSub env w with
      | (Err err, w') => (refuse err "Journal not found", w')
      | (Ok _, w') => (NoContent, w')
      end.

Definition GetEntry (userSub journalID entryDate : string)
  : Env → World → Reply * World :=
  λ env w,
    if String.eqb userSub "" then (Refused "Unauthorized" StatusUnauthorized, w)
    else
      match journal.GetEntry userSub journalID entryDate env w with
      | (Err err, w') => (refuse err "Entry not found", w')
      | (Ok (entry, content), w') => (Encoded (OfEntry entry content), w')
      end.

Definition ListEntries (userSub journalID : string) : Env → World → Reply * World :=
  λ env w,
    if String.eqb userSub "" then (Refused "Unauthorized" StatusUnauthorized, w)
    else
      match journal.ListEntries userSub journalID env w with
      | (Err err, w') => (refuse err "Journal not found", w')
      | (Ok entries, w') => (Encoded (OfEntries entries), w')
      end.

Definition DeleteEntry (userSub journalID entryDate : string)
  : Env → World → Reply * World :=
  λ env w,
    if String.eqb userSub "" then (Refused "Unauthorized" StatusUnauthorized, w)
    else
      match journal.DeleteEntry userSub journalID entryDate env w with
      | (Err err, w') => (refuse err "Entry not found", w')
      | (Ok _, w') => (NoContent, w')
      end.

Definition ListVersions (userSub journalID entryDate : string)
  : Env → World → Reply * World :=
  λ env w,
    if String.eqb userSub "" then (Refused "Unauthorized" StatusUnauthorized, w)
    else
      match journal.ListVersions userSub journalID entryDate env w with
      | (Err err, w') => (refuse err "Journal or entry not found", w')
      | (Ok versions, w') =>
          (Encoded (OfVersions
                      (map (λ v, mkVersionResponse (git.Hash v) (git.Message v)
                                   (git.AuthorName v) (git.AuthorEmail v)
                                   (git.CreatedAt v))
                           versions)), w')
      end.

(** [commitHash] is the hash that the commit parameter names, [None] for the
    empty string. *)
Definition GetVersion (userSub journalID entryDate : string)
    (commitHash : option plumbing_Hash) : Env → World → Reply * World :=
  λ env w,
    if String.eqb userSub "" then (Refused "Unauthorized" StatusUnauthorized, w)
    else
      match journal.GetVersion userSub journalID entryDate commitHash env w with
      | (Err err, w') => (refuse err "Version not found", w')
      | (Ok content, w') => (Encoded (OfVersion commitHash content), w')
      end.

End handlers.

(** ** internal/config *)

Module config.

Record Config : Type := mkConfig {
  Host : string;
  Port : Z;               (* uint16 *)
  DatabaseURL : string;
  S3Endpoint : string;
  S3Bucket : string;
  S3AccessKey : string;
  S3SecretKey : string;
  GitRoot : string;
  LogLevel : string }.

Definition Default : Config :=
  mkConfig "0.0.0.0" 9002 "" "" "lifelogger-journals" "" "" "/var/lib/ll-journal/git"
           "info".

Definition set_Host (v : string) (c : Config) : Config :=
  mkConfig v (Port c) (DatabaseURL c) (S3Endpoint c) (S3Bucket c) (S3AccessKey c)
           (S3SecretKey c) (GitRoot c) (LogLevel c).
Definition set_Port (v : Z) (c : Config) : Config :=
  mkConfig (Host c) v (DatabaseURL c) (S3Endpoint c) (S3Bucket c) (S3AccessKey c)
           (S3SecretKey c) (GitRoot c) (LogLevel c).
Definition set_DatabaseURL (v : string) (c : Config) : Config :=
  mkConfig (Host c) (Port c) v (S3Endpoint c) (S3Bucket c) (S3AccessKey c)
           (S3SecretKey c) (GitRoot c) (LogLevel c).
Definition set_S3Endpoint (v : string) (c : Config) : Config :=
  mkConfig (Host c) (Port c) (DatabaseURL c) v (S3Bucket c) (S3AccessKey c)
           (S3SecretKey c) (GitRoot c) (LogLevel c).
Definition set_S3Bucket (v : string) (c : Config) : Config :=
  mkConfig (Host c) (Port c) (DatabaseURL c) (S3Endpoint c) v (S3AccessKey c)
           (S3SecretKey c) (GitRoot c) (LogLevel c).
Definition set_S3AccessKey (v : string) (c : Config) : Config :=
  mkConfig (Host c) (Port c) (DatabaseURL c) (S3Endpoint c) (S3Bucket c) v
           (S3SecretKey c) (GitRoot c) (LogLevel c).
Definition set_S3SecretKey (v : string) (c : Config) : Config :=
  mkConfig (Host c) (Port c) (DatabaseURL c) (S3Endpoint c) (S3Bucket c) (S3AccessKey c)
           v (GitRoot c) (LogLevel c).
Definition set_GitRoot (v : string) (c : Config) : Config :=
  mkConfig (Host c) (Port c) (DatabaseURL c) (S3Endpoint c) (S3Bucket c) (S3AccessKey c)
           (S3SecretKey c) v (LogLevel c).
Definition set_LogLevel (v : string) (c : Config) : Config :=
  mkConfig (Host c) (Port c) (DatabaseURL c) (S3Endpoint c) (S3Bucket c) (S3AccessKey c)
           (S3SecretKey c) (GitRoot c) v.

(** The environment of the process.  [os.Getenv] gives the empty string for
    a variable that is not set. *)
Definition Environ : Type := gmap string string.

Definition Getenv (env : Environ) (key : string) : string := default "" (env !! key).

(** The loop of [strconv.ParseUint(s, 10, 16)] over the bytes of [s], [n]
    being the number read so far: a byte that is no decimal digit is a
    syntax error, a number above [maxVal] a range error. *)
Definition cutoff : Z := (2 ^ 64 - 1) / 10 + 1.
Definition maxVal : Z := 2 ^ 16 - 1.

Fixpoint ParseUint_loop (n : Z) (s : string) : option Z :=
  match s with
  | EmptyString => Some n
  | String c rest =>
      match digit c with
      | None => None
      | Some d =>
          if cutoff <=? n then None
          else
            let n1 := n * 10 + d in
            if maxVal <? n1 then None else ParseUint_loop n1 rest
      end
  end.

Definition ParseUint (s : string) : option Z :=
  if String.eqb s "" then None else ParseUint_loop 0 s.

Definition loadFromEnv (env : Environ) (c : Config) : Config :=
  let c := let host := Getenv env "LL_JOURNAL_HOST" in
           if String.eqb host "" then c else set_Host host c in
  let c := let portStr := Getenv env "LL_JOURNAL_PORT" in
           if String.eqb portStr "" then c
           else match ParseUint portStr with
                | Some port => set_Port port c
                | None => c
                end in
  let c := let dbURL := Getenv env "LL_JOURNAL_DATABASE_URL" in
           if String.eqb dbURL "" then c else set_DatabaseURL dbURL c in
  let c := let endpoint := Getenv env "LL_JOURNAL_S3_ENDPOINT" in
           if String.eqb endpoint "" then c else set_S3Endpoint endpoint c in
  let c := let bucket := Getenv env "LL_JOURNAL_S3_BUCKET" in
           if String.eqb bucket "" then c else set_S3Bucket bucket c in
  let c := let key := Getenv env "LL_JOURNAL_S3_ACCESS_KEY" in
           if String.eqb key "" then c else set_S3AccessKey key c in
  let c := let secret := Getenv env "LL_JOURNAL_S3_SECRET_KEY" in
           if String.eqb secret "" then c else set_S3SecretKey secret c in
  let c := let root := Getenv env "LL_JOURNAL_GIT_ROOT" in
           if String.eqb root "" then c else set_GitRoot root c in
  let c := let level := Getenv env "LL_JOURNAL_LOG_LEVEL" in
           if String.eqb level "" then c else set_LogLevel level c in
  c.

Definition mergeFromJSON (env : Environ) (jsonConfig : Config) (c : Config) : Config :=
  let c := if String.eqb (Getenv env "LL_JOURNAL_HOST") ""
              && negb (String.eqb (Host jsonConfig) "")
           then set_Host (Host jsonConfig) c else c in
  let c := if String.eqb (Getenv env "LL_JOURNAL_PORT") ""
              && negb (Port jsonConfig =? 0)
           then set_Port (Port jsonConfig) c else c in
  let c := if String.eqb (Getenv env "LL_JOURNAL_DATABASE_URL") ""
              && negb (String.eqb (DatabaseURL jsonConfig) "")
           then set_DatabaseURL (DatabaseURL jsonConfig) c else c in
  let c := if String.eqb (Getenv env "LL_JOURNAL_S3_ENDPOINT") ""
              && negb (String.eqb (S3Endpoint jsonConfig) "")
           then set_S3Endpoint (S3Endpoint jsonConfig) c else c in
  let c := if String.eqb (Getenv env "LL_JOURNAL_S3_BUCKET") ""
              && negb (String.eqb (S3Bucket jsonConfig) "")
           then set_S3Bucket (S3Bucket jsonConfig) c else c in
  let c := if String.eqb (Getenv env "LL_JOURNAL_S3_ACCESS_KEY") ""
              && negb (String.eqb (S3AccessKey jsonConfig) "")
           then set_S3AccessKey (S3AccessKey jsonConfig) c else c in
  let c := if String.eqb (Getenv env "LL_JOURNAL_S3_SECRET_KEY") ""
              && negb (String.eqb (S3SecretKey jsonConfig) "")
           then set_S3SecretKey (S3SecretKey jsonConfig) c else c in
  let c := if String.eqb (Getenv env "LL_JOURNAL_GIT_ROOT") ""
              && negb (String.eqb (GitRoot jsonConfig) "")
           then set_GitRoot (GitRoot jsonConfig) c else c in
  let c := if String.eqb (Getenv env "LL_JOURNAL_LOG_LEVEL") ""
              && negb (String.eqb (LogLevel jsonConfig) "")
           then set_LogLevel (LogLevel jsonConfig) c else c in
  c.

(** The two files that [Load] looks for in the working directory.  [dotenv]
    is [None] when [os.Stat(".env")] fails, and else what [godotenv.Load]
    makes of the file: an error, or the variables it defines.  [config_json]
    is [None] when [os.Stat("config.json")] fails, and else what
    [LoadFromJSON] returns: [None] for an error, or the decoded [Config],
    whose absent fields are the empty string and 0. *)
Record Files : Type := mkFiles {
  dotenv : option (result Environ);
  config_json : option (option Config) }.

(** [godotenv.Load] sets the variables of the file that the process does not
    have yet. *)
Definition godotenv_Load (env vars : Environ) : Environ := env ∪ vars.

Definition Load (env : Environ) (files : Files) : result Config :=
  let config := Default in
  let envMode := Getenv env "ENV" in
  let envMode := if String.eqb envMode "" then Getenv env "APP_ENV" else envMode in
  let envMode := if String.eqb envMode "" then "development" else envMode in
  let loaded : result Environ :=
    if negb (String.eqb envMode "production") then
      match dotenv files with
      | Some (Ok vars) => Ok (godotenv_Load env vars)
      | Some (Err err) => Err (Wrap "failed to load .env file" err)
      | None => Ok env
      end
    else Ok env in
  match loaded with
  | Err err => Err err
  | Ok env =>
      let config := loadFromEnv env config in
      let config :=
        match config_json files with
        | Some (Some jsonConfig) => mergeFromJSON env jsonConfig config
        | _ => config
        end in
      Ok config
  end.

(** ["%s:%d"] *)
Definition SocketAddr (c : Config) : string := Host c +:+ ":" +:+ pretty (Port c).

End config.

(** ** internal/migrations *)

Module migrations.

(** The loop of [splitSQL] over the lines: the statements found so far and
    the text of the statement that is being read. *)
Definition splitSQL_line (state : list string * string) (line : string)
  : list string * string :=
  let '(statements, currentStmt) := state in
  let line := TrimSpace line in
  if String.eqb line "" || HasPrefix line "--" then (statements, currentStmt)
  else
    let currentStmt := currentStmt +:+ line +:+ LF in
    if HasSuffix (TrimSpace line) ";" then
      let stmt := TrimSpace currentStmt in
      (if String.eqb stmt "" then statements else statements ++ [stmt], EmptyString)
    else (statements, currentStmt).

Definition splitSQL (sql : string) : list string :=
  let lines := Split sql "010"%char in
  let '(statements, currentStmt) := fold_left splitSQL_line lines ([], EmptyString) in
  if (0 <? String.length currentStmt)%nat then
    let stmt := TrimSpace currentStmt in
    if String.eqb stmt "" then statements else statements ++ [stmt]
  else statements.

(** An entry of the migrations directory, with what [os.ReadFile] reads of
    it. *)
Record DirEntry : Type := mkDirEntry {
  Name : string;
  IsDir : bool;
  Data : string }.

(** The database as the migrations see it: the names recorded in
    [schema_migrations], [None] while that table does not exist, and the
    statements of the migrations that were committed, in the order in which
    they ran. *)
Record Database : Type := mkDatabase {
  schema_migrations : option (list string);
  executed : list string }.

(** Places where a call can fail. *)
Inductive Site : Type :=
  | FindMigrationsDir | CreateTable | ReadDir
  | SelectExists (name : string)
  | ReadFile (name : string)
  | BeginTx (name : string)
  | Exec (name stmt : string)
  | InsertName (name : string)
  | CommitTx (name : string).

(** What the run finds around it: the directory that [findMigrationsDir]
    returns, what [os.ReadDir] lists in it, and the calls that fail. *)
Record Env : Type := mkEnv {
  dir : string;
  listing : list DirEntry;
  faults : Site → option string }.

(** [filepath.Join(dir, entry.Name())] *)
Definition path (dir : string) (entry : DirEntry) : string :=
  dir +:+ "/" +:+ Name entry.

Definition in_order (dir : string) (a b : DirEntry) : Prop :=
  String.leb (path dir a) (path dir b) = true.

#[global] Instance in_order_dec dir a b : Decision (in_order dir a b).
Proof. unfold in_order. apply _. Defined.

(** The files are kept with their paths: [filepath.Base] of a path gives the
    name of its entry back. *)
Definition getMigrationFiles (env : Env) : result (list DirEntry) :=
  match faults env ReadDir with
  | Some msg => Err (Fault msg)
  | None =>
      Ok (merge_sort (in_order (dir env))
            (filter (λ entry, negb (IsDir entry) && HasSuffix (Name entry) ".sql" = true)
                    (listing env)))
  end.

Definition ensureMigrationsTable (env : Env) (db : Database) : result unit * Database :=
  match faults env CreateTable with
  | Some msg => (Err (Fault msg), db)
  | None =>
      (Ok tt, mkDatabase (Some (default [] (schema_migrations db))) (executed db))
  end.

Definition isMigrationRun (env : Env) (db : Database) (migrationName : string)
  : result bool :=
  match faults env (SelectExists migrationName) with
  | Some msg => Err (Fault msg)
  | None =>
      match schema_migrations db with
      | None => Err (Fault "relation schema_migrations does not exist")
      | Some names => Ok (existsb (String.eqb migrationName) names)
      end
  end.

(** The statements of one migration, run in its transaction: those that ran,
    or the error of the first that failed. *)
Fixpoint exec_statements (env : Env) (migrationName : string)
    (statements ran : list string) : result (list string) :=
  match statements with
  | [] => Ok ran
  | stmt :: rest =>
      let stmt := TrimSpace stmt in
      if String.eqb stmt "" || HasPrefix stmt "--"
      then exec_statements env migrationName rest ran
      else
        match faults env (Exec migrationName stmt) with
        | Some msg =>
            Err (Errorf ("failed to execute migration statement: " +:+ msg +:+ LF
                         +:+ "Statement: " +:+ stmt))
        | None => exec_statements env migrationName rest (ran ++ [stmt])
        end
  end.

(** One migration that has not run yet.  What its transaction did reaches
    the database when the transaction commits, and not otherwise. *)
Definition run_migration (env : Env) (migrationFile : DirEntry) (db : Database)
  : result unit * Database :=
  let migrationName := Name migrationFile in
  match faults env (ReadFile migrationName) with
  | Some msg =>
      (Err (Wrap ("failed to read migration file " +:+ path (dir env) migrationFile)
                 (Fault msg)), db)
  | None =>
      match faults env (BeginTx migrationName) with
      | Some msg => (Err (Wrap "failed to begin transaction" (Fault msg)), db)
      | None =>
          match exec_statements env migrationName (splitSQL (Data migrationFile)) [] with
          | Err err => (Err err, db)
          | Ok ran =>
              let recorded : result (list string) :=
                match faults env (InsertName migrationName), schema_migrations db with
                | Some msg, _ => Err (Fault msg)
                | None, None => Err (Fault "relation schema_migrations does not exist")
                | None, Some names =>
                    if existsb (String.eqb migrationName) names
                    then Err (ErrConstraint "schema_migrations_pkey")
                    else Ok (names ++ [migrationName])
                end in
              match recorded with
              | Err err => (Err (Wrap "failed to record migration" err), db)
              | Ok names =>
                  match faults env (CommitTx migrationName) with
                  | Some msg => (Err (Wrap "failed to commit migration" (Fault msg)), db)
                  | None => (Ok tt, mkDatabase (Some names) (executed db ++ ran))
                  end
              end
          end
      end
  end.

(** The loop of [RunMigrations] over the migration files. *)
Fixpoint run_migrations (env : Env) (migrationFiles : list DirEntry) (db : Database)
  : result unit * Database :=
  match migrationFiles with
  | [] => (Ok tt, db)
  | migrationFile :: rest =>
      match isMigrationRun env db (Name migrationFile) with
      | Err err => (Err (Wrap "failed to check migration status" err), db)
      | Ok true => run_migrations env rest db
      | Ok false =>
          match run_migration env migrationFile db with
          | (Err err, db') => (Err err, db')
          | (Ok _, db') => run_migrations env rest db'
          end
      end
  end.

Definition RunMigrations (env : Env) (db : Database) : result unit * Database :=
  match faults env FindMigrationsDir with
  | Some msg => (Err (Wrap "failed to find migrations directory" (Fault msg)), db)
  | None =>
      match ensureMigrationsTable env db with
      | (Err err, db') => (Err (Wrap "failed to ensure migrations table" err), db')
      | (Ok _, db') =>
          match getMigrationFiles env with
          | Err err => (Err (Wrap "failed to get migration files" err), db')
          | Ok migrationFiles => run_migrations env migrationFiles db'
          end
      end
  end.

End migrations.

(** * Reasoning about backend code *)

(** ** Relations between the world before and after a call *)

(** [keeps f]: the part [f] of the world is the same afterwards. *)
Definition keeps {B} (f : World → B) : relation World := λ w w', f w' = f w.

(** [emitting P]: the trace grows, by events that satisfy [P]. *)
Definition emitting (P : Event → Prop) : relation World :=
  λ w w', ∃ evs, trace w' = trace w ++ evs ∧ Forall P evs.

(** Whatever the environment and the outcome, [m] takes a world to one
    related to it. *)
Definition respects (R : relation World) {A} (m : M A) : Prop :=
  ∀ env w, R w (m env w).2.

(** [err_post R m]: a run of [m] that returns an error takes a world to one
    related to it. *)
Definition err_post (R : relation World) {A} (m : M A) : Prop :=
  ∀ env w e w', m env w = (Err e, w') → R w w'.

(** The event is an attempt to insert a version row. *)
Definition version_insert (ev : Event) : bool :=
  match ev_call ev with
  | DbCreateJournalVersion _ _ => true
  | _ => false
  end.

(** The trace grows by events other than inserts of version rows. *)
Definition quiet : relation World := emitting (λ ev, version_insert ev = false).

(** ** Normalisation, as the specification words it *)

Definition nul : ascii := ascii_of_nat 0.
Definition cr : ascii := ascii_of_nat 13.
Definition lf : ascii := ascii_of_nat 10.

(** NUL bytes removed. *)
Fixpoint strip_nul (s : string) : string :=
  match s with
  | EmptyString => EmptyString
  | String c rest =>
      if Ascii.eqb c nul then strip_nul rest else String c (strip_nul rest)
  end.

(** Every CR LF pair replaced by LF. *)
Fixpoint crlf_to_lf (s : string) : string :=
  match s with
  | EmptyString => EmptyString
  | String c rest =>
      match rest with
      | String c' rest' =>
          if Ascii.eqb c cr && Ascii.eqb c' lf then String lf (crlf_to_lf rest')
          else String c (crlf_to_lf rest)
      | EmptyString => String c EmptyString
      end
  end.

(** Every CR replaced by LF. *)
Fixpoint cr_to_lf (s : string) : string :=
  match s with
  | EmptyString => EmptyString
  | String c rest => String (if Ascii.eqb c cr then lf else c) (cr_to_lf rest)
  end.

Definition normalize (s : string) : string := cr_to_lf (crlf_to_lf (strip_nul s)).

(** ** Commits of a file *)

(** The tree of [c] contains the file at [path]. *)
Definition touches (path : string) (c : Commit) : Prop := is_Some (C_Tree c !! path).

#[global] Instance touches_dec path c : Decision (touches path c).
Proof. unfold touches. apply _. Defined.

(** Commit times do not decrease along the chain, read from the root. *)
Definition chain_in_time (newest_first : list Commit) : Prop :=
  StronglySorted (λ a b, C_When b ≤ C_When a) newest_first.

(** The repository has a HEAD. *)
Definition has_head (userSub : string) (w : World) : Prop :=
  ∃ r, repos w !! userSub = Some r ∧ commits r ≠ [].

Definition gitkeep : gmap string string := {[ ".gitkeep" := "" ]}.

(** The repository that a first access leaves behind. *)
Definition initial_repository (t : Z) : Repository :=
  mkRepository
    [mkCommit 1%nat "Initial commit" "LifeLogger System" "system@lifelogger.life" t gitkeep]
    gitkeep gitkeep.



(** Once the repositories are [m], they stay [m]. *)
Definition repos_stay (m : gmap string Repository) : relation World :=
  λ w w', repos w = m → repos w' = m.

(** ** Text without NUL and CR *)

(** [s] holds neither a NUL nor a CR. *)
Definition plain (s : string) : Prop :=
  Contains s NUL = false ∧ Contains s CR = false.

(** ** The digits of a date *)

(** The ten digits. *)
Definition decimal_digits : list Z := [0; 1; 2; 3; 4; 5; 6; 7; 8; 9].

(** The character of a decimal digit. *)
Definition digit_char (n : Z) : ascii := ascii_of_N (Z.to_N (48 + n)).

(** [two_digits] and [four_digits] write a number in its digits: checked on
    every number of two and of four digits. *)
Definition two_digits_ok : bool :=
  forallb (λ a, forallb (λ b,
    String.eqb (two_digits (10 * a + b))
               (String (digit_char a) (String (digit_char b) EmptyString)))
    decimal_digits) decimal_digits.

Definition four_digits_ok : bool :=
  forallb (λ a, forallb (λ b, forallb (λ c, forallb (λ d,
    String.eqb (four_digits (1000 * a + 100 * b + 10 * c + d))
               (String (digit_char a) (String (digit_char b)
                  (String (digit_char c) (String (digit_char d) EmptyString)))))
    decimal_digits) decimal_digits) decimal_digits) decimal_digits.

(** ** Rows and objects *)

(** The tables of the database are the same in both worlds. *)
Definition same_tables (w w' : World) : Prop :=
  journals w' = journals w ∧ journal_entries w' = journal_entries w
  ∧ journal_versions w' = journal_versions w.

(** The key that [DeleteJournal] computes for an entry. *)
Definition blob_key (userSub id : string) (e : JournalEntry) : string :=
  s3.GenerateKey userSub id (formatDate (E_EntryDate e)).

(** What [UpdateJournal] makes of a row of [journals]. *)
Definition retitled (id userSub title : string) (description : option string) (t : Z)
    (j : Journal) : Journal :=
  if store.journal_matches id userSub j
  then mkJournal (J_ID j) (J_UserSub j) title description (J_CreatedAt j) t
  else j.

(** What the UPDATE of [UpdateJournalEntry] makes of a row. *)
Definition rewritten (entry : JournalEntry) (t : Z) (e : JournalEntry) : JournalEntry :=
  if String.eqb (E_ID e) (E_ID entry)
  then mkJournalEntry (E_ID e) (E_JournalID e) (E_EntryDate e) (E_S3Key entry)
         (E_GitCommitHash entry) (E_WordCount entry) (E_CreatedAt e) t
  else e.

(** ** Refusals *)

(** The text of the error says that something was not found. *)
Definition says_not_found (e : error) : Prop := Contains (Error e) "not found" = true.

(** A failed step that left the world as it was, with an error that says
    that something was not found. *)
Definition refused_unchanged {A} (run : result A * World) (w : World) : Prop :=
  ∃ e, run = (Err e, w) ∧ says_not_found e.

(** ** The history of a repository *)

(** The commits of a chain are numbered from its root. *)
Fixpoint numbered (newest_first : list Commit) : Prop :=
  match newest_first with
  | [] => True
  | c :: rest => C_Hash c = List.length newest_first ∧ numbered rest
  end.

(** Every chain of the world is numbered. *)
Definition chains_numbered (w : World) : Prop :=
  ∀ u r, repos w !! u = Some r → numbered (commits r).

(** Every chain of [w] is still there in [w'], below the commits that were
    added to it. *)
Definition history_grows (w w' : World) : Prop :=
  ∀ u r, repos w !! u = Some r →
         ∃ r', repos w' !! u = Some r' ∧ commits r `suffix_of` commits r'.

(** The chains grow, and stay numbered if they were. *)
Definition grows (w w' : World) : Prop :=
  history_grows w w' ∧ (chains_numbered w → chains_numbered w').

(** ** The routes *)

(** A request to one of the handlers, with what the handler reads of it
    apart from the user. *)
Inductive Route : Type :=
  | POST_journals (body : option handlers.CreateJournalRequest)
  | GET_journal (id : string)
  | GET_journals
  | PUT_journal (id : string) (body : option handlers.UpdateJournalRequest)
  | DELETE_journal (id : string)
  | POST_entries (journalID : string) (body : option handlers.CreateEntryRequest)
  | GET_entry (journalID date : string)
  | GET_entries (journalID : string)
  | PUT_entry (journalID date : string) (body : option string)
  | DELETE_entry (journalID date : string)
  | GET_versions (journalID date : string)
  | GET_version (journalID date : string) (commit : option plumbing_Hash).

(** The status that the handler of a route answers with, and the world that
    it leaves. *)
Definition answer (userSub : string) (route : Route) (env : Env) (w : World) : Z * World :=
  let of_reply (run : handlers.Reply * World) := (handlers.code run.1, run.2) in
  let of_response (run : handlers.Response * World) := (handlers.status run.1, run.2) in
  match route with
  | POST_journals body => of_reply (handlers.CreateJournal userSub body env w)
  | GET_journal id => of_reply (handlers.GetJournal userSub id env w)
  | GET_journals => of_reply (handlers.ListJournals userSub env w)
  | PUT_journal id body => of_reply (handlers.UpdateJournal userSub id body env w)
  | DELETE_journal id => of_reply (handlers.DeleteJournal userSub id env w)
  | POST_entries j body =>
      of_response (handlers.CreateEntry (handlers.mkRequest userSub j "" body) env w)
  | GET_entry j d => of_reply (handlers.GetEntry userSub j d env w)
  | GET_entries j => of_reply (handlers.ListEntries userSub j env w)
  | PUT_entry j d body =>
      of_response (handlers.UpdateEntry (handlers.mkRequest userSub j d body) env w)
  | DELETE_entry j d => of_reply (handlers.DeleteEntry userSub j d env w)
  | GET_versions j d => of_reply (handlers.ListVersions userSub j d env w)
  | GET_version j d commit => of_reply (handlers.GetVersion userSub j d commit env w)
  end.

(** The statuses of a request that has a user. *)
Definition statuses : list Z := [200; 201; 204; 400; 404; 409; 500].

(** The request of a route lacks what its handler requires of the body: the
    body is not decoded, or a required field of it is empty. *)
Definition lacking (route : Route) : Prop :=
  match route with
  | POST_journals None | PUT_journal _ None | POST_entries _ None | PUT_entry _ _ None =>
      True
  | POST_journals (Some req) => handlers.Title req = ""
  | POST_entries _ (Some req) => handlers.EntryDate req = "" ∨ handlers.Content req = ""
  | PUT_entry _ _ (Some content) => content = ""
  | _ => False
  end.

(** ** The settings *)

(** The first of the candidates that is not empty. *)
Definition first_set (candidates : list string) : string :=
  hd "" (filter (λ s, s ≠ "") candidates).

(** The settings that are strings: the variable of each and its field. *)
Definition string_settings : list (string * (config.Config → string)) :=
  [ ("LL_JOURNAL_HOST", config.Host);
    ("LL_JOURNAL_DATABASE_URL", config.DatabaseURL);
    ("LL_JOURNAL_S3_ENDPOINT", config.S3Endpoint);
    ("LL_JOURNAL_S3_BUCKET", config.S3Bucket);
    ("LL_JOURNAL_S3_ACCESS_KEY", config.S3AccessKey);
    ("LL_JOURNAL_S3_SECRET_KEY", config.S3SecretKey);
    ("LL_JOURNAL_GIT_ROOT", config.GitRoot);
    ("LL_JOURNAL_LOG_LEVEL", config.LogLevel) ].

(** The mode is production. *)
Definition production (env : config.Environ) : bool :=
  String.eqb (first_set [config.Getenv env "ENV"; config.Getenv env "APP_ENV";
                         "development"]) "production".

(** The value of a variable as the process has it, or else, outside
    production, as a readable [.env] gives it. *)
Definition seen (env : config.Environ) (files : config.Files) (var : string) : string :=
  match env !! var with
  | Some v => v
  | None =>
      if production env then ""
      else match config.dotenv files with
           | Some (Ok vars) => default "" (vars !! var)
           | _ => ""
           end
  end.

(** What a readable [config.json] gives for a field. *)
Definition from_json {A} (files : config.Files) (field : config.Config → A) (none : A) : A :=
  match config.config_json files with
  | Some (Some jsonConfig) => field jsonConfig
  | _ => none
  end.

(** The environment that the two passes read. *)
Definition effective (env : config.Environ) (files : config.Files) : config.Environ :=
  if production env then env
  else match config.dotenv files with
       | Some (Ok vars) => config.godotenv_Load env vars
       | _ => env
       end.

(** One step of a pass over the settings. *)
Definition unless (b : bool) (f : config.Config → config.Config) (c : config.Config)
  : config.Config := if b then c else f c.

(** The same, for a step that is taken when [b] holds. *)
Definition when (b : bool) (f : config.Config → config.Config) (c : config.Config)
  : config.Config := if b then f c else c.

(** The step of [loadFromEnv] for a port variable that is not empty. *)
Definition set_port_of (portStr : string) (c : config.Config) : config.Config :=
  match config.ParseUint portStr with
  | Some port => config.set_Port port c
  | None => c
  end.

(** The number that a string of decimal digits spells, the digits read so
    far being worth [acc]. *)
Fixpoint spelled_from (acc : Z) (s : string) : option Z :=
  match s with
  | EmptyString => Some acc
  | String a rest =>
      match digit a with
      | Some d => spelled_from (acc * 10 + d) rest
      | None => None
      end
  end.

(** The number that a string spells: none for the empty string and for a
    string with a character that is no digit. *)
Definition spelled (s : string) : option Z :=
  if String.eqb s "" then None else spelled_from 0 s.

(** ** The statements of a migration *)

(** The lines that [splitSQL] keeps: trimmed, and neither blank nor a
    comment. *)
Definition kept (line : string) : bool :=
  negb (String.eqb line "" || HasPrefix line "--").

(** The lines of a migration that are kept, trimmed. *)
Definition kept_lines (sql : string) : list string :=
  List.filter kept (TrimSpace <$> Split sql lf).

(** A statement ends with the line that ends in a semicolon. *)
Definition ends_statement (line : string) : bool := HasSuffix (TrimSpace line) ";".

(** The lines in groups, [cur] being the lines of the group that is open: a
    group is closed after a line that ends a statement, and at the end. *)
Fixpoint group_lines (cur lines : list string) : list (list string) :=
  match lines with
  | [] => match cur with [] => [] | _ => [cur] end
  | line :: rest =>
      if ends_statement line then (cur ++ [line]) :: group_lines [] rest
      else group_lines (cur ++ [line]) rest
  end.

(** Lines with a line feed between them. *)
Fixpoint join_lines (lines : list string) : string :=
  match lines with
  | [] => EmptyString
  | [line] => line
  | line :: rest => line +:+ LF +:+ join_lines rest
  end.

(** The string begins with a character that is no white space. *)
Definition solid_start (s : string) : Prop :=
  match s with
  | EmptyString => False
  | String c _ => isSpace c = false
  end.

(** A trimmed string that is not empty. *)
Definition trimmed (s : string) : Prop := solid_start s ∧ TrimRight s = s.

(** What [currentStmt] holds after the lines were written to it. *)
Definition buffer (lines : list string) : string :=
  fold_right (λ line rest, line +:+ LF +:+ rest) EmptyString lines.

(** What [splitSQL] returns after its loop: the statements, and what is left
    in the buffer as one more. *)
Definition flush (state : list string * string) : list string :=
  let '(statements, currentStmt) := state in
  if (0 <? String.length currentStmt)%nat then
    let stmt := TrimSpace currentStmt in
    if String.eqb stmt "" then statements else statements ++ [stmt]
  else statements.

(** A statement that [RunMigrations] executes as it is: trimmed, not empty
    and no comment. *)
Definition executable (stmt : string) : Prop :=
  TrimSpace stmt = stmt ∧ stmt ≠ "" ∧ HasPrefix stmt "--" = false.

(** ** The migrations of a directory *)

(** The entries that are migrations. *)
Definition is_migration (entry : migrations.DirEntry) : Prop :=
  negb (migrations.IsDir entry) && HasSuffix (migrations.Name entry) ".sql" = true.

#[global] Instance is_migration_dec entry : Decision (is_migration entry).
Proof. unfold is_migration. apply _. Defined.

(** The order of the names. *)
Definition by_name (a b : migrations.DirEntry) : Prop :=
  String.leb (migrations.Name a) (migrations.Name b) = true.

(** The files that a run goes through. *)
Definition migration_files (env : migrations.Env) : list migrations.DirEntry :=
  match migrations.getMigrationFiles env with
  | Ok files => files
  | Err _ => []
  end.

(** The migrations that have not run. *)
Definition pending (names : list string) (files : list migrations.DirEntry)
  : list migrations.DirEntry :=
  List.filter (λ file, negb (existsb (String.eqb (migrations.Name file)) names)) files.

(** What one migration does to the database when it is committed. *)
Definition applied_to (db : migrations.Database) (file : migrations.DirEntry)
  : migrations.Database :=
  migrations.mkDatabase
    (Some (default [] (migrations.schema_migrations db) ++ [migrations.Name file]))
    (migrations.executed db ++ migrations.splitSQL (migrations.Data file)).

(** The database with the table of the migrations. *)
Definition with_table (db : migrations.Database) : migrations.Database :=
  migrations.mkDatabase (Some (default [] (migrations.schema_migrations db)))
                        (migrations.executed db).

(** ** Worlds and environments of the examples *)

(** A journal of alice, and nothing else. *)
Definition alice_world : World :=
  (journal.CreateJournal "alice" "Diary" "" (no_faults 100) empty_world).2.

(** The disk fills up when the initial commit is written. *)
Definition initial_commit_fails : Env :=
  mkEnv (λ s, match s with InitCommit => Some "no space left on device" | _ => None end)
        200.

(** The write that keeps failing in the example of a failed commit. *)
Definition commit_fails : Env :=
  mkEnv (λ s, match s with CommitSite => Some "input/output error" | _ => None end) 200.


(** A text with a CR LF pair, a NUL and a lone CR. *)
Definition raw_text : string :=
  "Version 1" +:+ CR +:+ LF +:+ "second" +:+ NUL +:+ " line" +:+ CR.

Definition normalized_text : string :=
  "Version 1" +:+ LF +:+ "second line" +:+ LF.

(** alice writes on the first of December, then on the second. *)
Definition first_create : result JournalEntry * World :=
  journal.CreateEntry "alice" "journal-100" "2025-12-01" raw_text (no_faults 200)
                      alice_world.

Definition first_entry : JournalEntry :=
  mkJournalEntry "journal-200" "journal-100" (mkDate 2025 12 1)
                 "alice/journal-100/2025-12-01.md" (Some 2%nat) (Some 4) 200 200.

Definition one_entry_world : World := first_create.2.

Definition two_entries_world : World :=
  (journal.CreateEntry "alice" "journal-100" "2025-12-02" "B" (no_faults 300)
                       one_entry_world).2.

Definition two_entries_repo : Repository :=
  default git.empty_repository (repos two_entries_world !! "alice").

(** The repository of alice after her first entry. *)
Definition one_entry_repo : Repository :=
  default git.empty_repository (repos one_entry_world !! "alice").

(** The commit that the first entry made. *)
Definition first_commit : Commit :=
  mkCommit 2%nat "Entry for 2025-12-01" "LifeLogger System" "system@lifelogger.life" 200
           (<[ "journal-100/2025-12-01.md" := normalized_text ]> gitkeep).

(** The row of her journal. *)
Definition alice_journal : Journal := mkJournal "journal-100" "alice" "Diary" None 100 100.

(** The entry of the first of December after an update. *)
Definition updated_entry : JournalEntry :=
  mkJournalEntry "journal-200" "journal-100" (mkDate 2025 12 1)
                 "alice/journal-100/2025-12-01.md" (Some 3%nat) (Some 2) 200 200.

(** A version row for a commit that the table does not have yet. *)
Definition other_version : JournalVersion :=
  mkJournalVersion "" "journal-200" 7%nat None None None 500.

(** A port variable that spells no number. *)
Definition port_environment : config.Environ := {[ "LL_JOURNAL_PORT" := "http" ]}.

(** No [.env], and a [config.json] that sets the port. *)
Definition port_files : config.Files :=
  config.mkFiles None (Some (Some (config.set_Port 9100 config.Default))).

(** A migration of two statements, with a comment and a blank line. *)
Definition create_journals : string :=
  "-- journals" +:+ LF +:+ "CREATE TABLE journals (" +:+ LF +:+ "  id TEXT" +:+ LF
  +:+ ");" +:+ LF +:+ LF +:+ "CREATE INDEX idx ON journals (id);" +:+ LF.

(** A directory with two migrations, a text and a directory. *)
Definition migrations_directory : migrations.Env :=
  migrations.mkEnv "migrations"
    [ migrations.mkDirEntry "002_entries.sql" false "CREATE TABLE journal_entries ();";
      migrations.mkDirEntry "README.md" false "notes";
      migrations.mkDirEntry "001_journals.sql" false create_journals;
      migrations.mkDirEntry "old.sql" true "" ]
    (λ _, None).

(** A database that has no table yet. *)
Definition no_database : migrations.Database := migrations.mkDatabase None [].

(** The second migration fails at its statement. *)
Definition second_fails : migrations.Env :=
  migrations.mkEnv "/srv/migrations" (migrations.listing migrations_directory)
    (λ s, match s with
          | migrations.Exec "002_entries.sql" _ => Some "syntax error"
          | _ => None
          end).

(** * Proofs *)

(** ** Relations between worlds *)

#[global] Instance keeps_preorder {B} (f : World → B) : PreOrder (keeps f).
Proof.
  split.
  - intros w. reflexivity.
  - intros w1 w2 w3 H12 H23. unfold keeps in *. congruence.
Qed.

#[global] Instance emitting_preorder (P : Event → Prop) : PreOrder (emitting P).
Proof.
  split.
  - intros w. exists []. split; [by rewrite app_nil_r | constructor].
  - intros w1 w2 w3 (evs1 & H1 & F1) (evs2 & H2 & F2).
    exists (evs1 ++ evs2). split.
    + rewrite H2, H1. by rewrite app_assoc.
    + by apply Forall_app.
Qed.

#[global] Instance quiet_preorder : PreOrder quiet.
Proof. unfold quiet. apply _. Qed.

#[global] Instance repos_stay_preorder m : PreOrder (repos_stay m).
Proof.
  split.
  - intros w H. exact H.
  - intros w1 w2 w3 H12 H23 H. by apply H23, H12.
Qed.



(** ** Taking a run apart *)

Lemma bind_Ok {A B} (m : M A) (k : A → M B) env w b w' :
  bind m k env w = (Ok b, w') →
  ∃ a w1, m env w = (Ok a, w1) ∧ k a env w1 = (Ok b, w').
Proof.
  unfold bind. destruct (m env w) as [[a|e] w1]; [eauto | discriminate].
Qed.


Lemma wrap_Ok {A} msg (m : M A) env w a w' :
  wrap msg m env w = (Ok a, w') → m env w = (Ok a, w').
Proof. unfold wrap. by destruct (m env w) as [[a0|e] w1]. Qed.

Lemma try_Ok {A} (m : M A) env w r w' :
  try m env w = (Ok r, w') → m env w = (r, w').
Proof. unfold try. destruct (m env w) as [r0 w1]. by intros [= -> ->]. Qed.

Lemma traced_Ok {A} c (m : M A) env w a w' :
  traced c m env w = (Ok a, w') →
  ∃ w1, m env w = (Ok a, w1) ∧ w' = add_event c true w1.
Proof.
  unfold traced. destruct (m env w) as [[a0|e] w1]; [ | discriminate].
  intros [= -> <-]. eauto.
Qed.

Lemma fallible_Ok site env w u w' :
  fallible site env w = (Ok u, w') → faults env site = None ∧ w' = w.
Proof. unfold fallible. destruct (faults env site); [discriminate | ]. by intros [= _ ->]. Qed.

Lemma fallible_run site env w :
  faults env site = None → fallible site env w = (Ok tt, w).
Proof. unfold fallible. by intros ->. Qed.

(** Takes a hypothesis that a computation returned [Ok] apart, down to the
    calls that the lemmas above do not know. *)
Ltac inv_Ok :=
  repeat match goal with
    | H : bind _ _ _ _ = (Ok _, _) |- _ =>
        let H1 := fresh "Hrun" in
        apply bind_Ok in H as (? & ? & H1 & H); cbv beta in H
    | H : wrap _ _ _ _ = (Ok _, _) |- _ => apply wrap_Ok in H
    | H : try _ _ _ = (Ok _, _) |- _ => apply try_Ok in H
    | H : traced _ _ _ _ = (Ok _, _) |- _ =>
        let H1 := fresh "Hrun" in
        apply traced_Ok in H as (? & H1 & H); subst
    | H : fallible _ _ _ = (Ok _, _) |- _ =>
        let H1 := fresh "Hnofault" in
        apply fallible_Ok in H as [H1 H]; subst
    | H : ret _ _ _ = (_, _) |- _ => unfold ret in H; injection H as H; subst
    | H : raise _ _ _ = (Ok _, _) |- _ => discriminate H
    | H : get _ _ = (_, _) |- _ => unfold get in H; injection H as H; subst
    | H : clock _ _ = (_, _) |- _ => unfold clock in H; injection H as H; subst
    | H : put _ _ _ = (_, _) |- _ => unfold put in H; injection H as H; subst
    | H : modify _ _ _ = (_, _) |- _ => unfold modify in H; injection H as H; subst
    | H : (match ?x with _ => _ end) _ _ = (Ok _, _) |- _ =>
        let E := fresh "Hcase" in destruct x eqn:E
    | H : (if ?x then _ else _) _ _ = (Ok _, _) |- _ =>
        let E := fresh "Hcase" in destruct x eqn:E
    end.

(** ** What every run of a computation does to the world *)

Section Respects.
Context (R : relation World) `{!PreOrder R}.

Lemma respects_ret {A} (a : A) : respects R (ret a).
Proof. intros env w. reflexivity. Qed.

Lemma respects_raise {A} (e : error) : respects R (@raise A e).
Proof. intros env w. reflexivity. Qed.

Lemma respects_get : respects R get.
Proof. intros env w. reflexivity. Qed.

Lemma respects_clock : respects R clock.
Proof. intros env w. reflexivity. Qed.

Lemma respects_fallible site : respects R (fallible site).
Proof. intros env w. unfold fallible. destruct (faults env site); reflexivity. Qed.

Lemma respects_modify f : (∀ w, R w (f w)) → respects R (modify f).
Proof. intros Hf env w. apply Hf. Qed.

Lemma respects_bind {A B} (m : M A) (k : A → M B) :
  respects R m → (∀ a, respects R (k a)) → respects R (bind m k).
Proof.
  intros Hm Hk env w. unfold bind.
  specialize (Hm env w). destruct (m env w) as [[a|e] w1]; simpl in *.
  - etransitivity; [exact Hm | apply Hk].
  - exact Hm.
Qed.

(** After [get] the continuation may depend on the world it was given. *)
Lemma respects_get_bind {B} (k : World → M B) :
  (∀ env w, R w (k w env w).2) → respects R (bind get k).
Proof. intros Hk env w. apply Hk. Qed.

Lemma respects_try {A} (m : M A) : respects R m → respects R (try m).
Proof.
  intros Hm env w. unfold try. specialize (Hm env w).
  by destruct (m env w) as [r w1].
Qed.

Lemma respects_wrap {A} msg (m : M A) : respects R m → respects R (wrap msg m).
Proof.
  intros Hm env w. unfold wrap. specialize (Hm env w).
  by destruct (m env w) as [[a|e] w1].
Qed.

Lemma respects_traced {A} c (m : M A) :
  (∀ ok w, R w (add_event c ok w)) → respects R m → respects R (traced c m).
Proof.
  intros Hc Hm env w. unfold traced. specialize (Hm env w).
  destruct (m env w) as [r w1]; simpl in *.
  etransitivity; [exact Hm | apply Hc].
Qed.

End Respects.

Section ErrPost.
Context (R : relation World) `{!PreOrder R}.

Lemma err_post_respects {A} (m : M A) : respects R m → err_post R m.
Proof. intros Hm env w e w' H. specialize (Hm env w). by rewrite H in Hm. Qed.





End ErrPost.

Section ReadsHistory.











End ReadsHistory.

(** ** Walking through the code *)

Arguments git.filePath : simpl never.
Arguments s3.GenerateKey : simpl never.

(** Walks through a computation, leaving what is specific to the relation:
    the world updates and the traced calls. *)
Ltac unfold_calls :=
  unfold s3.Upload, s3.Download, s3.Delete,
    git.CommitFile, git.GetFileContent, git.GetLatestCommitHash,
    git.GetOrInitRepo, git.PlainOpen_, git.PlainInit_, git.WriteFile_, git.Add_,
    git.IsClean_, git.Head_, git.Commit_, git.CommitObject_, git.Read_,
    git.repository, git.set_repository,
    store.GetJournal, store.CreateJournal, store.DeleteJournal,
    store.GetJournalEntry, store.GetJournalEntryByDate, store.ListJournalEntries,
    store.CreateJournalEntry, store.UpdateJournalEntry, store.DeleteJournalEntry,
    store.CreateJournalVersion, store.generateUUID.

Ltac respects_step leaf :=
  lazymatch goal with
  | |- respects ?R (ret _) => apply (respects_ret R)
  | |- respects ?R (raise _) => apply (respects_raise R)
  | |- respects ?R get => apply (respects_get R)
  | |- respects ?R clock => apply (respects_clock R)
  | |- respects ?R (fallible _) => apply (respects_fallible R)
  | |- respects ?R (try _) => apply (respects_try R)
  | |- respects ?R (wrap _ _) => apply (respects_wrap R)
  | |- respects ?R (traced _ _) => apply (respects_traced R); [ intros ? ?; leaf | ]
  | |- respects ?R (modify _) => apply (respects_modify R); intros ?; leaf
  | |- respects ?R (bind get _) =>
      apply (respects_get_bind R); intros ? ?;
      repeat case_match; simpl; first [ reflexivity | leaf ]
  | |- respects ?R (bind _ _) => apply (respects_bind R); [ | intros ? ]
  | |- respects _ (match _ with _ => _ end) => case_match
  | |- respects _ (let _ := _ in _) => cbv zeta
  | |- ∀ _, _ => intros
  | |- respects _ _ => progress unfold_calls
  end.

Ltac respects_walk leaf := repeat respects_step leaf.

Ltac keeps_leaf := solve [ reflexivity | unfold keeps; simpl; congruence ].



Ltac frame := intros; unfold_calls; respects_walk keeps_leaf.

(** Uses [respects R m] at the run [m env w = (r, w')] that is in the context. *)
Ltac after Hrun lemma K :=
  lazymatch type of Hrun with
  | ?m ?env ?w = _ =>
      pose proof (lemma env w) as K; rewrite Hrun in K;
      unfold keeps in K; simpl in K
  end.



(** ** Lists and strings *)

Lemma find_snoc_fresh {A} (f : A → bool) (l : list A) (x : A) :
  existsb f l = false → f x = true → find f (l ++ [x]) = Some x.
Proof.
  induction l as [|a l IH]; simpl.
  - by intros _ ->.
  - destruct (f a); [discriminate | exact IH].
Qed.



Lemma find_Some_existsb_eq {A} (f g : A → bool) (l : list A) x :
  find f l = Some x → g x = true → existsb g l = true.
Proof.
  intros Hfind Hg. apply find_some in Hfind as [Hin _].
  apply existsb_exists. eauto.
Qed.

Lemma StronglySorted_reverse {A} (R : relation A) (l : list A) :
  StronglySorted R l → StronglySorted (flip R) (reverse l).
Proof.
  induction 1 as [|x l Hl IH Hx]; [constructor | ].
  rewrite reverse_cons. apply StronglySorted_app_2; [ | exact IH | by repeat constructor ].
  intros x1 x2 Hx1 Hx2. apply list_elem_of_singleton in Hx2 as ->.
  rewrite elem_of_reverse in Hx1. rewrite list.Forall_forall in Hx. unfold flip. by apply Hx.
Qed.

Lemma StronglySorted_filter {A} (R : relation A) (P : A → Prop)
    `{∀ x, Decision (P x)} (l : list A) :
  StronglySorted R l → StronglySorted R (filter P l).
Proof.
  induction 1 as [|x l Hl IH Hx]; [constructor | ].
  rewrite filter_cons. destruct (decide (P x)); [ | done].
  constructor; [done | ].
  rewrite list.Forall_forall in *. intros y Hy.
  apply list_elem_of_filter in Hy as [_ Hy]. by apply Hx.
Qed.

Lemma prefix_cons c s1 a s2 :
  String.prefix (String c s1) (String a s2) = Ascii.eqb c a && String.prefix s1 s2.
Proof.
  change (String.prefix (String c s1) (String a s2))
    with (if ascii_dec c a then String.prefix s1 s2 else false).
  destruct (ascii_dec c a) as [->|Hne].
  - by rewrite Ascii.eqb_refl.
  - by apply Ascii.eqb_neq in Hne as ->.
Qed.

Lemma prefix_nil s : String.prefix EmptyString s = true.
Proof. by destruct s. Qed.

Lemma prefix_single c a rest :
  String.prefix (String c EmptyString) (String a rest) = Ascii.eqb c a.
Proof. rewrite prefix_cons, prefix_nil. apply andb_true_r. Qed.

Lemma replace_single (old new_ : ascii) s :
  replace_from (String old EmptyString) (String new_ EmptyString) 0 s =
  match s with
  | EmptyString => EmptyString
  | String a rest =>
      String (if Ascii.eqb old a then new_ else a)
             (replace_from (String old EmptyString) (String new_ EmptyString) 0 rest)
  end.
Proof.
  destruct s as [|a rest]; [done | ].
  cbn [replace_from]. rewrite prefix_single. by destruct (Ascii.eqb old a).
Qed.

Lemma ReplaceAll_NUL s : ReplaceAll s NUL "" = strip_nul s.
Proof.
  unfold ReplaceAll. induction s as [|a rest IH]; [done | ].
  cbn [replace_from strip_nul]. unfold NUL at 1. rewrite prefix_single.
  rewrite (Ascii.eqb_sym a). fold nul.
  destruct (Ascii.eqb nul a).
  - exact IH.
  - by rewrite IH.
Qed.

Lemma ReplaceAll_CR s : ReplaceAll s CR LF = cr_to_lf s.
Proof.
  unfold ReplaceAll, CR, LF. induction s as [|a rest IH]; [done | ].
  rewrite replace_single. cbn [cr_to_lf]. rewrite IH.
  by rewrite (Ascii.eqb_sym a).
Qed.

Lemma prefix_CRLF a rest :
  String.prefix (CR +:+ LF) (String a rest) =
  match rest with
  | String c' _ => Ascii.eqb a cr && Ascii.eqb c' lf
  | EmptyString => false
  end.
Proof.
  change (CR +:+ LF) with (String cr (String lf EmptyString)).
  rewrite prefix_cons, (Ascii.eqb_sym cr).
  destruct rest as [|c' rest'].
  - by destruct (Ascii.eqb a cr).
  - by rewrite prefix_single, (Ascii.eqb_sym lf).
Qed.

Lemma ReplaceAll_CRLF s : ReplaceAll s (CR +:+ LF) LF = crlf_to_lf s.
Proof.
  unfold ReplaceAll.
  assert (∀ n s, (String.length s ≤ n)%nat →
                 replace_from (CR +:+ LF) LF 0 s = crlf_to_lf s) as Hlen.
  { clear s. induction n as [|n IH]; intros s Hs.
    - destruct s; [done | simpl in Hs; lia].
    - destruct s as [|a rest]; [done | ].
      cbn [replace_from]. rewrite prefix_CRLF.
      destruct rest as [|c' rest'].
      + done.
      + cbn [crlf_to_lf]. destruct (Ascii.eqb a cr && Ascii.eqb c' lf).
        * change (Nat.pred (String.length (CR +:+ LF))) with 1%nat.
          cbn [replace_from]. simpl in Hs.
          rewrite IH by lia. done.
        * simpl in Hs. rewrite IH by (simpl; lia). done. }
  by apply (Hlen (String.length s)).
Qed.

(** The code's three passes are the specification's normalisation. *)
Lemma sanitizeMarkdown_normalize s : journal.sanitizeMarkdown s = normalize s.
Proof.
  unfold journal.sanitizeMarkdown, normalize.
  by rewrite ReplaceAll_NUL, ReplaceAll_CRLF, ReplaceAll_CR.
Qed.


(** ** The bucket *)

Lemma Upload_Ok key content env w x w' :
  s3.Upload key content env w = (Ok x, w') →
  w' = add_event (S3Upload key) true (set_bucket (<[key := content]> (bucket w)) w).
Proof. unfold s3.Upload. intros H. inv_Ok. done. Qed.

Lemma Upload_keeps_repos key content : respects (keeps repos) (s3.Upload key content).
Proof. frame. Qed.

Lemma Download_run key env w content :
  faults env GetObject = None → bucket w !! key = Some content →
  s3.Download key env w = (Ok content, w).
Proof.
  intros Hf Hb. unfold s3.Download, bind, get, ret.
  rewrite (fallible_run _ _ _ Hf). by rewrite Hb.
Qed.

Lemma Delete_run key env w :
  s3.Delete key env w =
  match faults env (DeleteObject key) with
  | Some msg => (Err (Fault msg), add_event (S3Delete key) false w)
  | None => (Ok tt, add_event (S3Delete key) true
                      (set_bucket (delete key (bucket w)) w))
  end.
Proof.
  unfold s3.Delete, traced, bind, fallible, modify.
  by destruct (faults env (DeleteObject key)).
Qed.


(** ** The store *)

Lemma GetJournal_Ok id u env w jr w' :
  store.GetJournal id u env w = (Ok jr, w') →
  w' = w ∧ find (store.journal_matches id u) (journals w) = Some jr.
Proof. unfold store.GetJournal. intros H. inv_Ok. done. Qed.

Lemma GetJournal_run id u env w jr :
  faults env SelectJournal = None →
  find (store.journal_matches id u) (journals w) = Some jr →
  store.GetJournal id u env w = (Ok jr, w).
Proof.
  intros Hf Hj. unfold store.GetJournal, bind, get, ret.
  rewrite (fallible_run _ _ _ Hf). by rewrite Hj.
Qed.

Lemma GetJournal_world id u env w : (store.GetJournal id u env w).2 = w.
Proof.
  unfold store.GetJournal, bind, fallible, get, ret, raise.
  destruct (faults env SelectJournal); [done | ]. by destruct (find _ _).
Qed.

Lemma GetJournalEntryByDate_Ok j date env w e w' :
  store.GetJournalEntryByDate j date env w = (Ok e, w') →
  w' = w ∧ find (store.entry_at j date) (journal_entries w) = Some e.
Proof. unfold store.GetJournalEntryByDate. intros H. inv_Ok. done. Qed.

Lemma GetJournalEntryByDate_run j date env w :
  faults env SelectEntryByDate = None →
  store.GetJournalEntryByDate j date env w =
    (match find (store.entry_at j date) (journal_entries w) with
     | Some e => Ok e
     | None => Err ErrNoRows
     end, w).
Proof.
  intros Hf. unfold store.GetJournalEntryByDate, bind, get, ret, raise.
  rewrite (fallible_run _ _ _ Hf). by destruct (find _ _).
Qed.

(** A read leaves the world as it is, whatever it returns. *)
Lemma GetJournalEntryByDate_world j date env w :
  (store.GetJournalEntryByDate j date env w).2 = w.
Proof.
  unfold store.GetJournalEntryByDate, bind, fallible, get, ret, raise.
  destruct (faults env SelectEntryByDate); [done | ]. by destruct (find _ _).
Qed.

Lemma entry_at_refl e : store.entry_at (E_JournalID e) (E_EntryDate e) e = true.
Proof.
  unfold store.entry_at. rewrite String.eqb_refl. simpl.
  by apply bool_decide_eq_true.
Qed.

Lemma CreateJournalEntry_Ok entry env w e w' :
  E_ID entry = "" →
  store.CreateJournalEntry entry env w = (Ok e, w') →
  e = mkJournalEntry ("journal-" +:+ pretty (now env)) (E_JournalID entry)
        (E_EntryDate entry) (E_S3Key entry) (E_GitCommitHash entry)
        (E_WordCount entry) (now env) (now env) ∧
  existsb (store.entry_at (E_JournalID entry) (E_EntryDate entry))
          (journal_entries w) = false ∧
  existsb (λ x, String.eqb (E_ID x) (E_ID e)) (journal_entries w) = false ∧
  w' = add_event (DbCreateJournalEntry (E_JournalID entry) (E_EntryDate entry)) true
         (set_journal_entries (journal_entries w ++ [e]) w).
Proof.
  intros Hid. unfold store.CreateJournalEntry, store.generateUUID.
  rewrite Hid. simpl String.eqb. cbv iota. intros H. inv_Ok.
  unfold store.GetJournalEntry in H. inv_Ok. simpl in *.
  match goal with
  | H : find _ (_ ++ [?row]) = Some _, F : existsb _ _ = false |- _ =>
      rewrite (find_snoc_fresh _ _ row F) in H;
      [ injection H as <- | simpl; apply String.eqb_refl ]
  end.
  done.
Qed.


Lemma CreateJournalVersion_keeps_bucket v :
  respects (keeps bucket) (store.CreateJournalVersion v).
Proof. frame. Qed.

Lemma CreateJournalVersion_keeps_repos v :
  respects (keeps repos) (store.CreateJournalVersion v).
Proof. frame. Qed.

Lemma CreateJournalVersion_keeps_journals v :
  respects (keeps journals) (store.CreateJournalVersion v).
Proof. frame. Qed.

Lemma CreateJournalVersion_keeps_journal_entries v :
  respects (keeps journal_entries) (store.CreateJournalVersion v).
Proof. frame. Qed.


(** ** The go-git calls *)

Lemma repository_Ok u env w r w' :
  git.repository u env w = (Ok r, w') → repos w !! u = Some r ∧ w' = w.
Proof. unfold git.repository. intros H. inv_Ok. done. Qed.

Lemma repository_run u env w r :
  repos w !! u = Some r → git.repository u env w = (Ok r, w).
Proof. unfold git.repository, bind, get, ret. by intros ->. Qed.

Lemma WriteFile_Ok site u path content env w x w' :
  git.WriteFile_ site u path content env w = (Ok x, w') →
  ∃ r, repos w !! u = Some r ∧
       w' = set_repos (<[u := mkRepository (commits r) (index r)
                                  (<[path := content]> (worktree r))]> (repos w)) w.
Proof.
  unfold git.WriteFile_, git.set_repository. intros H. inv_Ok.
  apply repository_Ok in Hrun0 as [? ->]. eauto.
Qed.

Lemma Add_Ok site u path env w x w' :
  git.Add_ site u path env w = (Ok x, w') →
  ∃ r, repos w !! u = Some r ∧
       match worktree r !! path with
       | Some content =>
           w' = set_repos (<[u := mkRepository (commits r)
                                     (<[path := content]> (index r)) (worktree r)]>
                             (repos w)) w
       | None =>
           w' = set_repos (<[u := mkRepository (commits r)
                                     (delete path (index r)) (worktree r)]>
                             (repos w)) w
       end.
Proof.
  unfold git.Add_, git.set_repository. intros H. inv_Ok.
  all: apply repository_Ok in Hrun0 as [? ->]; eexists; split; [eassumption | ].
  all: by rewrite Hcase.
Qed.

Lemma IsClean_Ok u env w b w' :
  git.IsClean_ u env w = (Ok b, w') →
  w' = w ∧ ∃ r, repos w !! u = Some r ∧
                b = bool_decide (index r = git.head_tree r ∧ worktree r = index r).
Proof.
  unfold git.IsClean_. intros H. inv_Ok.
  apply repository_Ok in Hrun0 as [? ->]. eauto.
Qed.

Lemma Head_Ok u env w h w' :
  git.Head_ u env w = (Ok h, w') →
  w' = w ∧ ∃ r c rest, repos w !! u = Some r ∧ commits r = c :: rest ∧ h = C_Hash c.
Proof.
  unfold git.Head_. intros H. inv_Ok.
  apply repository_Ok in Hrun0 as [? ->]. eauto 10.
Qed.

Lemma Commit_Ok site u message env w h w' :
  git.Commit_ site u message env w = (Ok h, w') →
  ∃ r c, repos w !! u = Some r ∧
         index r ≠ git.head_tree r ∧
         C_Hash c = h ∧ C_Tree c = index r ∧ C_Message c = message ∧
         C_When c = now env ∧ h = S (List.length (commits r)) ∧
         w' = set_repos (<[u := mkRepository (c :: commits r) (index r) (worktree r)]>
                           (repos w)) w.
Proof.
  unfold git.Commit_, git.set_repository. intros H. inv_Ok.
  apply repository_Ok in Hrun0 as [? ->].
  apply bool_decide_eq_false in Hcase.
  eexists _, (mkCommit _ _ _ _ _ _).
  split; [eassumption | ]. split; [assumption | ]. simpl.
  repeat split; reflexivity.
Qed.

Lemma CommitObject_Ok u h env w c w' :
  git.CommitObject_ u h env w = (Ok c, w') →
  w' = w ∧ ∃ r, repos w !! u = Some r ∧
                find (λ c, Nat.eqb (C_Hash c) h) (commits r) = Some c.
Proof.
  unfold git.CommitObject_. intros H. inv_Ok.
  match goal with
  | H : git.repository _ _ _ = _ |- _ => apply repository_Ok in H as [Hr ->]
  end.
  eauto.
Qed.



Ltac use_WriteFile r Hr :=
  match goal with
  | H : git.WriteFile_ _ _ _ _ _ _ = (Ok _, _) |- _ =>
      apply WriteFile_Ok in H as (r & Hr & ->)
  end.

Ltac use_Add Hadd :=
  match goal with
  | H : git.Add_ _ _ _ _ _ = (Ok _, _) |- _ =>
      let r := fresh "r" in
      let Hr := fresh "Hr" in
      apply Add_Ok in H as (r & Hr & Hadd); simpl in Hr;
      rewrite lookup_insert_eq in Hr; injection Hr as <-; simpl in Hadd;
      rewrite lookup_insert_eq in Hadd; subst
  end.

(** ** Opening and initialising a repository *)

Lemma GetOrInitRepo_open u env w r :
  faults env PlainOpen = None → repos w !! u = Some r →
  git.GetOrInitRepo u env w = (Ok tt, w).
Proof.
  intros Hf Hr. unfold git.GetOrInitRepo, git.PlainOpen_, bind, try, ret.
  rewrite (fallible_run _ _ _ Hf), (repository_run _ _ _ _ Hr). done.
Qed.

Lemma GetOrInitRepo_init u env w :
  (∀ s, faults env s = None) → repos w !! u = None →
  ∃ w', git.GetOrInitRepo u env w = (Ok tt, w') ∧
        repos w' = <[u := initial_repository (now env)]> (repos w) ∧
        trace w' = trace w ++ [mkEvent (GitInit u) true] ∧
        bucket w' = bucket w ∧ journals w' = journals w ∧
        journal_entries w' = journal_entries w ∧
        journal_versions w' = journal_versions w.
Proof.
  intros Hf Hr. unfold git.GetOrInitRepo.
  unfold_calls. unfold bind, try, wrap, traced, fallible, get, ret, raise, modify, clock.
  rewrite !Hf, Hr.
  repeat first
    [ rewrite lookup_insert_eq
    | rewrite Hf
    | rewrite bool_decide_eq_false_2 by apply insert_non_empty
    | progress simpl ].
  eexists. split; [reflexivity | ]. simpl.
  rewrite !insert_insert_eq. done.
Qed.

Section GitFrame.
Context {B : Type} (f : World → B).
Hypothesis f_repos : ∀ r w, f (set_repos r w) = f w.
Hypothesis f_trace : ∀ c ok w, f (add_event c ok w) = f w.

Local Ltac leaf := solve [ reflexivity | unfold keeps; auto ].

Lemma GetOrInitRepo_keeps u : respects (keeps f) (git.GetOrInitRepo u).
Proof. unfold_calls. respects_walk leaf. Qed.

Lemma CommitFile_keeps u j d content msg :
  respects (keeps f) (git.CommitFile u j d content msg).
Proof. unfold_calls. respects_walk leaf. Qed.

Lemma GetFileContent_keeps u j d h :
  respects (keeps f) (git.GetFileContent u j d h).
Proof. unfold_calls. respects_walk leaf. Qed.

Lemma ListCommits_keeps u j d : respects (keeps f) (git.ListCommits u j d).
Proof.
  unfold git.ListCommits. unfold_calls. respects_walk leaf.
  intros env w. by destruct (git.ForEach _ _ _ _) as [found [err|]].
Qed.

End GitFrame.

(** ** Committing a file *)

Lemma CommitFile_Ok u j d content msg env w h w' :
  git.CommitFile u j d content msg env w = (Ok h, w') →
  ∃ r c rest, repos w' !! u = Some r ∧ commits r = c :: rest ∧ C_Hash c = h ∧
              C_Tree c !! git.filePath j d = Some content.
Proof.
  unfold git.CommitFile. intros H. inv_Ok.
  - (* clean: HEAD is returned *)
    use_WriteFile r1 Hr1. use_Add Hadd.
    match goal with
    | H : git.IsClean_ _ _ _ = _ |- _ =>
        apply IsClean_Ok in H as (-> & r3 & Hr3 & Hclean)
    end.
    simpl in Hr3. rewrite lookup_insert_eq in Hr3. injection Hr3 as <-.
    symmetry in Hclean. apply bool_decide_eq_true in Hclean as [Hidx _].
    match goal with
    | H : git.Head_ _ _ _ = _ |- _ =>
        apply Head_Ok in H as (-> & r4 & c & rest & Hr4 & Hc & ->)
    end.
    simpl in Hr4. rewrite lookup_insert_eq in Hr4. injection Hr4 as <-. simpl in *.
    eexists _, c, rest. rewrite lookup_insert_eq. repeat split; try done.
    unfold git.head_tree in Hidx. simpl in Hidx. rewrite Hc in Hidx.
    rewrite <- Hidx. apply lookup_insert_eq.
  - (* something is staged: a commit is made *)
    use_WriteFile r1 Hr1. use_Add Hadd.
    match goal with
    | H : git.IsClean_ _ _ _ = _ |- _ => apply IsClean_Ok in H as (-> & _)
    end.
    match goal with
    | H : git.Commit_ _ _ _ _ _ = _ |- _ =>
        apply Commit_Ok in H as (r3 & c & Hr3 & _ & Hh & Htree & _ & _ & _ & ->)
    end.
    simpl in Hr3. rewrite lookup_insert_eq in Hr3. injection Hr3 as <-. simpl in *.
    eexists _, c, _. rewrite lookup_insert_eq. repeat split; try done.
    rewrite Htree. apply lookup_insert_eq.
Qed.


(** ** Reading a file at a commit *)

Lemma GetFileContent_Ok u j d h env w content w' :
  git.GetFileContent u j d h env w = (Ok content, w') →
  has_head u w'.
Proof.
  unfold git.GetFileContent. intros H. inv_Ok.
  all: unfold git.Read_ in *; inv_Ok.
  all: repeat match goal with
         | H : git.Head_ _ _ _ = _ |- _ => apply Head_Ok in H as (-> & _)
         | H : git.CommitObject_ _ _ _ _ = _ |- _ =>
             apply CommitObject_Ok in H as (-> & r & Hr & Hfind)
         end.
  all: exists r; split; [done | ]; by destruct (commits r).
Qed.

(** ** Listing the commits of a file *)

(** The loop invariant: the two ends are done, the middle is still to be
    reversed. *)
Lemma reverse_loop_middle {A} (fuel : nat) :
  ∀ pre mid post : list A,
    (List.length mid ≤ 2 * fuel)%nat →
    git.reverse_loop fuel (List.length pre)
      (Nat.pred (List.length pre + List.length mid)) (pre ++ mid ++ post)
    = pre ++ reverse mid ++ post.
Proof.
  induction fuel as [|fuel IH]; intros pre mid post Hlen.
  - destruct mid; [done | simpl in Hlen; lia].
  - destruct mid as [|x mid]; cbn [git.reverse_loop].
    { simpl List.length. rewrite (proj2 (Nat.ltb_ge _ _)) by lia. done. }
    destruct mid as [|y mid _] using rev_ind.
    { simpl List.length. rewrite (proj2 (Nat.ltb_ge _ _)) by lia. done. }
    assert ((x :: mid ++ [y]) ++ post = x :: mid ++ y :: post) as ->
      by (simpl; by rewrite <- app_assoc).
    rewrite length_cons, length_app in *. simpl List.length in *.
    rewrite (proj2 (Nat.ltb_lt _ _)) by lia.
    rewrite (list_lookup_middle pre _ x) by done.
    replace (pre ++ x :: mid ++ y :: post)
      with ((pre ++ x :: mid) ++ y :: post) by (by rewrite <- app_assoc).
    rewrite (list_lookup_middle (pre ++ x :: mid) post y)
      by (rewrite length_app; simpl; lia).
    replace ((pre ++ x :: mid) ++ y :: post)
      with (pre ++ x :: (mid ++ y :: post)) by (by rewrite <- app_assoc).
    replace (<[List.length pre := y]> (pre ++ x :: mid ++ y :: post))
      with (pre ++ y :: mid ++ y :: post)
      by (symmetry; rewrite <- (Nat.add_0_r (List.length pre)) at 1;
          by rewrite insert_app_r).
    replace (Nat.pred (List.length pre + S (List.length mid + 1)))
      with (List.length (pre ++ y :: mid) + 0)%nat
      by (rewrite length_app; simpl; lia).
    replace (pre ++ y :: mid ++ y :: post)
      with ((pre ++ y :: mid) ++ y :: post) by (by rewrite <- app_assoc).
    rewrite insert_app_r. simpl.
    replace ((pre ++ y :: mid) ++ x :: post)
      with ((pre ++ [y]) ++ mid ++ (x :: post))
      by (by rewrite <- !app_assoc).
    replace (S (List.length pre)) with (List.length (pre ++ [y]))
      by (rewrite length_app; simpl; lia).
    replace (Nat.pred (List.length (pre ++ y :: mid) + 0))
      with (Nat.pred (List.length (pre ++ [y]) + List.length mid))
      by (rewrite !length_app; simpl; lia).
    rewrite IH by lia.
    rewrite reverse_cons, reverse_snoc. by rewrite <- !app_assoc.
Qed.

Lemma reverse_in_place_reverse {A} (l : list A) : git.reverse_in_place l = reverse l.
Proof.
  unfold git.reverse_in_place.
  pose proof (reverse_loop_middle (List.length l) [] l []) as H.
  simpl in H. rewrite !app_nil_r in H. apply H. lia.
Qed.

Lemma ForEach_found env path log acc found :
  git.ForEach env path log acc = (found, None) →
  found = acc ++ (git.info <$> filter (touches path) log).
Proof.
  revert acc. induction log as [|c log IH]; intros acc; simpl.
  - intros [= <-]. by rewrite app_nil_r.
  - destruct (faults env (TreeOf (C_Hash c))); [discriminate | ].
    rewrite filter_cons.
    destruct (C_Tree c !! path) as [blob|] eqn:Hblob; intros H.
    + rewrite decide_True by (unfold touches; rewrite Hblob; eauto).
      apply IH in H as ->. by rewrite <- app_assoc.
    + rewrite decide_False by (unfold touches; rewrite Hblob; by intros [? ?]).
      by apply IH.
Qed.

Lemma ForEach_run env path log acc :
  (∀ h, faults env (TreeOf h) = None) →
  git.ForEach env path log acc =
    (acc ++ (git.info <$> filter (touches path) log), None).
Proof.
  intros Hf. destruct (git.ForEach env path log acc) as [found err] eqn:H.
  assert (err = None) as ->.
  { revert acc H. induction log as [|c log IH]; intros acc; simpl.
    - by intros [= _ <-].
    - rewrite Hf. destruct (C_Tree c !! path); apply IH. }
  by rewrite (ForEach_found _ _ _ _ _ H).
Qed.

Lemma ListCommits_Ok u j d env w l w' :
  git.ListCommits u j d env w = (Ok l, w') →
  ∃ r, repos w' !! u = Some r ∧ commits r ≠ [] ∧
       l = git.info <$> filter (touches (git.filePath j d)) (reverse (commits r)).
Proof.
  unfold git.ListCommits. intros H. inv_Ok.
  match goal with
  | H : git.Head_ _ _ _ = _ |- _ =>
      apply Head_Ok in H as (-> & r & c & rest & Hr & Hc & _)
  end.
  match goal with
  | H : git.repository _ _ _ = _ |- _ => apply repository_Ok in H as [Hr' ->]
  end.
  rewrite Hr in Hr'. injection Hr' as <-.
  destruct (git.ForEach _ _ _ _) as [found [err|]] eqn:Hwalk; [discriminate | ].
  injection H as <- <-.
  exists r. split; [done | ]. split; [by rewrite Hc | ].
  apply ForEach_found in Hwalk as ->. simpl.
  by rewrite reverse_in_place_reverse, filter_reverse, fmap_reverse.
Qed.

Lemma ListCommits_run u j d env w r :
  (∀ s, faults env s = None) → repos w !! u = Some r → commits r ≠ [] →
  git.ListCommits u j d env w =
    (Ok (git.info <$> filter (touches (git.filePath j d)) (reverse (commits r))), w).
Proof.
  intros Hf Hr Hhead. unfold git.ListCommits, bind, wrap.
  rewrite (GetOrInitRepo_open _ _ _ _ (Hf _) Hr).
  unfold git.Head_, bind. rewrite (fallible_run _ _ _ (Hf _)), (repository_run _ _ _ _ Hr).
  destruct (commits r) as [|c rest] eqn:Hc; [done | ]. unfold ret.
  rewrite (fallible_run _ _ _ (Hf _)), (repository_run _ _ _ _ Hr).
  rewrite ForEach_run by (intros; apply Hf). simpl app.
  by rewrite reverse_in_place_reverse, Hc, filter_reverse, fmap_reverse.
Qed.

(** ** Creating and updating an entry *)

Lemma CreateEntry_Ok u j d raw env w e w1 :
  journal.CreateEntry u j d raw env w = (Ok e, w1) →
  let content := journal.sanitizeMarkdown raw in
  let key := s3.GenerateKey u j d in
  ∃ date h,
    parseDate d = Some date ∧
    is_Some (find (store.journal_matches j u) (journals w)) ∧
    e = mkJournalEntry ("journal-" +:+ pretty (now env)) j date key (Some h)
          (Some (int32 (journal.countWords content))) (now env) (now env) ∧
    existsb (store.entry_at j date) (journal_entries w) = false ∧
    existsb (λ x, String.eqb (E_ID x) (E_ID e)) (journal_entries w) = false ∧
    journals w1 = journals w ∧
    journal_entries w1 = journal_entries w ++ [e] ∧
    bucket w1 = <[key := content]> (bucket w) ∧
    ∃ r c rest, repos w1 !! u = Some r ∧ commits r = c :: rest ∧ C_Hash c = h ∧
                C_Tree c !! git.filePath j d = Some content.
Proof.
  intros H. cbv zeta. unfold journal.CreateEntry in H. inv_Ok.
  match goal with
  | H : store.GetJournal _ _ _ _ = _ |- _ => apply GetJournal_Ok in H as [-> Hj]
  end.
  match goal with
  | H : store.GetJournalEntryByDate ?j ?d ?env ?w = (_, ?w') |- _ =>
      assert (w' = w) as -> by
        (pose proof (GetJournalEntryByDate_world j d env w) as K; by rewrite H in K)
  end.
  match goal with
  | H : s3.Upload _ _ _ _ = _ |- _ => apply Upload_Ok in H as ->
  end.
  match goal with
  | H : git.CommitFile _ _ _ _ _ _ _ = _ |- _ =>
      after H (CommitFile_keeps bucket ltac:(done) ltac:(done) u j d
                 (journal.sanitizeMarkdown raw) ("Entry for " +:+ d)) Kb;
      after H (CommitFile_keeps journals ltac:(done) ltac:(done) u j d
                 (journal.sanitizeMarkdown raw) ("Entry for " +:+ d)) Kj;
      after H (CommitFile_keeps journal_entries ltac:(done) ltac:(done) u j d
                 (journal.sanitizeMarkdown raw) ("Entry for " +:+ d)) Ke;
      apply CommitFile_Ok in H as (r & c & rest & Hr & Hc & Hh & Htree)
  end.
  match goal with
  | H : store.CreateJournalEntry _ _ _ = _ |- _ =>
      apply CreateJournalEntry_Ok in H as (He & Hfresh & Hid & ->); [ | done]
  end.
  simpl in He, Hfresh, Hid.
  match goal with
  | H : store.CreateJournalVersion ?v _ _ = _ |- _ =>
      after H (CreateJournalVersion_keeps_bucket v) Vb;
      after H (CreateJournalVersion_keeps_repos v) Vr;
      after H (CreateJournalVersion_keeps_journals v) Vj;
      after H (CreateJournalVersion_keeps_journal_entries v) Ve
  end.
  eexists _, _. split; [done | ]. split; [by eexists | ].
  split; [exact He | ].
  rewrite Ke in Hfresh, Hid.
  split; [exact Hfresh | ]. split; [exact Hid | ].
  split; [by rewrite Vj, Kj | ].
  split; [by rewrite Ve, Ke | ].
  split; [by rewrite Vb, Kb | ].
  exists r, c, rest. by rewrite Vr.
Qed.

(** After a successful [CreateEntry] the row of (journal, date) is the one
    that was returned. *)
Lemma CreateEntry_row u j d raw env w e w1 :
  journal.CreateEntry u j d raw env w = (Ok e, w1) →
  ∃ date jr,
    parseDate d = Some date ∧
    find (store.journal_matches j u) (journals w1) = Some jr ∧
    find (store.entry_at j date) (journal_entries w1) = Some e ∧
    E_S3Key e = s3.GenerateKey u j d ∧
    bucket w1 !! s3.GenerateKey u j d = Some (journal.sanitizeMarkdown raw).
Proof.
  intros H. apply CreateEntry_Ok in H
    as (date & h & Hd & [jr Hj] & He & Hfresh & _ & Hjs & Hes & Hb & _).
  exists date, jr. split; [done | ]. split; [by rewrite Hjs | ].
  split.
  - rewrite Hes. apply find_snoc_fresh; [done | ].
    rewrite He. apply (entry_at_refl (mkJournalEntry _ _ _ _ _ _ _ _)).
  - split; [by rewrite He | ]. rewrite Hb. apply lookup_insert_eq.
Qed.




Lemma UpdateEntry_keeps_journals u j d raw :
  respects (keeps journals) (journal.UpdateEntry u j d raw).
Proof. unfold journal.UpdateEntry. frame. Qed.


(** ** Deleting *)

Lemma delete_blobs_keeps_repos u id es :
  respects (keeps repos) (journal.delete_blobs u id es).
Proof.
  induction es as [|e es IH]; simpl.
  - respects_walk keeps_leaf.
  - respects_walk keeps_leaf. apply IH.
Qed.

Lemma DeleteEntry_keeps_journals u j d : respects (keeps journals) (journal.DeleteEntry u j d).
Proof. unfold journal.DeleteEntry. frame. Qed.

Lemma DeleteEntry_keeps_repos u j d : respects (keeps repos) (journal.DeleteEntry u j d).
Proof. unfold journal.DeleteEntry. frame. Qed.


(** ** The versions of an entry *)




(** ** More on strings *)

Lemma Contains_single c a rest :
  Contains (String a rest) (String c EmptyString)
  = Ascii.eqb c a || Contains rest (String c EmptyString).
Proof. cbn [Contains]. by rewrite prefix_single. Qed.

Lemma Contains_single_nil c : Contains EmptyString (String c EmptyString) = false.
Proof. reflexivity. Qed.

Lemma plain_cons a rest :
  plain (String a rest) ↔ a ≠ nul ∧ a ≠ cr ∧ plain rest.
Proof.
  unfold plain, NUL, CR. rewrite !Contains_single. fold nul cr.
  rewrite !orb_false_iff, !Ascii.eqb_neq.
  split.
  - intros [[H1 H2] [H3 H4]]. repeat split; [congruence | congruence | done | done].
  - intros (H1 & H2 & H3 & H4). repeat split; [congruence | done | congruence | done].
Qed.

Lemma plain_nil : plain EmptyString.
Proof. by split. Qed.

Lemma strip_nul_plain s : Contains s NUL = false → strip_nul s = s.
Proof.
  induction s as [|a rest IH]; [done | ].
  unfold NUL. rewrite Contains_single. fold nul. intros [Ha Hrest]%orb_false_iff.
  cbn [strip_nul]. rewrite Ascii.eqb_sym, Ha. f_equal. by apply IH.
Qed.

Lemma crlf_to_lf_cons a c' rest' :
  crlf_to_lf (String a (String c' rest'))
  = if Ascii.eqb a cr && Ascii.eqb c' lf then String lf (crlf_to_lf rest')
    else String a (crlf_to_lf (String c' rest')).
Proof. reflexivity. Qed.

Lemma crlf_to_lf_plain s : Contains s CR = false → crlf_to_lf s = s.
Proof.
  induction s as [|a rest IH]; [done | ].
  unfold CR. rewrite Contains_single. fold cr. intros [Ha Hrest]%orb_false_iff.
  destruct rest as [|c' rest']; [done | ].
  rewrite crlf_to_lf_cons, Ascii.eqb_sym, Ha. simpl andb. cbv iota. f_equal.
  by apply IH.
Qed.

Lemma cr_to_lf_plain s : Contains s CR = false → cr_to_lf s = s.
Proof.
  induction s as [|a rest IH]; [done | ].
  unfold CR. rewrite Contains_single. fold cr. intros [Ha Hrest]%orb_false_iff.
  cbn [cr_to_lf]. rewrite Ascii.eqb_sym, Ha. f_equal. by apply IH.
Qed.

Lemma strip_nul_no_NUL s : Contains (strip_nul s) NUL = false.
Proof.
  induction s as [|a rest IH]; [done | ].
  cbn [strip_nul]. destruct (Ascii.eqb a nul) eqn:Ha; [exact IH | ].
  unfold NUL. rewrite Contains_single. fold nul. rewrite Ascii.eqb_sym, Ha. exact IH.
Qed.

Lemma crlf_to_lf_no_NUL s : Contains s NUL = false → Contains (crlf_to_lf s) NUL = false.
Proof.
  assert (∀ n s, (String.length s ≤ n)%nat →
                 Contains s NUL = false → Contains (crlf_to_lf s) NUL = false) as H.
  { clear s. induction n as [|n IH]; intros s Hlen.
    - destruct s; [done | simpl in Hlen; lia].
    - destruct s as [|a [|c' rest']]; [done | done | ].
      unfold NUL. rewrite !Contains_single. fold nul.
      intros [Ha [Hc Hrest]%orb_false_iff]%orb_false_iff.
      rewrite crlf_to_lf_cons. simpl in Hlen.
      destruct (Ascii.eqb a cr && Ascii.eqb c' lf) eqn:Hcrlf.
      + apply andb_true_iff in Hcrlf as [_ ->%Ascii.eqb_eq].
        rewrite Contains_single, Hc. apply IH; [lia | exact Hrest].
      + rewrite Contains_single, Ha. apply IH; [simpl; lia | ].
        unfold NUL. rewrite Contains_single. fold nul. by rewrite Hc. }
  by apply (H (String.length s)).
Qed.

Lemma cr_to_lf_no_NUL s : Contains s NUL = false → Contains (cr_to_lf s) NUL = false.
Proof.
  induction s as [|a rest IH]; [done | ].
  change NUL with (String nul EmptyString) in *.
  rewrite Contains_single. intros [Ha Hrest]%orb_false_iff.
  cbn [cr_to_lf]. rewrite Contains_single.
  rewrite (IH Hrest). destruct (Ascii.eqb a cr); [done | by rewrite Ha].
Qed.

Lemma cr_to_lf_no_CR s : Contains (cr_to_lf s) CR = false.
Proof.
  induction s as [|a rest IH]; [done | ].
  change CR with (String cr EmptyString) in *.
  cbn [cr_to_lf]. rewrite Contains_single, IH.
  destruct (Ascii.eqb a cr) eqn:Ha; [done | by rewrite Ascii.eqb_sym, Ha].
Qed.

Lemma normalize_plain s : plain (normalize s).
Proof.
  split.
  - apply cr_to_lf_no_NUL, crlf_to_lf_no_NUL, strip_nul_no_NUL.
  - apply cr_to_lf_no_CR.
Qed.

Lemma normalize_of_plain s : plain s → normalize s = s.
Proof.
  intros [Hn Hc]. unfold normalize.
  by rewrite strip_nul_plain, crlf_to_lf_plain, cr_to_lf_plain.
Qed.

Lemma strip_nul_length s : (String.length (strip_nul s) ≤ String.length s)%nat.
Proof.
  induction s as [|a rest IH]; [done | ].
  cbn [strip_nul]. destruct (Ascii.eqb a nul); simpl; lia.
Qed.

Lemma crlf_to_lf_length s : (String.length (crlf_to_lf s) ≤ String.length s)%nat.
Proof.
  assert (∀ n s, (String.length s ≤ n)%nat →
                 (String.length (crlf_to_lf s) ≤ String.length s)%nat) as H.
  { clear s. induction n as [|n IH]; intros s Hlen.
    - destruct s; [done | simpl in Hlen; lia].
    - destruct s as [|a [|c' rest']]; [done | done | ].
      rewrite crlf_to_lf_cons. simpl in Hlen.
      destruct (Ascii.eqb a cr && Ascii.eqb c' lf).
      + cbn [String.length]. specialize (IH rest' ltac:(lia)). lia.
      + cbn [String.length]. specialize (IH (String c' rest') ltac:(simpl; lia)).
        cbn [String.length] in IH. lia. }
  by apply (H (String.length s)).
Qed.

Lemma cr_to_lf_length s : String.length (cr_to_lf s) = String.length s.
Proof. induction s as [|a rest IH]; [done | ]. cbn [cr_to_lf String.length]. by rewrite IH. Qed.

(** ** Dates *)

Lemma digit_Some a n : digit a = Some n → In n decimal_digits ∧ a = digit_char n.
Proof.
  unfold digit. destruct (_ && _) eqn:Hrange; [ | discriminate].
  intros [= <-]. apply andb_true_iff in Hrange as [H1%Z.leb_le H2%Z.leb_le].
  split.
  - unfold decimal_digits. simpl. lia.
  - unfold digit_char.
    replace (48 + (Z.of_N (N_of_ascii a) - 48)) with (Z.of_N (N_of_ascii a)) by lia.
    by rewrite N2Z.id, ascii_N_embedding.
Qed.

Lemma two_digits_chars a b :
  In a decimal_digits → In b decimal_digits →
  two_digits (10 * a + b) = String (digit_char a) (String (digit_char b) EmptyString).
Proof.
  intros Ha Hb.
  assert (two_digits_ok = true) as H by (vm_compute; reflexivity).
  unfold two_digits_ok in H. rewrite forallb_forall in H.
  specialize (H a Ha). rewrite forallb_forall in H.
  by apply String.eqb_eq, H.
Qed.

Lemma four_digits_chars a b c d :
  In a decimal_digits → In b decimal_digits → In c decimal_digits → In d decimal_digits →
  four_digits (1000 * a + 100 * b + 10 * c + d)
  = String (digit_char a) (String (digit_char b)
      (String (digit_char c) (String (digit_char d) EmptyString))).
Proof.
  intros Ha Hb Hc Hd.
  assert (four_digits_ok = true) as H by (vm_compute; reflexivity).
  unfold four_digits_ok in H. rewrite forallb_forall in H.
  specialize (H a Ha). rewrite forallb_forall in H.
  specialize (H b Hb). rewrite forallb_forall in H.
  specialize (H c Hc). rewrite forallb_forall in H.
  by apply String.eqb_eq, H.
Qed.

(** What [time.Parse] accepts under the layout, [Format] writes back. *)
Lemma formatDate_parseDate s d : parseDate s = Some d → formatDate d = s.
Proof.
  unfold parseDate. intros H.
  rewrite <- (string_of_list_ascii_of_string s).
  destruct (list_ascii_of_string s)
    as [|y1 [|y2 [|y3 [|y4 [|s1 [|m1 [|m2 [|s2 [|d1 [|d2 [|]]]]]]]]]]];
    try discriminate.
  destruct (digit y1) as [a|] eqn:E1; [ | discriminate].
  destruct (digit y2) as [b|] eqn:E2; [ | discriminate].
  destruct (digit y3) as [c|] eqn:E3; [ | discriminate].
  destruct (digit y4) as [d'|] eqn:E4; [ | discriminate].
  destruct (digit m1) as [e|] eqn:E5; [ | discriminate].
  destruct (digit m2) as [f|] eqn:E6; [ | discriminate].
  destruct (digit d1) as [g|] eqn:E7; [ | discriminate].
  destruct (digit d2) as [h|] eqn:E8; [ | discriminate].
  apply digit_Some in E1 as [? ->], E2 as [? ->], E3 as [? ->], E4 as [? ->],
    E5 as [? ->], E6 as [? ->], E7 as [? ->], E8 as [? ->].
  cbv zeta in H.
  destruct (Ascii.eqb s1 "-" && Ascii.eqb s2 "-" && _ && _ && _ && _) eqn:Hok;
    [ | discriminate].
  injection H as <-.
  repeat (apply andb_true_iff in Hok as [Hok ?]).
  apply Ascii.eqb_eq in Hok as ->.
  match goal with H : Ascii.eqb s2 _ = true |- _ => apply Ascii.eqb_eq in H as -> end.
  unfold formatDate. simpl year. simpl month. simpl day.
  rewrite four_digits_chars, !two_digits_chars by done.
  reflexivity.
Qed.

(** ** Deleting a journal *)

#[global] Instance same_tables_preorder : PreOrder same_tables.
Proof.
  split.
  - by intros w.
  - intros w1 w2 w3 (H1 & H2 & H3) (K1 & K2 & K3). unfold same_tables. by rewrite K1, K2, K3.
Qed.

Ltac same_tables_leaf := solve [ reflexivity | by unfold same_tables ].

Lemma delete_blobs_same_tables u id es :
  respects same_tables (journal.delete_blobs u id es).
Proof.
  induction es as [|e es IH]; simpl.
  - respects_walk same_tables_leaf.
  - respects_walk same_tables_leaf. apply IH.
Qed.

Lemma delete_blobs_Ok u id es env w : (journal.delete_blobs u id es env w).1 = Ok tt.
Proof.
  revert w. induction es as [|e es IH]; intros w; [done | ].
  simpl. unfold bind at 1, try. destruct (s3.Delete _ env w) as [r w1]. apply IH.
Qed.

Lemma delete_blobs_bucket u id es env w k :
  bucket (journal.delete_blobs u id es env w).2 !! k =
  match faults env (DeleteObject k) with
  | None => if existsb (λ e, String.eqb (blob_key u id e) k) es then None
            else bucket w !! k
  | Some _ => bucket w !! k
  end.
Proof.
  revert w. induction es as [|e es IH]; intros w.
  - simpl. by destruct (faults env (DeleteObject k)).
  - simpl. unfold bind at 1, try. rewrite Delete_run. fold (blob_key u id e).
    destruct (String.eqb (blob_key u id e) k) eqn:Hk.
    + apply String.eqb_eq in Hk. subst k.
      destruct (faults env (DeleteObject (blob_key u id e))) as [msg|] eqn:Hf;
        cbn beta iota; rewrite IH; simpl; [done | ].
      rewrite lookup_delete_eq. by destruct (existsb _ es).
    + apply String.eqb_neq in Hk.
      destruct (faults env (DeleteObject (blob_key u id e))) as [msg|] eqn:Hf;
        cbn beta iota; rewrite IH; simpl; [done | ].
      by rewrite lookup_delete_ne.
Qed.

Lemma ListJournalEntries_run id env w :
  store.ListJournalEntries id env w =
  (match faults env SelectEntries with
   | Some msg => Err (Fault msg)
   | None => Ok (merge_sort store.later_first
                   (filter (λ e, String.eqb (E_JournalID e) id = true)
                           (journal_entries w)))
   end, w).
Proof.
  unfold store.ListJournalEntries, bind, fallible, get, ret.
  by destruct (faults env SelectEntries).
Qed.

Lemma elem_of_ListJournalEntries id w e :
  e ∈ merge_sort store.later_first
        (filter (λ e, String.eqb (E_JournalID e) id = true) (journal_entries w))
  ↔ e ∈ journal_entries w ∧ E_JournalID e = id.
Proof.
  rewrite merge_sort_Permutation, list_elem_of_filter, String.eqb_eq. tauto.
Qed.

(** [DeleteJournal], call by call. *)
Lemma DeleteJournal_run id u env w :
  journal.DeleteJournal id u env w =
  match faults env SelectEntries with
  | Some msg => (Err (Wrap "failed to list entries" (Fault msg)), w)
  | None =>
      store.DeleteJournal id u env
        (journal.delete_blobs u id
           (merge_sort store.later_first
              (filter (λ e, String.eqb (E_JournalID e) id = true) (journal_entries w)))
           env w).2
  end.
Proof.
  unfold journal.DeleteJournal, bind at 1, wrap. rewrite ListJournalEntries_run.
  destruct (faults env SelectEntries) as [msg|]; [done | ].
  unfold bind.
  pose proof (delete_blobs_Ok u id
    (merge_sort store.later_first
       (filter (λ e, String.eqb (E_JournalID e) id = true) (journal_entries w))) env w) as H.
  destruct (journal.delete_blobs _ _ _ env w) as [r w2]. simpl in H. by subst r.
Qed.

Lemma store_DeleteJournal_keeps_bucket id u : respects (keeps bucket) (store.DeleteJournal id u).
Proof. frame. Qed.

Lemma existsb_elem_of {A} (f : A → bool) (l : list A) :
  existsb f l = true ↔ ∃ x, x ∈ l ∧ f x = true.
Proof.
  rewrite existsb_exists. split; intros (x & Hx & Hf); exists x; split; try done.
  - by apply list_elem_of_In.
  - by apply list_elem_of_In.
Qed.

Lemma existsb_false_elem_of {A} (f : A → bool) (l : list A) x :
  existsb f l = false → x ∈ l → f x = false.
Proof.
  intros H Hx. destruct (f x) eqn:Hf; [ | done].
  assert (existsb f l = true) as K by (apply existsb_elem_of; eauto). congruence.
Qed.

Lemma DeleteJournal_tables id u env w :
  let run := journal.DeleteJournal id u env w in
  (same_tables w run.2
   ∧ (run.1 = Ok tt → existsb (store.journal_matches id u) (journals w) = false))
  ∨ (run.1 = Ok tt
     ∧ existsb (store.journal_matches id u) (journals w) = true
     ∧ journals run.2 = filter (λ j, store.journal_matches id u j = false) (journals w)
     ∧ journal_entries run.2
       = filter (λ e, String.eqb (E_JournalID e) id = false) (journal_entries w)
     ∧ journal_versions run.2
       = filter (λ v, existsb (λ e, String.eqb (E_JournalID e) id
                                    && String.eqb (E_ID e) (V_EntryID v))
                              (journal_entries w) = false)
                (journal_versions w)).
Proof.
  intros run. subst run. rewrite DeleteJournal_run.
  destruct (faults env SelectEntries) as [msg|]; [by left | ].
  pose proof (delete_blobs_same_tables u id
    (merge_sort store.later_first
       (filter (λ e, String.eqb (E_JournalID e) id = true) (journal_entries w))) env w)
    as (Hj & He & Hv).
  destruct (journal.delete_blobs _ _ _ env w) as [r w2]. simpl in *.
  unfold store.DeleteJournal, traced, bind, fallible, get, put, ret.
  destruct (faults env DeleteJournalRow) as [msg|]; [by left | ].
  cbn beta iota. rewrite Hj. destruct (existsb _ (journals w)) eqn:Hown; simpl.
  - right. by rewrite He, Hv.
  - by left.
Qed.

Lemma DeleteJournal_not_owned_Ok id u env w :
  faults env SelectEntries = None → faults env DeleteJournalRow = None →
  (journal.DeleteJournal id u env w).1 = Ok tt.
Proof.
  intros F1 F2. rewrite DeleteJournal_run, F1.
  unfold store.DeleteJournal, traced, bind, fallible, get, put, ret. rewrite F2.
  by destruct (existsb _ _).
Qed.

Lemma find_None_existsb {A} (f : A → bool) (l : list A) :
  find f l = None ↔ existsb f l = false.
Proof.
  induction l as [|a l IH]; simpl; [done | ]. destruct (f a); [done | exact IH].
Qed.

Lemma find_filter_negb {A} (f : A → bool) (l : list A) :
  find f (filter (λ x, f x = false) l) = None.
Proof.
  induction l as [|a l IH]; [done | ]. rewrite filter_cons.
  destruct (decide (f a = false)) as [Hf | Hf]; [ | exact IH].
  simpl. by rewrite Hf.
Qed.

(** ** Another user's journal *)

Lemma prefix_app sub a b : String.prefix sub a = true → String.prefix sub (a +:+ b) = true.
Proof.
  revert a. induction sub as [|c sub IH]; intros a.
  - intros _. apply prefix_nil.
  - destruct a as [|x a]; [discriminate | ].
    change (String x a +:+ b) with (String x (a +:+ b)).
    rewrite !prefix_cons. intros [-> H]%andb_true_iff. by rewrite IH.
Qed.

Lemma Contains_app_l a b sub : Contains a sub = true → Contains (a +:+ b) sub = true.
Proof.
  induction a as [|c a IH].
  - simpl. rewrite orb_false_r. intros H. destruct sub; [ | discriminate].
    destruct b; reflexivity.
  - change (String c a +:+ b) with (String c (a +:+ b)). cbn [Contains].
    intros [H | H]%orb_true_iff.
    + pose proof (prefix_app _ (String c a) b H) as K.
      change (String c a +:+ b) with (String c (a +:+ b)) in K. by rewrite K.
    + rewrite (IH H). apply orb_true_r.
Qed.

Lemma Wrap_says_not_found what cause :
  Contains what "not found" = true → says_not_found (Wrap what cause).
Proof. intros H. unfold says_not_found. cbn [Error]. by apply Contains_app_l. Qed.

Lemma GetJournal_not_owned j u env w :
  find (store.journal_matches j u) (journals w) = None →
  ∃ cause, store.GetJournal j u env w = (Err cause, w)
           ∧ (faults env SelectJournal = None → cause = ErrNoRows).
Proof.
  intros Hnone. unfold store.GetJournal, bind, fallible, get, raise.
  destruct (faults env SelectJournal) as [msg|].
  - by eexists.
  - rewrite Hnone. by eexists.
Qed.

Lemma not_owned_step {B} what j u (k : Journal → M B) env w :
  find (store.journal_matches j u) (journals w) = None →
  Contains what "not found" = true →
  refused_unchanged (bind (wrap what (store.GetJournal j u)) k env w) w.
Proof.
  intros Hnone Hwhat. destruct (GetJournal_not_owned j u env w Hnone) as (cause & Hrun & _).
  unfold bind, wrap. rewrite Hrun. eexists. split; [reflexivity | ].
  by apply Wrap_says_not_found.
Qed.

Lemma not_owned_after_entry {B} j u date (k : JournalEntry → Journal → M B) env w :
  find (store.journal_matches j u) (journals w) = None →
  refused_unchanged
    (bind (wrap "entry not found" (store.GetJournalEntryByDate j date))
          (λ entry, bind (wrap "journal not found" (store.GetJournal j u)) (k entry))
          env w) w.
Proof.
  intros Hnone. unfold bind at 1, wrap at 1.
  pose proof (GetJournalEntryByDate_world j date env w) as Hw.
  destruct (store.GetJournalEntryByDate j date env w) as [[entry|e] w1]; simpl in Hw; subst w1.
  - by apply (not_owned_step "journal not found" j u (k entry) env w).
  - eexists. split; [reflexivity | ]. by apply Wrap_says_not_found.
Qed.

(** A journal that is not the caller's: every operation on its entries and
    on their versions fails and leaves the world as it was, its trace
    included.  When the date is one that parses, the error says that
    something was not found. *)
Lemma not_owned_refused u j env w :
  find (store.journal_matches j u) (journals w) = None →
  (∀ d raw, ∃ e, journal.CreateEntry u j d raw env w = (Err e, w)
                 ∧ (is_Some (parseDate d) → says_not_found e))
  ∧ (∀ d, ∃ e, journal.GetEntry u j d env w = (Err e, w)
               ∧ (is_Some (parseDate d) → says_not_found e))
  ∧ (∀ d raw, ∃ e, journal.UpdateEntry u j d raw env w = (Err e, w)
                   ∧ (is_Some (parseDate d) → says_not_found e))
  ∧ (∀ d, ∃ e, journal.DeleteEntry u j d env w = (Err e, w)
               ∧ (is_Some (parseDate d) → says_not_found e))
  ∧ refused_unchanged (journal.ListEntries u j env w) w
  ∧ (∀ d, refused_unchanged (journal.ListVersions u j d env w) w)
  ∧ (∀ d h, refused_unchanged (journal.GetVersion u j d h env w) w).
Proof.
  intros Hnone.
  repeat split.
  - intros d raw. unfold journal.CreateEntry.
    destruct (parseDate d) as [date|] eqn:Hd.
    + destruct (GetJournal_not_owned j u env w Hnone) as (cause & Hget & _).
      unfold bind at 1, wrap. rewrite Hget. eexists. split; [reflexivity | ].
      intros _. by apply Wrap_says_not_found.
    + eexists. split; [reflexivity | ]. by intros [? ?].
  - intros d. unfold journal.GetEntry.
    destruct (parseDate d) as [date|] eqn:Hd.
    + destruct (not_owned_after_entry j u date
                  (λ entry _, let* content := wrap "failed to download from S3"
                                                (s3.Download (E_S3Key entry)) in
                              ret (entry, content)) env w Hnone) as (e & Hrun & Hsays).
      eauto.
    + eexists. split; [reflexivity | ]. by intros [? ?].
  - intros d raw. unfold journal.UpdateEntry.
    destruct (parseDate d) as [date|] eqn:Hd.
    + match goal with
      | |- ∃ e, bind _ (λ entry, bind _ (@?k entry)) env w = _ ∧ _ =>
          destruct (not_owned_after_entry j u date k env w Hnone) as (e & Hrun & Hsays)
      end.
      eauto.
    + eexists. split; [reflexivity | ]. by intros [? ?].
  - intros d. unfold journal.DeleteEntry.
    destruct (parseDate d) as [date|] eqn:Hd.
    + match goal with
      | |- ∃ e, bind _ (λ entry, bind _ (@?k entry)) env w = _ ∧ _ =>
          destruct (not_owned_after_entry j u date k env w Hnone) as (e & Hrun & Hsays)
      end.
      eauto.
    + eexists. split; [reflexivity | ]. by intros [? ?].
  - unfold journal.ListEntries.
    by apply (not_owned_step "journal not found" j u _ env w).
  - intros d. unfold journal.ListVersions.
    by apply (not_owned_step "journal not found" j u _ env w).
  - intros d h. unfold journal.GetVersion.
    by apply (not_owned_step "journal not found" j u _ env w).
Qed.

(** ** Listing *)

#[global] Instance later_first_transitive : Transitive store.later_first.
Proof. intros a b c. unfold store.later_first. lia. Qed.

#[global] Instance later_first_total : Total store.later_first.
Proof. intros a b. unfold store.later_first. lia. Qed.

#[global] Instance newest_first_transitive : Transitive store.newest_first.
Proof. intros a b c. unfold store.newest_first. lia. Qed.

#[global] Instance newest_first_total : Total store.newest_first.
Proof. intros a b. unfold store.newest_first. lia. Qed.

(** ** Creating and updating a journal *)

Lemma find_app_None {A} (f : A → bool) (l1 l2 : list A) :
  find f l1 = None → find f (l1 ++ l2) = find f l2.
Proof.
  induction l1 as [|a l1 IH]; [done | ]. simpl. destruct (f a); [discriminate | exact IH].
Qed.

Lemma existsb_weaken {A} (f g : A → bool) (l : list A) :
  (∀ x, g x = true → f x = true) → existsb f l = false → existsb g l = false.
Proof.
  intros Hfg. induction l as [|a l IH]; [done | ]. simpl.
  intros [Hfa Hl]%orb_false_iff. rewrite (IH Hl), orb_false_r.
  destruct (g a) eqn:Hg; [ | done]. by rewrite (Hfg a Hg) in Hfa.
Qed.

Lemma CreateJournal_run u title description env w :
  let id := "journal-" +:+ pretty (now env) in
  let row := mkJournal id u title
               (if String.eqb description "" then None else Some description)
               (now env) (now env) in
  journal.CreateJournal u title description env w =
  match faults env InsertJournal with
  | Some msg => (Err (Fault msg), add_event (DbCreateJournal id) false w)
  | None =>
      if existsb (λ j, String.eqb (J_ID j) id) (journals w)
      then (Err (ErrConstraint "journals_pkey"), add_event (DbCreateJournal id) false w)
      else store.GetJournal id u env
             (add_event (DbCreateJournal id) true
                (set_journals (journals w ++ [row]) w))
  end.
Proof.
  intros id row.
  unfold journal.CreateJournal, store.CreateJournal, store.generateUUID.
  unfold bind, traced, fallible, clock, get, put, ret, raise. simpl.
  destruct (faults env InsertJournal) as [msg|]; [done | ].
  fold id. by destruct (existsb _ _).
Qed.

Lemma UpdateJournal_run id u title description env w :
  journal.UpdateJournal id u title description env w =
  match faults env UpdateJournalRow with
  | Some msg => (Err (Fault msg), add_event (DbUpdateJournal id) false w)
  | None =>
      (Ok tt,
       add_event (DbUpdateJournal id) true
         (set_journals
            (map (retitled id u title
                    (if String.eqb description "" then None else Some description)
                    (now env))
                 (journals w)) w))
  end.
Proof.
  unfold journal.UpdateJournal, store.UpdateJournal.
  unfold bind, traced, fallible, clock, modify. simpl.
  by destruct (faults env UpdateJournalRow).
Qed.

Lemma journal_matches_retitled id u title description t j :
  store.journal_matches id u (retitled id u title description t j)
  = store.journal_matches id u j.
Proof.
  unfold retitled. destruct (store.journal_matches id u j) eqn:Hm; [ | exact Hm].
  exact Hm.
Qed.

Lemma find_map_same {A} (p : A → bool) (f : A → A) (l : list A) :
  (∀ x, p (f x) = p x) → find p (map f l) = f <$> find p l.
Proof.
  intros Hp. induction l as [|a l IH]; [done | ]. simpl. rewrite Hp.
  destruct (p a); [done | exact IH].
Qed.

(** ** The handlers *)

Lemma refuse_not_found e msg :
  says_not_found e → handlers.refuse e msg = handlers.Refused msg handlers.StatusNotFound.
Proof. unfold says_not_found, handlers.refuse. by intros ->. Qed.

(** ** The history of a repository *)

#[global] Instance grows_preorder : PreOrder grows.
Proof.
  split.
  - intros w. split; [ | done]. intros u r Hr. by exists r.
  - intros w1 w2 w3 [H12 N12] [H23 N23]. split; [ | auto].
    intros u r Hr. destruct (H12 u r Hr) as (r2 & Hr2 & S2).
    destruct (H23 u r2 Hr2) as (r3 & Hr3 & S3).
    exists r3. split; [done | by etransitivity].
Qed.

Lemma grows_same_repos w w' : repos w' = repos w → grows w w'.
Proof.
  intros Hsame. split.
  - intros u r Hr. exists r. by rewrite Hsame.
  - intros Hn u r Hr. rewrite Hsame in Hr. by eapply Hn.
Qed.

Lemma grows_set_repository u r r' w :
  repos w !! u = Some r →
  commits r `suffix_of` commits r' →
  (numbered (commits r) → numbered (commits r')) →
  grows w (set_repos (<[u := r']> (repos w)) w).
Proof.
  intros Hr Hsuffix Hnum. split.
  - intros u0 r0 Hr0. simpl. destruct (decide (u0 = u)) as [-> | Hne].
    + rewrite lookup_insert_eq. exists r'. split; [done | ]. congruence.
    + rewrite lookup_insert_ne by done. by exists r0.
  - intros Hn u0 r0. simpl. destruct (decide (u0 = u)) as [-> | Hne].
    + rewrite lookup_insert_eq. intros [= <-]. apply Hnum. by eapply Hn.
    + rewrite lookup_insert_ne by done. apply Hn.
Qed.

Lemma grows_new_repository u w :
  repos w !! u = None →
  grows w (set_repos (<[u := git.empty_repository]> (repos w)) w).
Proof.
  intros Hr. split.
  - intros u0 r0 Hr0. simpl. destruct (decide (u0 = u)) as [-> | Hne]; [congruence | ].
    rewrite lookup_insert_ne by done. by exists r0.
  - intros Hn u0 r0. simpl. destruct (decide (u0 = u)) as [-> | Hne].
    + rewrite lookup_insert_eq. by intros [= <-].
    + rewrite lookup_insert_ne by done. apply Hn.
Qed.

Lemma grows_add_event c ok w : grows w (add_event c ok w).
Proof. by apply grows_same_repos. Qed.

Ltac grows_leaf :=
  solve [ reflexivity | apply grows_same_repos; reflexivity ].

Lemma WriteFile_grows site u path content :
  respects grows (git.WriteFile_ site u path content).
Proof.
  intros env w. unfold git.WriteFile_, git.repository, git.set_repository.
  unfold bind, fallible, get, modify, ret, raise.
  destruct (faults env site); [reflexivity | ].
  destruct (repos w !! u) as [r|] eqn:Hr; [ | reflexivity].
  by apply (grows_set_repository u r).
Qed.

Lemma Add_grows site u path : respects grows (git.Add_ site u path).
Proof.
  intros env w. unfold git.Add_, git.repository, git.set_repository.
  unfold bind, fallible, get, modify, ret, raise.
  destruct (faults env site); [reflexivity | ].
  destruct (repos w !! u) as [r|] eqn:Hr; [ | reflexivity]. cbn beta iota.
  destruct (worktree r !! path), (index r !! path); try reflexivity.
  all: by apply (grows_set_repository u r).
Qed.

Lemma Commit_grows site u message : respects grows (git.Commit_ site u message).
Proof.
  intros env w. unfold git.Commit_, git.repository, git.set_repository.
  unfold bind, fallible, get, modify, ret, raise, clock.
  destruct (faults env site); [reflexivity | ].
  destruct (repos w !! u) as [r|] eqn:Hr; [ | reflexivity]. cbn beta iota.
  destruct (bool_decide _); [reflexivity | ]. cbn beta iota.
  apply (grows_set_repository u r); [done | | ].
  - by apply suffix_cons_r.
  - intros Hn. split; [done | exact Hn].
Qed.

Lemma GetOrInitRepo_grows u : respects grows (git.GetOrInitRepo u).
Proof.
  intros env w. unfold git.GetOrInitRepo, bind at 1, try, git.PlainOpen_.
  unfold bind at 1 2, fallible at 1, git.repository, bind at 1, get, ret, raise.
  destruct (faults env PlainOpen); [reflexivity | ].
  destruct (repos w !! u) as [r|] eqn:Hr; [reflexivity | ]. cbn beta iota.
  (* the repository is not there: it is created, empty, and then only grows *)
  unfold bind at 1, wrap at 1, git.PlainInit_, traced, bind at 1, fallible at 1.
  destruct (faults env PlainInit); [apply grows_add_event | ].
  unfold git.set_repository, modify. cbn beta iota.
  set (w1 := add_event _ _ _).
  assert (grows w w1) as H1.
  { etransitivity; [by apply grows_new_repository | apply grows_add_event]. }
  etransitivity; [exact H1 | ].
  assert (respects grows
            (let* _ := wrap "failed to get worktree" (fallible InitWorktree) in
             let* _ := wrap "failed to create .gitkeep"
                         (git.WriteFile_ InitWriteFile u ".gitkeep" "") in
             let* _ := wrap "failed to add .gitkeep" (git.Add_ InitAdd u ".gitkeep") in
             let* _ := wrap "failed to create initial commit"
                         (git.Commit_ InitCommit u "Initial commit") in
             ret tt)) as Hrest.
  { repeat first [ apply WriteFile_grows | apply Add_grows | apply Commit_grows
                 | lazymatch goal with
                   | |- respects _ (git.WriteFile_ _ _ _ _) => fail
                   | |- respects _ (git.Add_ _ _ _) => fail
                   | |- respects _ (git.Commit_ _ _ _) => fail
                   | |- _ => respects_step grows_leaf
                   end ]. }
  apply Hrest.
Qed.

(** Walks through a computation whose calls to go-git only let the chains
    grow. *)
Ltac grows_step :=
  first [ apply GetOrInitRepo_grows | apply WriteFile_grows | apply Add_grows
        | apply Commit_grows
        | lazymatch goal with
          | |- respects _ (git.GetOrInitRepo _) => fail
          | |- respects _ (git.WriteFile_ _ _ _ _) => fail
          | |- respects _ (git.Add_ _ _ _) => fail
          | |- respects _ (git.Commit_ _ _ _) => fail
          | |- respects _ (git.CommitFile _ _ _ _ _) => unfold git.CommitFile
          | |- respects _ (git.GetFileContent _ _ _ _) => unfold git.GetFileContent
          | |- respects _ (git.ListCommits _ _ _) => unfold git.ListCommits
          | |- respects _ (git.GetLatestCommitHash _ _ _) =>
              unfold git.GetLatestCommitHash
          | |- _ => respects_step grows_leaf
          end ].

Lemma CommitFile_grows u j d content msg :
  respects grows (git.CommitFile u j d content msg).
Proof. repeat grows_step. Qed.

Lemma GetFileContent_grows u j d h : respects grows (git.GetFileContent u j d h).
Proof. repeat grows_step. Qed.

Lemma ListCommits_grows u j d : respects grows (git.ListCommits u j d).
Proof.
  repeat grows_step.
  intros env w. by destruct (git.ForEach _ _ _ _) as [found [err|]].
Qed.

Lemma keeps_repos_grows {A} (m : M A) : respects (keeps repos) m → respects grows m.
Proof. intros Hm env w. apply grows_same_repos, Hm. Qed.

Lemma DeleteJournal_keeps_repos id u : respects (keeps repos) (journal.DeleteJournal id u).
Proof.
  unfold journal.DeleteJournal. respects_walk keeps_leaf. apply delete_blobs_keeps_repos.
Qed.

Ltac grows_walk :=
  repeat first [ apply CommitFile_grows | apply GetFileContent_grows
               | apply ListCommits_grows
               | lazymatch goal with
                 | |- respects _ (git.CommitFile _ _ _ _ _) => fail
                 | |- respects _ (git.GetFileContent _ _ _ _) => fail
                 | |- respects _ (git.ListCommits _ _ _) => fail
                 | |- _ => respects_step grows_leaf
                 end ].

Lemma CreateEntry_grows u j d raw : respects grows (journal.CreateEntry u j d raw).
Proof. unfold journal.CreateEntry. grows_walk. Qed.

Lemma UpdateEntry_grows u j d raw : respects grows (journal.UpdateEntry u j d raw).
Proof. unfold journal.UpdateEntry. grows_walk. Qed.

Lemma ListVersions_grows u j d : respects grows (journal.ListVersions u j d).
Proof. unfold journal.ListVersions. grows_walk. Qed.

Lemma GetVersion_grows u j d h : respects grows (journal.GetVersion u j d h).
Proof. unfold journal.GetVersion. grows_walk. Qed.

Lemma CreateJournal_keeps_repos u title description :
  respects (keeps repos) (journal.CreateJournal u title description).
Proof. unfold journal.CreateJournal. frame. Qed.

Lemma GetJournal_keeps_repos id u : respects (keeps repos) (journal.GetJournal id u).
Proof. unfold journal.GetJournal. frame. Qed.

Lemma ListJournals_keeps_repos u : respects (keeps repos) (journal.ListJournals u).
Proof. unfold journal.ListJournals, store.ListJournals. frame. Qed.

Lemma UpdateJournal_keeps_repos id u title description :
  respects (keeps repos) (journal.UpdateJournal id u title description).
Proof. unfold journal.UpdateJournal, store.UpdateJournal. frame. Qed.

Lemma GetEntry_keeps_repos u j d : respects (keeps repos) (journal.GetEntry u j d).
Proof. unfold journal.GetEntry. frame. Qed.

Lemma ListEntries_keeps_repos u j : respects (keeps repos) (journal.ListEntries u j).
Proof. unfold journal.ListEntries. frame. Qed.

Lemma numbered_bound cs c : numbered cs → c ∈ cs → (C_Hash c ≤ List.length cs)%nat.
Proof.
  induction cs as [|c0 cs IH]; [by intros _ ?%elem_of_nil | ].
  intros [Hc0 Hn] [-> | Hin]%elem_of_cons.
  - by rewrite Hc0.
  - specialize (IH Hn Hin). simpl. lia.
Qed.

Lemma numbered_find cs c :
  numbered cs → c ∈ cs → find (λ x, Nat.eqb (C_Hash x) (C_Hash c)) cs = Some c.
Proof.
  induction cs as [|c0 cs IH]; [by intros _ ?%elem_of_nil | ].
  intros [Hc0 Hn] Hin. simpl. destruct (Nat.eqb (C_Hash c0) (C_Hash c)) eqn:Heq.
  - apply elem_of_cons in Hin as [-> | Hin]; [done | ].
    apply Nat.eqb_eq in Heq. pose proof (numbered_bound cs c Hn Hin). simpl in Hc0. lia.
  - apply elem_of_cons in Hin as [-> | Hin]; [by rewrite Nat.eqb_refl in Heq | ].
    by apply IH.
Qed.

Lemma GetFileContent_run u j d h env w r c blob :
  faults env PlainOpen = None → faults env CommitObject = None →
  faults env FileReader = None → faults env Read = None →
  repos w !! u = Some r →
  find (λ c, Nat.eqb (C_Hash c) h) (commits r) = Some c →
  C_Tree c !! git.filePath j d = Some blob →
  blob ≠ "" →
  git.GetFileContent u j d (Some h) env w = (Ok blob, w).
Proof.
  intros F1 F2 F3 F4 Hr Hc Hblob Hne.
  unfold git.GetFileContent, bind, wrap.
  rewrite (GetOrInitRepo_open _ _ _ _ F1 Hr).
  unfold git.CommitObject_, git.Read_, bind, ret.
  rewrite (fallible_run _ _ _ F2), (repository_run _ _ _ _ Hr), Hc, Hblob.
  rewrite (fallible_run _ _ _ F3), (fallible_run _ _ _ F4).
  apply String.eqb_neq in Hne. by rewrite Hne.
Qed.

(** ** Updating an entry with other content *)

Lemma GetOrInitRepo_Ok_existing u env w r x w1 :
  repos w !! u = Some r → git.GetOrInitRepo u env w = (Ok x, w1) → w1 = w.
Proof.
  intros Hr. unfold git.GetOrInitRepo, git.PlainOpen_, bind, try, fallible, ret, raise.
  destruct (faults env PlainOpen); [discriminate | ].
  rewrite (repository_run _ _ _ _ Hr). by intros [= _ <-].
Qed.

Lemma CommitFile_changed u j d content msg env w r h w' :
  repos w !! u = Some r →
  git.head_tree r !! git.filePath j d ≠ Some content →
  git.CommitFile u j d content msg env w = (Ok h, w') →
  ∃ c, repos w' !! u
       = Some (mkRepository (c :: commits r)
                 (<[git.filePath j d := content]> (index r))
                 (<[git.filePath j d := content]> (worktree r)))
       ∧ C_Hash c = h ∧ h = S (List.length (commits r))
       ∧ C_Tree c = <[git.filePath j d := content]> (index r)
       ∧ C_Message c = (if String.eqb msg "" then "Entry for " +:+ d else msg)
       ∧ C_When c = now env.
Proof.
  intros Hr Hhead. unfold git.CommitFile. intros H. inv_Ok.
  all: match goal with
       | H : git.GetOrInitRepo _ _ _ = _ |- _ =>
           apply (GetOrInitRepo_Ok_existing _ _ _ r) in H; [subst | done]
       end.
  - (* clean: then HEAD holds the content already *)
    exfalso. use_WriteFile r1 Hr1. rewrite Hr in Hr1. injection Hr1 as <-.
    use_Add Hadd.
    match goal with
    | H : git.IsClean_ _ _ _ = _ |- _ =>
        apply IsClean_Ok in H as (-> & r3 & Hr3 & Hclean)
    end.
    simpl in Hr3. rewrite lookup_insert_eq in Hr3. injection Hr3 as <-.
    symmetry in Hclean. apply bool_decide_eq_true in Hclean as [Hidx _].
    simpl in Hidx. apply Hhead.
    change (git.head_tree (mkRepository (commits r) _ _)) with (git.head_tree r) in Hidx.
    rewrite <- Hidx. apply lookup_insert_eq.
  - use_WriteFile r1 Hr1. rewrite Hr in Hr1. injection Hr1 as <-.
    use_Add Hadd.
    match goal with
    | H : git.IsClean_ _ _ _ = _ |- _ => apply IsClean_Ok in H as (-> & _)
    end.
    match goal with
    | H : git.Commit_ _ _ _ _ _ = _ |- _ =>
        apply Commit_Ok in H as (r3 & c & Hr3 & _ & Hh & Htree & Hmsg & Hwhen & Hnum & ->)
    end.
    simpl in Hr3. rewrite lookup_insert_eq in Hr3. injection Hr3 as <-. simpl in *.
    exists c. rewrite lookup_insert_eq. done.
Qed.

Lemma CommitFile_keeps_bucket u j d content msg :
  respects (keeps bucket) (git.CommitFile u j d content msg).
Proof. by apply CommitFile_keeps. Qed.

Lemma UpdateJournalEntry_keeps_bucket e :
  respects (keeps bucket) (store.UpdateJournalEntry e).
Proof. frame. Qed.

Lemma UpdateJournalEntry_keeps_repos e :
  respects (keeps repos) (store.UpdateJournalEntry e).
Proof. frame. Qed.

(** ** Deleting an entry *)

Lemma ListJournalVersions_run id env w :
  store.ListJournalVersions id env w =
  (match faults env SelectVersions with
   | Some msg => Err (Fault msg)
   | None => Ok (merge_sort store.version_newest_first
                   (filter (λ v, String.eqb (V_EntryID v) id = true)
                           (journal_versions w)))
   end, w).
Proof.
  unfold store.ListJournalVersions, bind, fallible, get, ret.
  by destruct (faults env SelectVersions).
Qed.

Lemma filter_none {A} (P : A → Prop) `{∀ x, Decision (P x)} (l : list A) :
  (∀ x, x ∈ l → ¬ P x) → filter P l = [].
Proof.
  induction l as [|a l IH]; [done | ]. intros Hno. rewrite filter_cons.
  rewrite decide_False by (apply Hno, list_elem_of_here).
  apply IH. intros x Hx. apply Hno. by apply list_elem_of_further.
Qed.

(** ** Version rows *)

#[global] Instance version_newest_first_transitive : Transitive store.version_newest_first.
Proof. intros a b c. unfold store.version_newest_first. lia. Qed.

#[global] Instance version_newest_first_total : Total store.version_newest_first.
Proof. intros a b. unfold store.version_newest_first. lia. Qed.

Lemma CreateJournalVersion_run v env w :
  let id := if String.eqb (V_ID v) "" then "journal-" +:+ pretty (now env) else V_ID v in
  let row := mkJournalVersion id (V_EntryID v) (V_CommitHash v) (V_CommitMessage v)
               (V_AuthorName v) (V_AuthorEmail v) (V_CreatedAt v) in
  let refused e :=
    (Err e, add_event (DbCreateJournalVersion (V_EntryID v) (V_CommitHash v)) false w) in
  store.CreateJournalVersion v env w =
  match faults env InsertVersion with
  | Some msg => refused (Fault msg)
  | None =>
      if existsb (λ x, String.eqb (V_ID x) id) (journal_versions w)
      then refused (ErrConstraint "journal_versions_pkey")
      else if negb (existsb (λ e, String.eqb (E_ID e) (V_EntryID v)) (journal_entries w))
      then refused (ErrConstraint "journal_versions_entry_id_fkey")
      else if existsb (store.version_of (V_EntryID v) (V_CommitHash v))
                      (journal_versions w)
      then refused (ErrConstraint "journal_versions_entry_id_commit_hash_key")
      else (Ok row,
            add_event (DbCreateJournalVersion (V_EntryID v) (V_CommitHash v)) true
              (set_journal_versions (journal_versions w ++ [row]) w))
  end.
Proof.
  intros id row refused. subst id row refused.
  unfold store.CreateJournalVersion, store.generateUUID.
  unfold bind, traced, fallible, clock, get, put, ret, raise, store.version_of.
  destruct (String.eqb (V_ID v) ""); cbn beta iota.
  all: destruct (faults env InsertVersion); [reflexivity | ]; cbn beta iota.
  all: cbn [V_EntryID V_CommitHash].
  all: destruct (existsb _ (journal_versions w)); [reflexivity | ].
  all: destruct (existsb _ (journal_entries w)); [ | reflexivity].
  all: cbn [negb].
  all: by destruct (existsb _ (journal_versions w)).
Qed.

(** ** The configuration *)

Lemma first_set_cons s rest :
  first_set (s :: rest) = if String.eqb s "" then first_set rest else s.
Proof.
  unfold first_set. rewrite filter_cons.
  destruct (String.eqb s "") eqn:Hs.
  - apply String.eqb_eq in Hs. by rewrite decide_False by (by intros ?).
  - apply String.eqb_neq in Hs. by rewrite decide_True.
Qed.

Lemma first_set_nil : first_set [] = "".
Proof. reflexivity. Qed.

Lemma string_settings_elem var field :
  (var, field) ∈ string_settings →
  (var, field) = ("LL_JOURNAL_HOST", config.Host)
  ∨ (var, field) = ("LL_JOURNAL_DATABASE_URL", config.DatabaseURL)
  ∨ (var, field) = ("LL_JOURNAL_S3_ENDPOINT", config.S3Endpoint)
  ∨ (var, field) = ("LL_JOURNAL_S3_BUCKET", config.S3Bucket)
  ∨ (var, field) = ("LL_JOURNAL_S3_ACCESS_KEY", config.S3AccessKey)
  ∨ (var, field) = ("LL_JOURNAL_S3_SECRET_KEY", config.S3SecretKey)
  ∨ (var, field) = ("LL_JOURNAL_GIT_ROOT", config.GitRoot)
  ∨ (var, field) = ("LL_JOURNAL_LOG_LEVEL", config.LogLevel).
Proof.
  unfold string_settings. rewrite !elem_of_cons, elem_of_nil. tauto.
Qed.

Lemma loadFromEnv_steps env c :
  config.loadFromEnv env c =
  let var := config.Getenv env in
  let unset name := String.eqb (var name) "" in
  unless (unset "LL_JOURNAL_LOG_LEVEL") (config.set_LogLevel (var "LL_JOURNAL_LOG_LEVEL"))
   (unless (unset "LL_JOURNAL_GIT_ROOT") (config.set_GitRoot (var "LL_JOURNAL_GIT_ROOT"))
    (unless (unset "LL_JOURNAL_S3_SECRET_KEY")
            (config.set_S3SecretKey (var "LL_JOURNAL_S3_SECRET_KEY"))
     (unless (unset "LL_JOURNAL_S3_ACCESS_KEY")
             (config.set_S3AccessKey (var "LL_JOURNAL_S3_ACCESS_KEY"))
      (unless (unset "LL_JOURNAL_S3_BUCKET")
              (config.set_S3Bucket (var "LL_JOURNAL_S3_BUCKET"))
       (unless (unset "LL_JOURNAL_S3_ENDPOINT")
               (config.set_S3Endpoint (var "LL_JOURNAL_S3_ENDPOINT"))
        (unless (unset "LL_JOURNAL_DATABASE_URL")
                (config.set_DatabaseURL (var "LL_JOURNAL_DATABASE_URL"))
         (unless (unset "LL_JOURNAL_PORT") (set_port_of (var "LL_JOURNAL_PORT"))
          (unless (unset "LL_JOURNAL_HOST") (config.set_Host (var "LL_JOURNAL_HOST"))
                  c)))))))).
Proof. reflexivity. Qed.

Lemma mergeFromJSON_steps env j c :
  config.mergeFromJSON env j c =
  let unset name := String.eqb (config.Getenv env name) "" in
  let given (field : config.Config → string) := negb (String.eqb (field j) "") in
  when (unset "LL_JOURNAL_LOG_LEVEL" && given config.LogLevel)
       (config.set_LogLevel (config.LogLevel j))
   (when (unset "LL_JOURNAL_GIT_ROOT" && given config.GitRoot)
         (config.set_GitRoot (config.GitRoot j))
    (when (unset "LL_JOURNAL_S3_SECRET_KEY" && given config.S3SecretKey)
          (config.set_S3SecretKey (config.S3SecretKey j))
     (when (unset "LL_JOURNAL_S3_ACCESS_KEY" && given config.S3AccessKey)
           (config.set_S3AccessKey (config.S3AccessKey j))
      (when (unset "LL_JOURNAL_S3_BUCKET" && given config.S3Bucket)
            (config.set_S3Bucket (config.S3Bucket j))
       (when (unset "LL_JOURNAL_S3_ENDPOINT" && given config.S3Endpoint)
             (config.set_S3Endpoint (config.S3Endpoint j))
        (when (unset "LL_JOURNAL_DATABASE_URL" && given config.DatabaseURL)
              (config.set_DatabaseURL (config.DatabaseURL j))
         (when (unset "LL_JOURNAL_PORT" && negb (config.Port j =? 0))
               (config.set_Port (config.Port j))
          (when (unset "LL_JOURNAL_HOST" && given config.Host)
                (config.set_Host (config.Host j)) c)))))))).
Proof. reflexivity. Qed.

Lemma field_unless {A} (field : config.Config → A) b f c :
  (∀ c, field (f c) = field c) → field (unless b f c) = field c.
Proof. intros H. unfold unless. destruct b; [done | apply H]. Qed.

Lemma field_when {A} (field : config.Config → A) b f c :
  (∀ c, field (f c) = field c) → field (when b f c) = field c.
Proof. intros H. unfold when. destruct b; [apply H | done]. Qed.

Lemma own_unless {A} (field : config.Config → A) v b f c :
  (∀ c, field (f c) = v) → field (unless b f c) = if b then field c else v.
Proof. intros H. unfold unless. destruct b; [done | apply H]. Qed.

Lemma own_when {A} (field : config.Config → A) v b f c :
  (∀ c, field (f c) = v) → field (when b f c) = if b then v else field c.
Proof. intros H. unfold when. destruct b; [apply H | done]. Qed.

Lemma set_port_of_field (field : config.Config → string) s c :
  (∀ p c, field (config.set_Port p c) = field c) → field (set_port_of s c) = field c.
Proof. intros H. unfold set_port_of. destruct (config.ParseUint s); [apply H | done]. Qed.

(** Looks through the steps of a pass for the one that sets [field]. *)
Ltac find_step field :=
  repeat first
    [ rewrite (field_unless field) by first
        [ intros []; reflexivity
        | intros; apply set_port_of_field; intros ? []; reflexivity ]
    | rewrite (field_when field) by (intros []; reflexivity)
    | erewrite (own_unless field) by (intros []; cbn; reflexivity)
    | erewrite (own_when field) by (intros []; cbn; reflexivity) ].

Lemma empty_or_self s : s = if String.eqb s "" then "" else s.
Proof. destruct (String.eqb s "") eqn:H; [by apply String.eqb_eq | done]. Qed.

(** The two passes over the settings, one after the other. *)
Lemma loadFromEnv_mergeFromJSON env jsonConfig c var field :
  (var, field) ∈ string_settings →
  field (config.mergeFromJSON env jsonConfig (config.loadFromEnv env c))
  = first_set [config.Getenv env var; field jsonConfig; field c].
Proof.
  intros Hin. rewrite !first_set_cons, first_set_nil.
  apply string_settings_elem in Hin.
  rewrite mergeFromJSON_steps, loadFromEnv_steps. cbv zeta.
  destruct Hin as [[= -> ->] | [[= -> ->] | [[= -> ->] | [[= -> ->] | [[= -> ->] |
                   [[= -> ->] | [[= -> ->] | [= -> ->]]]]]]]].
  all: match goal with |- ?field _ = _ => find_step field end.
  all: destruct (String.eqb (config.Getenv env _) ""); simpl.
  all: match goal with
       | |- context [String.eqb (?field ?j) ""] =>
           destruct (String.eqb (field j) ""); simpl
       | |- _ => idtac
       end.
  all: try reflexivity.
  all: apply empty_or_self.
Qed.

Lemma loadFromEnv_field env c var field :
  (var, field) ∈ string_settings →
  field (config.loadFromEnv env c) = first_set [config.Getenv env var; field c].
Proof.
  intros Hin. rewrite !first_set_cons, first_set_nil.
  apply string_settings_elem in Hin.
  rewrite loadFromEnv_steps. cbv zeta.
  destruct Hin as [[= -> ->] | [[= -> ->] | [[= -> ->] | [[= -> ->] | [[= -> ->] |
                   [[= -> ->] | [[= -> ->] | [= -> ->]]]]]]]].
  all: match goal with |- ?field _ = _ => find_step field end.
  all: destruct (String.eqb (config.Getenv env _) ""); simpl.
  all: try reflexivity.
  all: apply empty_or_self.
Qed.

Lemma production_mode env :
  production env =
  String.eqb
    (let envMode := config.Getenv env "ENV" in
     let envMode := if String.eqb envMode "" then config.Getenv env "APP_ENV"
                    else envMode in
     if String.eqb envMode "" then "development" else envMode)
    "production".
Proof.
  unfold production. rewrite !first_set_cons, first_set_nil. cbv zeta.
  destruct (String.eqb (config.Getenv env "ENV") "") eqn:H1; [ | by rewrite H1].
  by destruct (String.eqb (config.Getenv env "APP_ENV") "").
Qed.

Lemma Getenv_effective env files var :
  config.Getenv (effective env files) var = seen env files var.
Proof.
  unfold effective, seen, config.Getenv, config.godotenv_Load.
  destruct (production env).
  - by destruct (env !! var).
  - destruct (config.dotenv files) as [[vars|e]|].
    + unfold config.Environ in *. rewrite lookup_union.
      by destruct (env !! var), (vars !! var).
    + by destruct (env !! var).
    + by destruct (env !! var).
Qed.

(** [Load], as its two passes over the effective environment. *)
Lemma Load_run env files :
  config.Load env files =
  match production env, config.dotenv files with
  | false, Some (Err cause) => Err (Wrap "failed to load .env file" cause)
  | _, _ =>
      let c := config.loadFromEnv (effective env files) config.Default in
      Ok (match config.config_json files with
          | Some (Some jsonConfig) =>
              config.mergeFromJSON (effective env files) jsonConfig c
          | _ => c
          end)
  end.
Proof.
  unfold config.Load, effective. cbv zeta. rewrite <- production_mode.
  destruct (production env); simpl.
  - by destruct (config.dotenv files) as [[vars|e]|].
  - by destruct (config.dotenv files) as [[vars|e]|].
Qed.

(** *** The port *)

Lemma port_unless s b c :
  config.Port (unless b (set_port_of s) c)
  = if b then config.Port c else default (config.Port c) (config.ParseUint s).
Proof. unfold unless, set_port_of. destruct b; [done | ]. by destruct (config.ParseUint s). Qed.

Lemma loadFromEnv_Port env c :
  config.Port (config.loadFromEnv env c)
  = let portStr := config.Getenv env "LL_JOURNAL_PORT" in
    if String.eqb portStr "" then config.Port c
    else default (config.Port c) (config.ParseUint portStr).
Proof.
  rewrite loadFromEnv_steps. cbv zeta.
  find_step config.Port. rewrite port_unless. by find_step config.Port.
Qed.

Lemma mergeFromJSON_Port env j c :
  config.Port (config.mergeFromJSON env j c)
  = if String.eqb (config.Getenv env "LL_JOURNAL_PORT") "" && negb (config.Port j =? 0)
    then config.Port j else config.Port c.
Proof.
  rewrite mergeFromJSON_steps. cbv zeta. by find_step config.Port.
Qed.

Lemma digit_range a d : digit a = Some d → 0 ≤ d ≤ 9.
Proof.
  unfold digit. destruct (_ && _) eqn:Hrange; [ | discriminate].
  intros [= <-]. apply andb_true_iff in Hrange as [H1%Z.leb_le H2%Z.leb_le]. lia.
Qed.

Lemma spelled_from_grows s : ∀ acc m, 0 ≤ acc → spelled_from acc s = Some m → acc ≤ m.
Proof.
  induction s as [|a s IH]; intros acc m Hacc; simpl.
  - intros [= <-]. lia.
  - destruct (digit a) as [d|] eqn:Hd; [ | discriminate].
    apply digit_range in Hd. intros H. apply IH in H; lia.
Qed.

Lemma maxVal_eq : config.maxVal = 65535.
Proof. reflexivity. Qed.

Lemma cutoff_eq : config.cutoff = 1844674407370955162.
Proof. reflexivity. Qed.

Lemma ParseUint_loop_spelled s : ∀ n m,
  0 ≤ n ≤ 65535 →
  config.ParseUint_loop n s = Some m ↔ spelled_from n s = Some m ∧ m ≤ 65535.
Proof.
  induction s as [|a s IH]; intros n m Hn; simpl.
  - split.
    + intros [= <-]. split; [done | lia].
    + by intros [? _].
  - destruct (digit a) as [d|] eqn:Hd.
    + pose proof (digit_range _ _ Hd) as Hd'.
      assert ((config.cutoff <=? n) = false) as ->.
      { apply Z.leb_gt. rewrite cutoff_eq. lia. }
      rewrite maxVal_eq.
      destruct (65535 <? (n * 10 + d)) eqn:Hmax.
      * apply Z.ltb_lt in Hmax. split; [discriminate | ].
        intros [H Hm]. apply spelled_from_grows in H; lia.
      * apply Z.ltb_ge in Hmax. apply IH. lia.
    + split; [discriminate | ]. by intros [? _].
Qed.

(** ** Trimming *)

Lemma append_cons c (s t : string) : String c s +:+ t = String c (s +:+ t).
Proof. reflexivity. Qed.

Lemma string_app_assoc (a b c : string) : (a +:+ b) +:+ c = a +:+ (b +:+ c).
Proof. induction a as [|x a IH]; [done | ]. by rewrite !append_cons, IH. Qed.

Lemma TrimRight_idemp s : TrimRight (TrimRight s) = TrimRight s.
Proof.
  induction s as [|c s IH]; [done | ]. simpl.
  destruct (TrimRight s) as [|k kept'] eqn:Hs.
  - destruct (isSpace c) eqn:Hc; [done | ]. simpl. by rewrite Hc.
  - simpl in *. by rewrite IH.
Qed.

Lemma TrimRight_app_blank s t : TrimRight t = "" → TrimRight (s +:+ t) = TrimRight s.
Proof.
  intros Ht. induction s as [|c s IH]; [done | ].
  rewrite append_cons. simpl. by rewrite IH.
Qed.

Lemma TrimRight_app_solid s t :
  TrimRight t ≠ "" → TrimRight (s +:+ t) = s +:+ TrimRight t.
Proof.
  intros Ht. induction s as [|c s IH]; [done | ].
  rewrite !append_cons. simpl. rewrite IH.
  destruct (s +:+ TrimRight t) eqn:Hs; [ | done].
  destruct s; [by destruct (TrimRight t) | by rewrite append_cons in Hs].
Qed.

Lemma TrimLeft_solid s : solid_start s → TrimLeft s = s.
Proof. destruct s as [|c s]; [done | ]. simpl. by intros ->. Qed.

Lemma TrimLeft_start s : TrimLeft s = "" ∨ solid_start (TrimLeft s).
Proof.
  induction s as [|c s IH]; [by left | ]. simpl.
  destruct (isSpace c) eqn:Hc; [done | ]. by right.
Qed.

Lemma TrimRight_start s : solid_start s → solid_start (TrimRight s).
Proof.
  destruct s as [|c s]; [done | ]. simpl. intros Hc.
  destruct (TrimRight s); [by rewrite Hc | done].
Qed.

Lemma TrimSpace_trimmed s : TrimSpace s ≠ "" → trimmed (TrimSpace s).
Proof.
  unfold TrimSpace. intros Hs. split; [ | apply TrimRight_idemp].
  destruct (TrimLeft_start s) as [H|H]; [by rewrite H in Hs | ].
  by apply TrimRight_start.
Qed.

Lemma trimmed_TrimSpace s : trimmed s → TrimSpace s = s ∧ s ≠ "".
Proof.
  intros [Hl Hr]. unfold TrimSpace. rewrite (TrimLeft_solid _ Hl). split; [done | ].
  by destruct s.
Qed.

Lemma solid_start_app s t : solid_start s → solid_start (s +:+ t).
Proof. by destruct s. Qed.

(** ** The buffer of [splitSQL] *)

Lemma buffer_snoc lines line : buffer lines +:+ line +:+ LF = buffer (lines ++ [line]).
Proof.
  induction lines as [|l lines IH]; [done | ].
  change (buffer (l :: lines)) with (l +:+ LF +:+ buffer lines).
  change (buffer ((l :: lines) ++ [line])) with (l +:+ LF +:+ buffer (lines ++ [line])).
  by rewrite <- IH, !string_app_assoc.
Qed.

Lemma join_lines_solid lines :
  lines ≠ [] → Forall trimmed lines → trimmed (join_lines lines).
Proof.
  induction lines as [|l lines IH]; [done | ]. intros _ Hall.
  apply Forall_cons in Hall as [[Hl Hr] Hall].
  destruct lines as [|l2 lines]; [done | ].
  destruct (IH ltac:(done) Hall) as [Hs Ht].
  change (join_lines (l :: l2 :: lines)) with (l +:+ LF +:+ join_lines (l2 :: lines)).
  split; [by apply solid_start_app | ].
  assert (TrimRight (LF +:+ join_lines (l2 :: lines)) = LF +:+ join_lines (l2 :: lines)) as Hrest.
  { change (LF +:+ ?x) with (String lf x). cbn [TrimRight]. rewrite Ht.
    destruct (join_lines (l2 :: lines)); [done | done]. }
  rewrite TrimRight_app_solid; rewrite Hrest; [done | ]. done.
Qed.

Lemma TrimSpace_buffer lines :
  lines ≠ [] → Forall trimmed lines → TrimSpace (buffer lines) = join_lines lines.
Proof.
  intros Hne Hall. unfold TrimSpace.
  assert (solid_start (buffer lines)) as Hstart.
  { destruct lines as [|l lines]; [done | ]. simpl. apply solid_start_app.
    by apply Forall_cons in Hall as [[? _] _]. }
  rewrite (TrimLeft_solid _ Hstart). clear Hstart.
  induction lines as [|l lines IH]; [done | ].
  apply Forall_cons in Hall as [[Hl Hr] Hall].
  destruct lines as [|l2 lines].
  - simpl. rewrite TrimRight_app_blank; [done | ]. reflexivity.
  - specialize (IH ltac:(done) Hall).
    change (buffer (l :: l2 :: lines)) with (l +:+ String lf (buffer (l2 :: lines))).
    change (join_lines (l :: l2 :: lines)) with (l +:+ String lf (join_lines (l2 :: lines))).
    destruct (join_lines_solid (l2 :: lines) ltac:(done) Hall) as [Hs _].
    assert (TrimRight (String lf (buffer (l2 :: lines)))
            = String lf (join_lines (l2 :: lines))) as Hrest.
    { cbn [TrimRight]. rewrite IH. by destruct (join_lines (l2 :: lines)). }
    by rewrite TrimRight_app_solid; rewrite Hrest.
Qed.

Lemma buffer_length lines :
  (0 <? String.length (buffer lines))%nat = match lines with [] => false | _ => true end.
Proof.
  destruct lines as [|l lines]; [done | ]. simpl.
  destruct l; simpl; [done | done].
Qed.

Lemma kept_trimmed line : kept (TrimSpace line) = true → trimmed (TrimSpace line).
Proof.
  unfold kept. intros H. apply negb_true_iff, orb_false_iff in H as [H _].
  apply TrimSpace_trimmed. intros Heq. by rewrite Heq in H.
Qed.

Lemma flush_buffer statements cur :
  Forall trimmed cur →
  flush (statements, buffer cur)
  = statements ++ (join_lines <$> match cur with [] => [] | _ => [cur] end).
Proof.
  intros Hall. unfold flush. rewrite buffer_length.
  destruct cur as [|l cur]; [simpl; by rewrite app_nil_r | ].
  rewrite TrimSpace_buffer by done.
  destruct (join_lines_solid (l :: cur) ltac:(done) Hall) as [Hs _].
  change (join_lines <$> [l :: cur]) with [join_lines (l :: cur)].
  destruct (join_lines (l :: cur)); [done | reflexivity].
Qed.

Lemma splitSQL_loop lines : ∀ statements cur,
  Forall trimmed cur →
  flush (fold_left migrations.splitSQL_line lines (statements, buffer cur))
  = statements
    ++ (join_lines <$> group_lines cur (List.filter kept (TrimSpace <$> lines))).
Proof.
  induction lines as [|line lines IH]; intros statements cur Hcur.
  - by apply flush_buffer.
  - cbn [fold_left fmap list_fmap List.filter].
    unfold migrations.splitSQL_line at 2. cbv zeta.
    destruct (String.eqb (TrimSpace line) "" || HasPrefix (TrimSpace line) "--") eqn:Hskip.
    + assert (kept (TrimSpace line) = false) as -> by (unfold kept; by rewrite Hskip).
      by apply IH.
    + assert (kept (TrimSpace line) = true) as Hkept by (unfold kept; by rewrite Hskip).
      rewrite Hkept. apply kept_trimmed in Hkept as Hline.
      cbn [group_lines]. unfold ends_statement at 1.
      rewrite buffer_snoc.
      destruct (HasSuffix (TrimSpace (TrimSpace line)) ";").
      * rewrite TrimSpace_buffer;
          [ | by destruct cur | by apply Forall_app; split; [ | constructor]].
        destruct (join_lines_solid (cur ++ [TrimSpace line])) as [Hs _];
          [by destruct cur | by apply Forall_app; split; [ | constructor] | ].
        replace (String.eqb (join_lines (cur ++ [TrimSpace line])) "") with false
          by (by destruct (join_lines (cur ++ [TrimSpace line]))).
        change EmptyString with (buffer []).
        rewrite IH by constructor. by rewrite <- app_assoc.
      * apply IH. by apply Forall_app; split; [ | constructor].
Qed.

Lemma splitSQL_groups sql :
  migrations.splitSQL sql = join_lines <$> group_lines [] (kept_lines sql).
Proof.
  unfold migrations.splitSQL. cbv zeta.
  pose proof (splitSQL_loop (Split sql lf) [] [] ltac:(constructor)) as H.
  unfold flush in H. simpl buffer in H. cbv zeta in H. apply H.
Qed.

(** ** The statements that [splitSQL] returns *)

Lemma group_lines_Forall (P : string → Prop) lines : ∀ cur,
  Forall P cur → Forall P lines →
  Forall (λ group, group ≠ [] ∧ Forall P group) (group_lines cur lines).
Proof.
  induction lines as [|line lines IH]; intros cur Hcur Hlines; simpl.
  - destruct cur; constructor; [done | constructor].
  - apply Forall_cons in Hlines as [Hline Hlines].
    assert (Forall P (cur ++ [line])) as Hsnoc
      by (apply Forall_app; split; [done | by constructor]).
    destruct (ends_statement line).
    + constructor; [ | by apply IH]. split; [by destruct cur | done].
    + by apply IH.
Qed.


Lemma kept_lines_Forall sql :
  Forall (λ line, trimmed line ∧ kept line = true) (kept_lines sql).
Proof.
  unfold kept_lines. apply Forall_forall. intros line Hin.
  apply list_elem_of_In, filter_In in Hin as [Hin Hkept].
  apply list_elem_of_In, list_elem_of_fmap in Hin as (raw & -> & _).
  split; [by apply kept_trimmed | done].
Qed.

Lemma join_lines_cons line lines :
  join_lines (line :: lines)
  = match lines with [] => line | _ => line +:+ LF +:+ join_lines lines end.
Proof. by destruct lines. Qed.

Lemma HasPrefix_cons a p b s :
  HasPrefix (String b s) (String a p) = if ascii_dec a b then HasPrefix s p else false.
Proof. reflexivity. Qed.

Lemma HasPrefix_empty a p : HasPrefix "" (String a p) = false.
Proof. reflexivity. Qed.

Lemma join_lines_no_comment line lines :
  HasPrefix line "--" = false → line ≠ "" →
  HasPrefix (join_lines (line :: lines)) "--" = false.
Proof.
  intros Hline Hne. rewrite join_lines_cons. destruct lines as [|l2 lines]; [done | ].
  destruct line as [|c [|c2 r]]; [done | | ].
  - rewrite append_cons, HasPrefix_cons. destruct (ascii_dec "-" c); [ | done].
    change ("" +:+ LF +:+ ?x) with (String lf x). rewrite HasPrefix_cons.
    destruct (ascii_dec "-" lf) as [Heq|]; [cbv in Heq; discriminate | done].
  - rewrite !append_cons, !HasPrefix_cons. rewrite !HasPrefix_cons in Hline.
    destruct (ascii_dec "-" c); [ | done].
    destruct (ascii_dec "-" c2); [by destruct r | done].
Qed.

Lemma splitSQL_executable sql : Forall executable (migrations.splitSQL sql).
Proof.
  rewrite splitSQL_groups. apply Forall_fmap.
  eapply Forall_impl;
    [apply (group_lines_Forall (λ line, trimmed line ∧ kept line = true));
       [constructor | apply kept_lines_Forall] | ].
  intros group [Hne Hall]. simpl.
  assert (Forall trimmed group) as Htrimmed by (eapply Forall_impl; [done | by intros ? []]).
  destruct (trimmed_TrimSpace _ (join_lines_solid group Hne Htrimmed)) as [H1 H2].
  split; [done | split; [done | ]].
  destruct group as [|line lines]; [done | ].
  apply Forall_cons in Hall as [[Hline Hkept] _].
  unfold kept in Hkept. apply negb_true_iff, orb_false_iff in Hkept as [_ Hkept].
  apply join_lines_no_comment; [done | ]. by apply trimmed_TrimSpace in Hline as [_ ?].
Qed.

(** ** Running the migrations *)

Lemma exec_statements_executable env name statements : ∀ ran,
  Forall executable statements →
  migrations.exec_statements env name statements ran
  = match migrations.exec_statements env name statements [] with
    | Ok more => Ok (ran ++ more)
    | Err err => Err err
    end
  ∧ ∀ more, migrations.exec_statements env name statements [] = Ok more → more = statements.
Proof.
  induction statements as [|stmt statements IH]; intros ran Hall.
  - simpl. rewrite app_nil_r. split; [done | by intros ? [= <-]].
  - apply Forall_cons in Hall as [(Htrim & Hne & Hcomment) Hall].
    cbn [migrations.exec_statements]. cbv zeta. rewrite Htrim, Hcomment.
    apply String.eqb_neq in Hne. rewrite Hne. cbn [orb].
    destruct (migrations.faults env (migrations.Exec name stmt)); [done | ].
    destruct (IH (ran ++ [stmt]) Hall) as [-> _].
    destruct (IH ([] ++ [stmt]) Hall) as [-> Hmore].
    destruct (migrations.exec_statements env name statements []) as [more|]; [ | done].
    split; [by rewrite <- app_assoc | ].
    intros ? [= <-]. by rewrite (Hmore more eq_refl).
Qed.

Lemma run_migration_atomic env file db r db' :
  migrations.run_migration env file db = (r, db') →
  (r = Ok tt ∧ db' = applied_to db file
   ∧ (migrations.Name file ∉ default [] (migrations.schema_migrations db)))
  ∨ ((∃ err, r = Err err) ∧ db' = db).
Proof.
  unfold migrations.run_migration. cbv zeta.
  destruct (migrations.faults env (migrations.ReadFile _)); [intros [= <- <-]; eauto | ].
  destruct (migrations.faults env (migrations.BeginTx _)); [intros [= <- <-]; eauto | ].
  destruct (exec_statements_executable env (migrations.Name file)
              (migrations.splitSQL (migrations.Data file)) []
              (splitSQL_executable _)) as [_ Hran].
  destruct (migrations.exec_statements _ _ _ _) as [ran|]; [ | intros [= <- <-]; eauto].
  rewrite (Hran ran eq_refl).
  destruct (migrations.faults env (migrations.InsertName _)); [intros [= <- <-]; eauto | ].
  destruct (migrations.schema_migrations db) as [names|] eqn:Hnames;
    [ | intros [= <- <-]; eauto].
  destruct (existsb _ names) eqn:Hdup; [intros [= <- <-]; eauto | ].
  destruct (migrations.faults env (migrations.CommitTx _)); intros [= <- <-]; [eauto | ].
  left. split; [done | ]. split; [by unfold applied_to; rewrite Hnames | ].
  simpl. intros Hin. apply not_true_iff_false in Hdup. apply Hdup.
  apply existsb_exists. exists (migrations.Name file).
  split; [by apply list_elem_of_In | apply String.eqb_refl].
Qed.

Lemma existsb_eqb_elem_of name names :
  existsb (String.eqb name) names = true ↔ name ∈ names.
Proof.
  rewrite existsb_exists. split.
  - intros (x & Hin & ->%String.eqb_eq). by apply list_elem_of_In.
  - intros Hin. exists name. split; [by apply list_elem_of_In | apply String.eqb_refl].
Qed.

Lemma pending_snoc names name files :
  name ∉ (migrations.Name <$> files) →
  pending (names ++ [name]) files = pending names files.
Proof.
  intros Hfresh. unfold pending. apply filter_ext_in. intros file Hin. f_equal.
  rewrite existsb_app. simpl. rewrite orb_false_r.
  destruct (String.eqb (migrations.Name file) name) eqn:Heq; [ | by rewrite orb_false_r].
  apply String.eqb_eq in Heq. destruct Hfresh. rewrite <- Heq.
  apply list_elem_of_fmap. exists file. split; [done | by apply list_elem_of_In].
Qed.

Lemma run_migrations_applies_pending env files : ∀ db names r db',
  NoDup (migrations.Name <$> files) →
  migrations.schema_migrations db = Some names →
  migrations.run_migrations env files db = (r, db') →
  ∃ applied,
    applied `prefix_of` pending names files
    ∧ (r = Ok tt → applied = pending names files)
    ∧ db' = fold_left applied_to applied db.
Proof.
  induction files as [|file files IH]; intros db names r db' Hnodup Hnames.
  - intros [= <- <-]. exists []. by repeat split.
  - cbn [migrations.run_migrations]. unfold migrations.isMigrationRun.
    rewrite fmap_cons in Hnodup. apply NoDup_cons in Hnodup as [Hfresh Hnodup].
    destruct (migrations.faults env (migrations.SelectExists _)).
    { intros [= <- <-]. exists []. repeat split; [apply list.prefix_nil | done]. }
    rewrite Hnames. unfold pending. cbn [List.filter]. fold (pending names files).
    destruct (existsb _ names) eqn:Hrun; cbn [negb].
    + apply (IH db names r db' Hnodup Hnames).
    + destruct (migrations.run_migration env file db) as [r1 db1] eqn:Hone.
      apply run_migration_atomic in Hone as [(-> & -> & _)|[[err ->] ->]].
      * intros Hrest.
        apply (IH _ (names ++ [migrations.Name file])) in Hrest as (applied & Hpre & Hall & ->);
          [ | done | by unfold applied_to; rewrite Hnames ].
        rewrite pending_snoc in Hpre, Hall by done.
        exists (file :: applied). split; [by apply list.prefix_cons | ].
        split; [by intros ->%Hall | done].
      * intros [= <- <-]. exists []. repeat split; [apply list.prefix_nil | done].
Qed.

(** ** The order of the migration files *)

Lemma compare_app_same p a b : String.compare (p +:+ a) (p +:+ b) = String.compare a b.
Proof.
  induction p as [|c p IH]; [done | ]. rewrite !append_cons. simpl.
  unfold Ascii.compare. by rewrite N.compare_refl.
Qed.

Lemma path_order dir a b :
  migrations.in_order dir a b
  ↔ String.leb (migrations.Name a) (migrations.Name b) = true.
Proof.
  unfold migrations.in_order, migrations.path, String.leb.
  by rewrite !compare_app_same.
Qed.

Lemma leb_cons x a y b :
  String.leb (String x a) (String y b)
  = if (N_of_ascii x <? N_of_ascii y)%N then true
    else if (N_of_ascii x =? N_of_ascii y)%N then String.leb a b else false.
Proof.
  unfold String.leb. simpl. unfold Ascii.compare.
  destruct (N.compare_spec (N_of_ascii x) (N_of_ascii y)) as [Heq|Hlt|Hgt].
  - rewrite Heq, N.ltb_irrefl, N.eqb_refl. done.
  - by rewrite (proj2 (N.ltb_lt _ _) Hlt).
  - rewrite (proj2 (N.ltb_ge _ _)) by lia. by rewrite (proj2 (N.eqb_neq _ _)) by lia.
Qed.

Lemma leb_trans a : ∀ b c,
  String.leb a b = true → String.leb b c = true → String.leb a c = true.
Proof.
  induction a as [|x a IH]; intros b c; [by destruct c | ].
  destruct b as [|y b]; [discriminate | ].
  destruct c as [|z c]; [discriminate | ].
  rewrite !leb_cons.
  destruct (N.ltb_spec (N_of_ascii x) (N_of_ascii y)),
           (N.ltb_spec (N_of_ascii y) (N_of_ascii z)),
           (N.ltb_spec (N_of_ascii x) (N_of_ascii z)),
           (N.eqb_spec (N_of_ascii x) (N_of_ascii y)),
           (N.eqb_spec (N_of_ascii y) (N_of_ascii z)),
           (N.eqb_spec (N_of_ascii x) (N_of_ascii z));
    try done; try lia.
  apply IH.
Qed.

#[global] Instance in_order_trans dir : Transitive (migrations.in_order dir).
Proof. intros a b c. unfold migrations.in_order. apply leb_trans. Qed.

#[global] Instance in_order_total dir : Total (migrations.in_order dir).
Proof. intros a b. unfold migrations.in_order. apply String.leb_total. Qed.

Lemma StronglySorted_impl {A} (R1 R2 : A → A → Prop) l :
  (∀ a b, R1 a b → R2 a b) → StronglySorted R1 l → StronglySorted R2 l.
Proof.
  intros Himpl. induction 1 as [|a l Hs IH Hall]; constructor; [done | ].
  eapply Forall_impl; [done | ]. intros b. apply Himpl.
Qed.

(** ** The whole run *)

Lemma getMigrationFiles_elem_of env files file :
  migrations.getMigrationFiles env = Ok files →
  file ∈ files ↔ file ∈ migrations.listing env ∧ is_migration file.
Proof.
  unfold migrations.getMigrationFiles.
  destruct (migrations.faults env migrations.ReadDir); [discriminate | ].
  intros [= <-]. rewrite merge_sort_Permutation, list_elem_of_filter. tauto.
Qed.

Lemma getMigrationFiles_NoDup env files :
  NoDup (migrations.Name <$> migrations.listing env) →
  migrations.getMigrationFiles env = Ok files →
  NoDup (migrations.Name <$> files).
Proof.
  intros Hnodup. unfold migrations.getMigrationFiles.
  destruct (migrations.faults env migrations.ReadDir); [discriminate | ].
  intros [= <-]. rewrite merge_sort_Permutation.
  eapply sublist_NoDup; [done | ]. apply fmap_sublist, sublist_filter.
Qed.

(** The ways in which a run ends. *)
Lemma RunMigrations_outcome env db r db' :
  NoDup (migrations.Name <$> migrations.listing env) →
  migrations.RunMigrations env db = (r, db') →
  ((∃ err, r = Err err) ∧ db' = db)
  ∨ ((∃ err, r = Err err) ∧ db' = with_table db
     ∧ ∃ err, migrations.getMigrationFiles env = Err err)
  ∨ (∃ files applied,
       migrations.getMigrationFiles env = Ok files
       ∧ applied `prefix_of` pending (default [] (migrations.schema_migrations db)) files
       ∧ (r = Ok tt → applied = pending (default [] (migrations.schema_migrations db)) files)
       ∧ db' = fold_left applied_to applied (with_table db)).
Proof.
  intros Hnodup.
  unfold migrations.RunMigrations, migrations.ensureMigrationsTable.
  destruct (migrations.faults env migrations.FindMigrationsDir);
    [intros [= <- <-]; left; eauto | ].
  destruct (migrations.faults env migrations.CreateTable);
    [intros [= <- <-]; left; eauto | ].
  fold (with_table db).
  destruct (migrations.getMigrationFiles env) as [files|err] eqn:Hfiles.
  - intros Hrun. right. right.
    apply (run_migrations_applies_pending _ _ _
             (default [] (migrations.schema_migrations db))) in Hrun
      as (applied & Hpre & Hall & ->);
      [ | by eapply getMigrationFiles_NoDup | done].
    by exists files, applied.
  - intros [= <- <-]. right. left. eauto.
Qed.

Lemma applied_to_names files : ∀ db,
  migrations.schema_migrations (fold_left applied_to files (with_table db))
  = Some (default [] (migrations.schema_migrations db) ++ (migrations.Name <$> files)).
Proof.
  induction files as [|file files IH] using rev_ind; intros db.
  - simpl. by rewrite app_nil_r.
  - rewrite fold_left_app. simpl. rewrite IH. simpl.
    by rewrite fmap_app, app_assoc.
Qed.

Lemma pending_nil names files :
  (∀ file, file ∈ files → migrations.Name file ∈ names) → pending names files = [].
Proof.
  intros Hall. unfold pending. induction files as [|file files IH]; [done | ].
  simpl. rewrite (proj2 (existsb_eqb_elem_of _ _)) by (apply Hall; left).
  simpl. apply IH. intros f Hf. apply Hall. by right.
Qed.

Lemma elem_of_pending names files file :
  file ∈ files → migrations.Name file ∈ names ∨ file ∈ pending names files.
Proof.
  intros Hin. destruct (existsb (String.eqb (migrations.Name file)) names) eqn:Hrun.
  - left. by apply existsb_eqb_elem_of.
  - right. unfold pending. apply list_elem_of_In, filter_In.
    split; [by apply list_elem_of_In | by rewrite Hrun].
Qed.

Lemma with_table_same db :
  migrations.schema_migrations db ≠ None → with_table db = db.
Proof. destruct db as [[names|] executed]; [done | by intros []]. Qed.

(** ** The statuses of the handlers *)

Lemma refuse_code err msg :
  handlers.code (handlers.refuse err msg) = 404
  ∨ handlers.code (handlers.refuse err msg) = 500.
Proof. unfold handlers.refuse. destruct (Contains _ _); [by left | by right]. Qed.

Lemma refuse_status err msg : handlers.code (handlers.refuse err msg) ∈ statuses.
Proof.
  unfold statuses. rewrite !elem_of_cons.
  destruct (refuse_code err msg) as [-> | ->]; tauto.
Qed.

Ltac status_cases :=
  repeat match goal with
         | |- context [match ?x with _ => _ end] => destruct x
         | |- context [if ?b then _ else _] => destruct b
         end;
  cbn [fst snd handlers.code handlers.status];
  first [ apply refuse_status
        | unfold statuses; rewrite !elem_of_cons; cbv; tauto ].

(** ** Reading an entry after an update *)

Lemma UpdateJournalEntry_Ok entry env w x w' :
  store.UpdateJournalEntry entry env w = (Ok x, w') →
  journal_entries w' = map (rewritten entry (now env)) (journal_entries w)
  ∧ bucket w' = bucket w ∧ journals w' = journals w.
Proof. unfold store.UpdateJournalEntry. intros H. inv_Ok. done. Qed.

Lemma entry_at_rewritten entry t j date e :
  store.entry_at j date (rewritten entry t e) = store.entry_at j date e.
Proof. unfold rewritten. by destruct (String.eqb (E_ID e) (E_ID entry)). Qed.

Lemma CommitFile_keeps_journal_entries u j d content msg :
  respects (keeps journal_entries) (git.CommitFile u j d content msg).
Proof. by apply CommitFile_keeps. Qed.

(** ** The requests that are refused *)

Lemma refuse_not_400 err msg : handlers.code (handlers.refuse err msg) ≠ 400.
Proof. by destruct (refuse_code err msg) as [-> | ->]. Qed.

Ltac served :=
  repeat match goal with
         | |- context [match ?x with _ => _ end] => destruct x
         | |- context [if ?b then _ else _] => destruct b
         end;
  cbn [fst snd handlers.code handlers.status];
  first [ apply refuse_not_400 | discriminate ].

(** ** The directory of the examples *)

Lemma migrations_directory_NoDup :
  NoDup (migrations.Name <$> migrations.listing migrations_directory).
Proof. apply (bool_decide_unpack _). vm_compute. exact I. Qed.

(** * The claims *)

(** ** C1 *)

(** C1. A successful [CreateEntry] followed by [GetEntry] for the same user,
    journal and date returns the entry that was created and, as its content,
    the normalised form of the raw content: NUL bytes removed, CR LF and CR
    replaced by LF.  [GetEntry] succeeds as soon as its three reads are
    answered. *)
Theorem CreateEntry_then_GetEntry u j d raw env1 env2 w e w1 :
  journal.CreateEntry u j d raw env1 w = (Ok e, w1) →
  faults env2 SelectEntryByDate = None →
  faults env2 SelectJournal = None →
  faults env2 GetObject = None →
  journal.GetEntry u j d env2 w1 = (Ok (e, journal.sanitizeMarkdown raw), w1)
  ∧ journal.sanitizeMarkdown raw = normalize raw.
Proof.
  intros H F1 F2 F3. split; [ | apply sanitizeMarkdown_normalize].
  apply CreateEntry_row in H as (date & jr & Hd & Hj & He & Hkey & Hb).
  unfold journal.GetEntry. rewrite Hd. unfold bind, wrap, ret.
  rewrite (GetJournalEntryByDate_run _ _ _ _ F1), He.
  rewrite (GetJournal_run _ _ _ _ jr F2 Hj).
  rewrite Hkey, (Download_run _ _ _ _ F3 Hb). done.
Qed.

Lemma CreateEntry_then_GetEntry_witness :
  first_create = (Ok first_entry, one_entry_world)
  ∧ journal.GetEntry "alice" "journal-100" "2025-12-01" (no_faults 300) one_entry_world
    = (Ok (first_entry, normalized_text), one_entry_world)
  ∧ normalized_text ≠ raw_text.
Proof.
  assert (first_create = (Ok first_entry, one_entry_world)) as H
    by (vm_compute; reflexivity).
  split; [exact H | ]. split; [ | vm_compute; discriminate].
  destruct (CreateEntry_then_GetEntry "alice" "journal-100" "2025-12-01" raw_text
              (no_faults 200) (no_faults 300) alice_world first_entry one_entry_world
              H eq_refl eq_refl eq_refl) as [Hget _].
  refine (eq_trans Hget _). vm_compute. reflexivity.
Defined.

(** ** C2 *)



(** ** C3 *)




(** ** C4 *)

(** C4. In [CreateEntry], when the commit fails after the upload succeeded
    the blob is there, the call returns the commit's error wrapped as the
    failure to commit, and the delete of the blob is the last thing that
    happened.  The error returned is the same whether the delete worked or
    not; when it worked the blob is gone.  No row was written. *)
Theorem CreateEntry_compensates_failed_commit u j d raw env w date jr w1 cause w2 :
  parseDate d = Some date →
  store.GetJournal j u env w = (Ok jr, w) →
  (∀ e, (store.GetJournalEntryByDate j date env w).1 ≠ Ok e) →
  s3.Upload (s3.GenerateKey u j d) (journal.sanitizeMarkdown raw) env w = (Ok tt, w1) →
  git.CommitFile u j d (journal.sanitizeMarkdown raw) ("Entry for " +:+ d) env w1
    = (Err cause, w2) →
  let key := s3.GenerateKey u j d in
  let w3 := (s3.Delete key env w2).2 in
  journal.CreateEntry u j d raw env w = (Err (Wrap "failed to commit to Git" cause), w3)
  ∧ bucket w2 !! key = Some (journal.sanitizeMarkdown raw)
  ∧ trace w3 = trace w2 ++
      [mkEvent (S3Delete key) (bool_decide (faults env (DeleteObject key) = None))]
  ∧ (faults env (DeleteObject key) = None → bucket w3 !! key = None)
  ∧ journals w3 = journals w
  ∧ journal_entries w3 = journal_entries w
  ∧ journal_versions w3 = journal_versions w.
Proof.
  intros Hd Hj Hnone Hup Hcommit key w3.
  after Hcommit (CommitFile_keeps bucket ltac:(done) ltac:(done) u j d
                   (journal.sanitizeMarkdown raw) ("Entry for " +:+ d)) Kb.
  after Hcommit (CommitFile_keeps journals ltac:(done) ltac:(done) u j d
                   (journal.sanitizeMarkdown raw) ("Entry for " +:+ d)) Kj.
  after Hcommit (CommitFile_keeps journal_entries ltac:(done) ltac:(done) u j d
                   (journal.sanitizeMarkdown raw) ("Entry for " +:+ d)) Ke.
  after Hcommit (CommitFile_keeps journal_versions ltac:(done) ltac:(done) u j d
                   (journal.sanitizeMarkdown raw) ("Entry for " +:+ d)) Kv.
  pose proof (Upload_Ok _ _ _ _ _ _ Hup) as Hw1. rewrite Hw1 in Kb, Kj, Ke, Kv.
  simpl in Kb, Kj, Ke, Kv.
  split; [ | split].
  - unfold journal.CreateEntry. rewrite Hd. unfold bind, wrap, try, raise.
    rewrite Hj.
    pose proof (GetJournalEntryByDate_world j date env w) as Hsame.
    destruct (store.GetJournalEntryByDate j date env w) as [[e|e] w0]; simpl in *.
    + by destruct (Hnone e).
    + subst w0. rewrite Hup, Hcommit.
      subst w3 key. by destruct (s3.Delete _ env w2).
  - rewrite Kb. apply lookup_insert_eq.
  - subst w3 key. rewrite Delete_run.
    destruct (faults env (DeleteObject _)) as [msg|]; simpl.
    + repeat split; try done.
    + repeat split; try done. intros _. apply lookup_delete_eq.
Qed.

Lemma CreateEntry_compensates_failed_commit_witness :
  let key := "alice/journal-100/2025-12-01.md" in
  let run := journal.CreateEntry "alice" "journal-100" "2025-12-01" raw_text
               commit_fails alice_world in
  run.1 = Err (Wrap "failed to commit to Git"
                 (Wrap "failed to commit" (Fault "input/output error")))
  ∧ bucket run.2 !! key = None.
Proof.
  set (w1 := (s3.Upload "alice/journal-100/2025-12-01.md"
                (journal.sanitizeMarkdown raw_text) commit_fails alice_world).2).
  set (w2 := (git.CommitFile "alice" "journal-100" "2025-12-01"
                (journal.sanitizeMarkdown raw_text) ("Entry for " +:+ "2025-12-01")
                commit_fails w1).2).
  destruct (CreateEntry_compensates_failed_commit "alice" "journal-100" "2025-12-01"
              raw_text commit_fails alice_world (mkDate 2025 12 1)
              (mkJournal "journal-100" "alice" "Diary" None 100 100) w1
              (Wrap "failed to commit" (Fault "input/output error")) w2)
    as (Hrun & _ & _ & Hgone & _).
  - reflexivity.
  - vm_compute. reflexivity.
  - intros e. vm_compute. discriminate.
  - vm_compute. reflexivity.
  - vm_compute. reflexivity.
  - intros key run. subst run. rewrite Hrun. split; [reflexivity | ].
    apply Hgone. reflexivity.
Defined.

(** ** C5 *)



(** ** C6 *)

(** C6. When [ListVersions] returns a list it is, in this order: the commits
    of the user's chain whose tree contains the entry's file, from the root
    to HEAD.  So a commit is listed exactly when it is in the chain and its
    tree contains the file, and the list ascends in commit time whenever the
    chain does.  With every call answered, the journal owned and a HEAD in
    place, the list is returned. *)
Theorem ListVersions_oldest_first u j d env w :
  (∀ l w', journal.ListVersions u j d env w = (Ok l, w') →
     ∃ r, repos w' !! u = Some r ∧
          l = git.info <$> filter (touches (git.filePath j d)) (reverse (commits r)) ∧
          (∀ ci, ci ∈ l ↔
                 ∃ c, c ∈ commits r ∧ touches (git.filePath j d) c ∧ ci = git.info c) ∧
          (chain_in_time (commits r) →
           StronglySorted (λ a b, git.CreatedAt a ≤ git.CreatedAt b) l))
  ∧ (∀ jr r, (∀ s, faults env s = None) →
             find (store.journal_matches j u) (journals w) = Some jr →
             repos w !! u = Some r → commits r ≠ [] →
             journal.ListVersions u j d env w =
               (Ok (git.info <$> filter (touches (git.filePath j d))
                                        (reverse (commits r))), w)).
Proof.
  split.
  - intros l w' H. unfold journal.ListVersions in H. inv_Ok.
    apply ListCommits_Ok in H as (r & Hr & _ & ->).
    exists r. split; [done | ]. split; [done | ]. split.
    + intros ci. rewrite list_elem_of_fmap. split.
      * intros (c & -> & Hc). apply list_elem_of_filter in Hc as [Ht Hc].
        rewrite elem_of_reverse in Hc. eauto.
      * intros (c & Hc & Ht & ->). exists c. split; [done | ].
        apply list_elem_of_filter. by rewrite elem_of_reverse.
    + intros Htime.
      apply (StronglySorted_fmap _ (λ a b, C_When a ≤ C_When b)); [done | ].
      apply StronglySorted_filter.
      apply StronglySorted_reverse in Htime. exact Htime.
  - intros jr r Hf Hj Hr Hhead. unfold journal.ListVersions, bind, wrap.
    rewrite (GetJournal_run _ _ _ _ jr (Hf _) Hj).
    by apply ListCommits_run.
Qed.

Lemma ListVersions_oldest_first_witness :
  journal.ListVersions "alice" "journal-100" "2025-12-01" (no_faults 500) two_entries_world
  = (Ok [git.mkCommitInfo 2%nat "Entry for 2025-12-01" "LifeLogger System"
           "system@lifelogger.life" 200;
         git.mkCommitInfo 3%nat "Entry for 2025-12-02" "LifeLogger System"
           "system@lifelogger.life" 300],
     two_entries_world).
Proof.
  refine (eq_trans
            (proj2 (ListVersions_oldest_first "alice" "journal-100" "2025-12-01"
                      (no_faults 500) two_entries_world)
               (mkJournal "journal-100" "alice" "Diary" None 100 100)
               two_entries_repo (λ _, eq_refl) _ _ _) _).
  - vm_compute. reflexivity.
  - vm_compute. reflexivity.
  - vm_compute. discriminate.
  - vm_compute. reflexivity.
Defined.

(** ** C7 *)

(** C7. A request to create or to update an entry whose content is empty
    leaves the world as it is, trace included, and is answered with status
    400 (401 when the request names no user). *)
Theorem empty_content_is_rejected_before_any_write env w :
  (∀ (r : handlers.Request handlers.CreateEntryRequest) req,
     handlers.body r = Some req → handlers.Content req = "" →
     (handlers.CreateEntry r env w).2 = w ∧
     (handlers.userSub r ≠ "" →
      handlers.status (handlers.CreateEntry r env w).1 = handlers.StatusBadRequest))
  ∧ (∀ r : handlers.Request string,
       handlers.body r = Some "" →
       (handlers.UpdateEntry r env w).2 = w ∧
       (handlers.userSub r ≠ "" →
        handlers.status (handlers.UpdateEntry r env w).1 = handlers.StatusBadRequest)).
Proof.
  split.
  - intros r req Hbody Hempty. unfold handlers.CreateEntry.
    rewrite Hbody, Hempty. simpl String.eqb at 3.
    destruct (String.eqb (handlers.userSub r) "") eqn:Hu.
    + split; [done | ]. intros Hne. by apply String.eqb_eq in Hu.
    + by destruct (String.eqb (handlers.EntryDate req) "").
  - intros r Hbody. unfold handlers.UpdateEntry. rewrite Hbody. simpl String.eqb at 2.
    destruct (String.eqb (handlers.userSub r) "") eqn:Hu.
    + split; [done | ]. intros Hne. by apply String.eqb_eq in Hu.
    + done.
Qed.

Lemma empty_content_is_rejected_before_any_write_witness :
  let create := handlers.mkRequest "alice" "journal-100" ""
                  (Some (handlers.mkCreateEntryRequest "2025-12-03" "")) in
  let update := handlers.mkRequest "alice" "journal-100" "2025-12-01" (Some "") in
  ((handlers.CreateEntry create (no_faults 500) one_entry_world).2 = one_entry_world
   ∧ handlers.status (handlers.CreateEntry create (no_faults 500) one_entry_world).1 = 400)
  ∧ ((handlers.UpdateEntry update (no_faults 500) one_entry_world).2 = one_entry_world
     ∧ handlers.status (handlers.UpdateEntry update (no_faults 500) one_entry_world).1 = 400).
Proof.
  intros create update.
  destruct (empty_content_is_rejected_before_any_write (no_faults 500) one_entry_world)
    as [Hcreate Hupdate].
  split.
  - destruct (Hcreate create (handlers.mkCreateEntryRequest "2025-12-03" "")
                eq_refl eq_refl) as [Hw Hs].
    split; [exact Hw | ]. apply Hs. discriminate.
  - destruct (Hupdate update eq_refl) as [Hw Hs].
    split; [exact Hw | ]. apply Hs. discriminate.
Defined.

(** ** C8 *)

(** C8. Whatever the environment and the outcome, [DeleteEntry] and
    [DeleteJournal] leave every repository as it was: its commits, its index
    and its work tree. *)
Theorem delete_never_prunes_the_repository env w :
  (∀ userSub journalID entryDate,
     repos (journal.DeleteEntry userSub journalID entryDate env w).2 = repos w)
  ∧ (∀ id userSub, repos (journal.DeleteJournal id userSub env w).2 = repos w).
Proof.
  split.
  - intros u j d. apply (DeleteEntry_keeps_repos u j d env w).
  - intros id u. revert env w.
    change (respects (keeps repos) (journal.DeleteJournal id u)).
    unfold journal.DeleteJournal. respects_walk keeps_leaf.
    apply delete_blobs_keeps_repos.
Qed.

(** ** C9 *)

(** C9, as the code has it.  A first access with every call answered creates
    the repository of the user with one commit, the initial one, on the empty
    file [.gitkeep]; and when [CommitFile], [GetFileContent] or [ListCommits]
    returns without an error the repository of the user has a HEAD. *)
Theorem repository_has_head_after_success u env w :
  (repos w !! u = None → (∀ s, faults env s = None) →
   ∃ w', git.GetOrInitRepo u env w = (Ok tt, w') ∧
         repos w' = <[u := initial_repository (now env)]> (repos w))
  ∧ (∀ j d content msg h w',
       git.CommitFile u j d content msg env w = (Ok h, w') → has_head u w')
  ∧ (∀ j d h content w',
       git.GetFileContent u j d h env w = (Ok content, w') → has_head u w')
  ∧ (∀ j d l w',
       git.ListCommits u j d env w = (Ok l, w') → has_head u w').
Proof.
  split; [ | split; [ | split]].
  - intros Hr Hf.
    destruct (GetOrInitRepo_init u env w Hf Hr) as (w' & Hrun & Hrepos & _).
    eauto.
  - intros j d content msg h w' H.
    apply CommitFile_Ok in H as (r & c & rest & Hr & Hc & _).
    exists r. split; [done | ]. by rewrite Hc.
  - intros j d h content w' H. by eapply GetFileContent_Ok.
  - intros j d l w' H. apply ListCommits_Ok in H as (r & Hr & Hhead & _).
    by exists r.
Qed.

Lemma repository_has_head_after_success_witness :
  (∃ w', git.GetOrInitRepo "alice" (no_faults 200) alice_world = (Ok tt, w') ∧
         repos w' = {[ "alice" := initial_repository 200 ]})
  ∧ has_head "alice" one_entry_world.
Proof.
  destruct (repository_has_head_after_success "alice" (no_faults 200) alice_world)
    as (Hinit & _).
  destruct (repository_has_head_after_success "alice" (no_faults 200)
              (s3.Upload "alice/journal-100/2025-12-01.md"
                 (journal.sanitizeMarkdown raw_text) (no_faults 200) alice_world).2)
    as (_ & Hcommit & _).
  split.
  - destruct (Hinit eq_refl (λ _, eq_refl)) as (w' & Hrun & Hrepos).
    exists w'. split; [exact Hrun | ]. rewrite Hrepos. vm_compute. reflexivity.
  - destruct (Hcommit "journal-100" "2025-12-01" (journal.sanitizeMarkdown raw_text)
                "Entry for 2025-12-01" 2%nat
                (git.CommitFile "alice" "journal-100" "2025-12-01"
                   (journal.sanitizeMarkdown raw_text) "Entry for 2025-12-01"
                   (no_faults 200)
                   (s3.Upload "alice/journal-100/2025-12-01.md"
                      (journal.sanitizeMarkdown raw_text) (no_faults 200)
                      alice_world).2).2
                ltac:(vm_compute; reflexivity)) as (r & Hr & Hhead).
    exists r. split; [ | exact Hhead]. rewrite <- Hr. vm_compute. reflexivity.
Defined.

(** C9, as stated, fails.  The initial commit of alice's repository fails
    on her first access; the repository is left without a HEAD, and her next
    access, with every call answered, opens it as it is and reports that
    there is no HEAD. *)
Lemma headless_repository_is_observed :
  let w1 := (journal.ListVersions "alice" "journal-100" "2025-12-01"
               initial_commit_fails alice_world).2 in
  repos w1 !! "alice" = Some (mkRepository [] gitkeep gitkeep)
  ∧ journal.ListVersions "alice" "journal-100" "2025-12-01" (no_faults 300) w1
    = (Err (Wrap "failed to get HEAD" ErrReferenceNotFound), w1).
Proof. vm_compute. split; reflexivity. Qed.

(** ** C10 *)



(** A file of no bytes is not read back, whether its entry was deleted or not:
    the one [Read] into a buffer of no bytes returns [io.EOF]. *)
Example GetVersion_of_empty_content :
  let created := journal.CreateEntry "alice" "journal-100" "2025-12-01" NUL
                   (no_faults 200) alice_world in
  is_Ok created.1 = true ∧
  (journal.GetVersion "alice" "journal-100" "2025-12-01" (Some 2%nat)
     (no_faults 300) created.2).1
    = Err (Wrap "failed to read file content" EOF).
Proof. vm_compute. split; reflexivity. Qed.

(** * Further properties of the code *)

(** ** X1 *)

(** X1. What [sanitizeMarkdown] returns holds no NUL and no CR and is not
    longer than its argument; a text that holds neither is returned as it is,
    so sanitizing twice is sanitizing once. *)
Theorem sanitizeMarkdown_idempotent s :
  Contains (journal.sanitizeMarkdown s) NUL = false
  ∧ Contains (journal.sanitizeMarkdown s) CR = false
  ∧ (String.length (journal.sanitizeMarkdown s) ≤ String.length s)%nat
  ∧ (Contains s NUL = false → Contains s CR = false → journal.sanitizeMarkdown s = s)
  ∧ journal.sanitizeMarkdown (journal.sanitizeMarkdown s) = journal.sanitizeMarkdown s.
Proof.
  rewrite !sanitizeMarkdown_normalize.
  destruct (normalize_plain s) as [Hn Hc].
  split; [exact Hn | ]. split; [exact Hc | ]. split; [ | split].
  - unfold normalize. rewrite cr_to_lf_length.
    etransitivity; [apply crlf_to_lf_length | apply strip_nul_length].
  - intros H1 H2. by apply normalize_of_plain.
  - by apply normalize_of_plain.
Qed.

(** ** X2 *)

(** X2. [CreateJournal] names the journal after the clock.  When it returns a
    journal that journal is the new row, appended to [journals], whose id no
    other row has; the owner gets it back from [GetJournal] and for any other
    user there is no such row.  When a row already has the id that the clock
    gives, the insert is refused and [journals] stays as it is. *)
Theorem CreateJournal_then_GetJournal u title description env w :
  let id := "journal-" +:+ pretty (now env) in
  let row := mkJournal id u title
               (if String.eqb description "" then None else Some description)
               (now env) (now env) in
  let run := journal.CreateJournal u title description env w in
  (∀ jr, run.1 = Ok jr →
     jr = row ∧ journals run.2 = journals w ++ [row]
     ∧ existsb (λ j, String.eqb (J_ID j) id) (journals w) = false
     ∧ ∀ env2, faults env2 SelectJournal = None →
         journal.GetJournal id u env2 run.2 = (Ok row, run.2)
         ∧ ∀ u', u' ≠ u → journal.GetJournal id u' env2 run.2 = (Err ErrNoRows, run.2))
  ∧ (faults env InsertJournal = None →
     if existsb (λ j, String.eqb (J_ID j) id) (journals w)
     then run.1 = Err (ErrConstraint "journals_pkey") ∧ journals run.2 = journals w
     else faults env SelectJournal = None → run.1 = Ok row).
Proof.
  intros id row run. subst run. rewrite CreateJournal_run. fold id row.
  destruct (faults env InsertJournal) as [msg|] eqn:Hins.
  { split; [discriminate | discriminate]. }
  destruct (existsb (λ j, String.eqb (J_ID j) id) (journals w)) eqn:Hfresh.
  { split; [discriminate | ]. intros _. by split. }
  set (w1 := add_event (DbCreateJournal id) true (set_journals (journals w ++ [row]) w)).
  assert (journals w1 = journals w ++ [row]) as Hjs by reflexivity.
  assert (∀ u', find (store.journal_matches id u') (journals w1)
                = if String.eqb u u' then Some row else None) as Hfind.
  { intros u'. rewrite Hjs, find_app_None.
    - simpl. unfold store.journal_matches at 1. simpl.
      rewrite String.eqb_refl. simpl. by destruct (String.eqb u u').
    - apply find_None_existsb. revert Hfresh. apply existsb_weaken.
      intros j. unfold store.journal_matches. by intros [? _]%andb_true_iff. }
  pose proof (GetJournal_world id u env w1) as Hw.
  split.
  - intros jr Hrun.
    destruct (store.GetJournal id u env w1) as [[jr'|e] w2] eqn:Hget;
      simpl in Hw, Hrun; [ | discriminate].
    injection Hrun as ->. subst w2.
    apply GetJournal_Ok in Hget as [_ Hget].
    rewrite Hfind, String.eqb_refl in Hget. injection Hget as <-.
    split; [done | ]. split; [done | ]. split; [done | ].
    intros env2 F. unfold journal.GetJournal. simpl. split.
    + apply GetJournal_run; [done | ]. by rewrite Hfind, String.eqb_refl.
    + intros u' Hne. destruct (GetJournal_not_owned id u' env2 w1) as (cause & -> & Hc).
      * rewrite Hfind. apply not_eq_sym, String.eqb_neq in Hne. by rewrite Hne.
      * by rewrite (Hc F).
  - intros _ F. rewrite (GetJournal_run _ _ _ _ row F); [done | ].
    by rewrite Hfind, String.eqb_refl.
Qed.

(** ** X3 *)

(** X3. [ListJournals] leaves the world as it is.  The list it returns is a
    rearrangement of the rows of [journals] whose user is the caller, newest
    first; it holds no journal of another user.  It returns when its query is
    answered. *)
Theorem ListJournals_lists_the_callers u env w :
  (journal.ListJournals u env w).2 = w
  ∧ (∀ l, (journal.ListJournals u env w).1 = Ok l →
       l ≡ₚ filter (λ j, J_UserSub j = u) (journals w)
       ∧ StronglySorted store.newest_first l
       ∧ (∀ j, j ∈ l ↔ j ∈ journals w ∧ J_UserSub j = u))
  ∧ (faults env SelectJournals = None → is_Ok (journal.ListJournals u env w).1 = true).
Proof.
  unfold journal.ListJournals, store.ListJournals, bind, fallible, get, ret.
  destruct (faults env SelectJournals) as [msg|]; simpl.
  - split; [done | ]. split; [discriminate | discriminate].
  - split; [done | ]. split; [ | done].
    intros l [= <-].
    assert (merge_sort store.newest_first
              (filter (λ j, String.eqb (J_UserSub j) u = true) (journals w))
            ≡ₚ filter (λ j, J_UserSub j = u) (journals w)) as Hperm.
    { rewrite merge_sort_Permutation.
      rewrite (list_filter_iff _ (λ j, J_UserSub j = u)); [done | ].
      intros j. apply String.eqb_eq. }
    split; [exact Hperm | ]. split.
    + apply StronglySorted_merge_sort; apply _.
    + intros j. rewrite Hperm, list_elem_of_filter. tauto.
Qed.

(** ** X4 *)

(** X4. The handler of PUT on a journal of the caller, its statements
    answered.  A title left out of the request keeps the title that the
    journal has; a description left out is not kept, it is removed.  The other
    columns of the row, the rows of other journals and the other tables stay
    as they are, and the handler answers with the row as it is now. *)
Theorem UpdateJournal_keeps_only_the_title u id req env w jr :
  u ≠ "" →
  faults env SelectJournal = None → faults env UpdateJournalRow = None →
  find (store.journal_matches id u) (journals w) = Some jr →
  let title := if String.eqb (handlers.Title req) "" then J_Title jr
               else handlers.Title req in
  let description := if String.eqb (handlers.Description req) "" then None
                     else Some (handlers.Description req) in
  let updated := mkJournal (J_ID jr) (J_UserSub jr) title description (J_CreatedAt jr)
                           (now env) in
  let run := handlers.UpdateJournal u id (Some req) env w in
  run.1 = handlers.Encoded (handlers.OfJournal updated)
  ∧ journals run.2 = map (retitled id u title description (now env)) (journals w)
  ∧ (∀ j, j ∈ journals w → store.journal_matches id u j = false → j ∈ journals run.2)
  ∧ journal_entries run.2 = journal_entries w
  ∧ journal_versions run.2 = journal_versions w
  ∧ bucket run.2 = bucket w ∧ repos run.2 = repos w.
Proof.
  intros Hu F1 F2 Hfind title description updated run. subst run.
  unfold handlers.UpdateJournal. apply String.eqb_neq in Hu. rewrite Hu.
  unfold journal.GetJournal. rewrite (GetJournal_run _ _ _ _ jr F1 Hfind).
  fold title. rewrite UpdateJournal_run, F2. fold description.
  set (w2 := add_event _ _ _).
  assert (journals w2 = map (retitled id u title description (now env)) (journals w))
    as Hjs by reflexivity.
  assert (find (store.journal_matches id u) (journals w2) = Some updated) as Hfind2.
  { rewrite Hjs, find_map_same by (intros; apply journal_matches_retitled).
    rewrite Hfind. simpl. unfold retitled.
    apply find_some in Hfind as [_ ->]. done. }
  rewrite (GetJournal_run _ _ _ _ updated F1 Hfind2). cbn [fst snd].
  split; [done | ]. split; [done | ]. split; [ | done].
  intros j Hin Hm. rewrite Hjs. apply list_elem_of_fmap. exists j. split; [ | done].
  unfold retitled. by rewrite Hm.
Qed.

Lemma UpdateJournal_keeps_only_the_title_witness :
  (handlers.UpdateJournal "alice" "journal-100"
     (Some (handlers.mkCreateJournalRequest "" "")) (no_faults 150) alice_world).1
  = handlers.Encoded
      (handlers.OfJournal (mkJournal "journal-100" "alice" "Diary" None 100 150)).
Proof.
  refine (proj1 (UpdateJournal_keeps_only_the_title "alice" "journal-100"
                   (handlers.mkCreateJournalRequest "" "") (no_faults 150) alice_world
                   alice_journal _ eq_refl eq_refl _)).
  - discriminate.
  - vm_compute. reflexivity.
Defined.

(** ** X5 *)

(** X5. [DeleteJournal] and the tables.  Whatever the outcome, the rows of
    other journals, their entries and the versions of those are kept.  When
    the caller has no journal of that id no row changes at all, and the call
    still succeeds when its two statements are answered.  When the caller has
    one and the call succeeds, the journal, its entries and the versions of
    its entries are gone. *)
Theorem DeleteJournal_cascades id u env w :
  let run := journal.DeleteJournal id u env w in
  ((∀ j, j ∈ journals w → store.journal_matches id u j = false → j ∈ journals run.2)
   ∧ (∀ e, e ∈ journal_entries w → E_JournalID e ≠ id → e ∈ journal_entries run.2)
   ∧ (∀ v, v ∈ journal_versions w →
           (∀ e, e ∈ journal_entries w → E_ID e = V_EntryID v → E_JournalID e ≠ id) →
           v ∈ journal_versions run.2))
  ∧ (find (store.journal_matches id u) (journals w) = None →
     same_tables w run.2
     ∧ (faults env SelectEntries = None → faults env DeleteJournalRow = None →
        run.1 = Ok tt))
  ∧ (is_Some (find (store.journal_matches id u) (journals w)) → run.1 = Ok tt →
     find (store.journal_matches id u) (journals run.2) = None
     ∧ (∀ e, e ∈ journal_entries run.2 → E_JournalID e ≠ id)
     ∧ (∀ v e, v ∈ journal_versions run.2 → e ∈ journal_entries w →
               E_JournalID e = id → V_EntryID v ≠ E_ID e)).
Proof.
  intros run.
  pose proof (DeleteJournal_tables id u env w) as H. cbv zeta in H.
  change (journal.DeleteJournal id u env w) with run in H.
  destruct H as [[(Hj & He & Hv) Hnot] | (Hok & Hown & Hj & He & Hv)].
  - split; [ | split].
    + rewrite Hj, He, Hv. auto.
    + intros _. split; [done | ]. apply DeleteJournal_not_owned_Ok.
    + intros [jr Hfind] Hrun. apply Hnot, find_None_existsb in Hrun. congruence.
  - split; [ | split].
    + rewrite Hj, He, Hv. split; [ | split].
      * intros j Hin Hm. by apply list_elem_of_filter.
      * intros e Hin Hne. apply list_elem_of_filter. split; [ | done].
        by apply String.eqb_neq.
      * intros v Hin Hother. apply list_elem_of_filter. split; [ | done].
        destruct (existsb _ (journal_entries w)) eqn:Hex; [ | done].
        apply existsb_elem_of in Hex as (e & Hine & [H1 H2]%andb_true_iff).
        apply String.eqb_eq in H1, H2. by destruct (Hother e Hine H2).
    + intros Hnone. apply find_None_existsb in Hnone. congruence.
    + intros _ _. rewrite Hj, He, Hv. split; [apply find_filter_negb | ]. split.
      * intros e [Hne _]%list_elem_of_filter. by apply String.eqb_neq.
      * intros v e [Hno _]%list_elem_of_filter Hine Hje Hid.
        apply (existsb_false_elem_of _ _ e) in Hno; [ | done].
        cbv beta in Hno. rewrite Hje, Hid, !String.eqb_refl in Hno. discriminate.
Qed.

(** ** X6 *)

(** X6. The objects that [DeleteJournal] deletes are those at the keys it
    computes from the caller, the journal and the dates of the journal's
    entries: every other object is left as it is, and nothing is added.  Of
    these keys, each whose delete is answered is gone afterwards, also when
    the delete of another key fails.  The key under which [CreateEntry] stored
    the content of an entry is one of them. *)
Theorem DeleteJournal_deletes_the_blobs u j env w :
  let run := journal.DeleteJournal j u env w in
  (∀ k, bucket run.2 !! k = None ∨ bucket run.2 !! k = bucket w !! k)
  ∧ (∀ k, bucket run.2 !! k ≠ bucket w !! k →
          ∃ e, e ∈ journal_entries w ∧ E_JournalID e = j ∧ k = blob_key u j e)
  ∧ (∀ e, e ∈ journal_entries w → E_JournalID e = j →
          faults env SelectEntries = None →
          faults env (DeleteObject (blob_key u j e)) = None →
          bucket run.2 !! blob_key u j e = None)
  ∧ (∀ d raw env0 w0 e,
       journal.CreateEntry u j d raw env0 w0 = (Ok e, w) →
       e ∈ journal_entries w ∧ E_JournalID e = j ∧ E_S3Key e = blob_key u j e
       ∧ bucket w !! E_S3Key e = Some (journal.sanitizeMarkdown raw)).
Proof.
  intros run.
  assert (∀ k, bucket run.2 !! k =
               match faults env SelectEntries, faults env (DeleteObject k) with
               | None, None =>
                   if existsb (λ e, String.eqb (blob_key u j e) k)
                        (merge_sort store.later_first
                           (filter (λ e, String.eqb (E_JournalID e) j = true)
                                   (journal_entries w)))
                   then None else bucket w !! k
               | _, _ => bucket w !! k
               end) as Hb.
  { intros k. subst run. rewrite DeleteJournal_run.
    destruct (faults env SelectEntries) as [msg|]; [done | ].
    rewrite (store_DeleteJournal_keeps_bucket j u env _).
    rewrite delete_blobs_bucket. by destruct (faults env (DeleteObject k)). }
  split; [ | split; [ | split]].
  - intros k. rewrite Hb. repeat case_match; auto.
  - intros k Hk. rewrite Hb in Hk.
    destruct (faults env SelectEntries); [done | ].
    destruct (faults env (DeleteObject k)); [done | ].
    destruct (existsb _ _) eqn:Hex; [ | done].
    apply existsb_elem_of in Hex as (e & He & Hkey).
    apply elem_of_ListJournalEntries in He as [He Hj].
    apply String.eqb_eq in Hkey. eauto.
  - intros e He Hj F1 F2. rewrite Hb, F1, F2.
    rewrite (proj2 (existsb_elem_of _ _)); [done | ].
    exists e. split; [by apply elem_of_ListJournalEntries | apply String.eqb_refl].
  - intros d raw env0 w0 e Hcreate.
    pose proof (CreateEntry_row _ _ _ _ _ _ _ _ Hcreate)
      as (date & jr & Hd & _ & _ & Hkey & Hblob).
    apply CreateEntry_Ok in Hcreate
      as (date' & h & Hd' & _ & He & _ & _ & _ & Hes & _).
    rewrite Hd in Hd'. injection Hd' as <-.
    split; [rewrite Hes; apply elem_of_app; right; by apply list_elem_of_singleton | ].
    split; [by rewrite He | ].
    split; [ | by rewrite Hkey].
    rewrite Hkey. unfold blob_key. rewrite He. simpl.
    by rewrite (formatDate_parseDate d date Hd).
Qed.

(** ** X7 *)

(** X7. [ListEntries] leaves the world as it is.  The list it returns is a
    rearrangement of the rows of [journal_entries] for this journal, later
    dates first, and it returns one only for a journal of the caller.  It does
    return when the journal is the caller's and its two queries are answered. *)
Theorem ListEntries_lists_the_journal u j env w :
  (journal.ListEntries u j env w).2 = w
  ∧ (∀ l, (journal.ListEntries u j env w).1 = Ok l →
       is_Some (find (store.journal_matches j u) (journals w))
       ∧ l ≡ₚ filter (λ e, E_JournalID e = j) (journal_entries w)
       ∧ StronglySorted store.later_first l)
  ∧ (faults env SelectJournal = None → faults env SelectEntries = None →
     is_Some (find (store.journal_matches j u) (journals w)) →
     is_Ok (journal.ListEntries u j env w).1 = true).
Proof.
  unfold journal.ListEntries, bind, wrap.
  pose proof (GetJournal_world j u env w) as Hw.
  destruct (store.GetJournal j u env w) as [[jr|e] w1] eqn:Hget; simpl in Hw; subst w1.
  - apply GetJournal_Ok in Hget as [_ Hfind].
    rewrite ListJournalEntries_run. simpl.
    split; [done | ]. split.
    + intros l Hl. destruct (faults env SelectEntries); [discriminate | ].
      injection Hl as <-. split; [by eexists | ]. split.
      * rewrite merge_sort_Permutation.
        rewrite (list_filter_iff _ (λ e, E_JournalID e = j)); [done | ].
        intros e. apply String.eqb_eq.
      * apply StronglySorted_merge_sort; apply _.
    + intros _ -> _. done.
  - split; [done | ]. split; [discriminate | ].
    intros F1 _ [jr Hfind]. by rewrite (GetJournal_run _ _ _ _ jr F1 Hfind) in Hget.
Qed.

(** ** X8 *)

(** X8. [UpdateEntry] with content that HEAD does not hold at the path of the
    entry.  When it succeeds there is one commit more on the user's chain,
    with the message of an update and a tree that holds the new content at
    that path; the entry returned carries its hash, the bucket holds the new
    content under the key of the entry, and [ListVersions] then answers with
    the versions that the chain had and this one after them. *)
Theorem UpdateEntry_changed_content u j d raw env w r e w' :
  repos w !! u = Some r →
  git.head_tree r !! git.filePath j d ≠ Some (journal.sanitizeMarkdown raw) →
  journal.UpdateEntry u j d raw env w = (Ok e, w') →
  ∃ c r',
    repos w' !! u = Some r' ∧ commits r' = c :: commits r
    ∧ C_Hash c = S (List.length (commits r))
    ∧ C_Message c = "Update entry for " +:+ d
    ∧ C_Tree c !! git.filePath j d = Some (journal.sanitizeMarkdown raw)
    ∧ E_GitCommitHash e = Some (C_Hash c)
    ∧ bucket w' !! E_S3Key e = Some (journal.sanitizeMarkdown raw)
    ∧ ∀ env', (∀ s, faults env' s = None) →
        journal.ListVersions u j d env' w'
        = (Ok ((git.info <$> filter (touches (git.filePath j d)) (reverse (commits r)))
               ++ [git.info c]), w').
Proof.
  intros Hr Hhead Hrun.
  after Hrun (UpdateEntry_keeps_journals u j d raw) Kj.
  unfold journal.UpdateEntry in Hrun. inv_Ok.
  match goal with
  | H : store.GetJournalEntryByDate _ _ _ _ = _ |- _ =>
      apply GetJournalEntryByDate_Ok in H as [-> _]
  end.
  match goal with
  | H : store.GetJournal _ _ _ _ = _ |- _ => apply GetJournal_Ok in H as [-> Hj]
  end.
  match goal with
  | H : s3.Upload _ _ _ _ = _ |- _ => apply Upload_Ok in H as ->
  end.
  match goal with
  | H : git.CommitFile ?u ?j ?d ?c ?msg ?env ?w0 = (Ok ?h, ?w1) |- _ =>
      after H (CommitFile_keeps_bucket u j d c msg) Kb;
      apply (CommitFile_changed _ _ _ _ _ _ _ r) in H
        as (c0 & Hr' & Hh & Hnum & Htree & Hmsg & _); [ | done | done]
  end.
  match goal with
  | H : store.UpdateJournalEntry ?e _ _ = _ |- _ =>
      after H (UpdateJournalEntry_keeps_bucket e) Ub;
      after H (UpdateJournalEntry_keeps_repos e) Ur
  end.
  match goal with
  | H : store.CreateJournalVersion ?v _ _ = _ |- _ =>
      after H (CreateJournalVersion_keeps_bucket v) Vb;
      after H (CreateJournalVersion_keeps_repos v) Vr
  end.
  eexists c0, _. rewrite Vr, Ur. split; [exact Hr' | ]. simpl.
  split; [done | ]. split; [by rewrite Hh | ]. split; [exact Hmsg | ].
  split; [rewrite Htree; apply lookup_insert_eq | ].
  split; [by rewrite Hh | ].
  split; [rewrite Vb, Ub, Kb; apply lookup_insert_eq | ].
  intros env' F.
  destruct (ListVersions_oldest_first u j d env' w') as [_ Hlist].
  rewrite (Hlist _ _ F ltac:(rewrite Kj; exact Hj) ltac:(rewrite Vr, Ur; exact Hr')
             ltac:(done)).
  simpl. rewrite reverse_cons, filter_app, fmap_app, filter_cons, filter_nil.
  rewrite decide_True; [done | ].
  unfold touches. rewrite Htree, lookup_insert_eq. by eexists.
Qed.

Lemma UpdateEntry_changed_content_witness :
  let run := journal.UpdateEntry "alice" "journal-100" "2025-12-01" "Version 2"
               (no_faults 400) one_entry_world in
  run.1 = Ok updated_entry
  ∧ ∃ c r', repos run.2 !! "alice" = Some r'
            ∧ commits r' = c :: commits one_entry_repo ∧ C_Hash c = 3%nat.
Proof.
  intros run.
  assert (run = (Ok updated_entry, run.2)) as Hrun by (vm_compute; reflexivity).
  split; [by rewrite Hrun | ].
  destruct (UpdateEntry_changed_content "alice" "journal-100" "2025-12-01" "Version 2"
              (no_faults 400) one_entry_world one_entry_repo updated_entry run.2)
    as (c & r' & Hr' & Hc & Hh & _).
  - vm_compute. reflexivity.
  - vm_compute. discriminate.
  - exact Hrun.
  - exists c, r'. split; [exact Hr' | ]. split; [exact Hc | ].
    rewrite Hh. vm_compute. reflexivity.
Defined.

(** ** X9 *)

(** X9. A successful [UpdateEntry] followed by [GetEntry], its three reads
    answered: the content is the normalised form of what was written, and the
    row is the entry that [UpdateEntry] returned but for the time of the
    update, which the row has and the returned entry does not. *)
Theorem UpdateEntry_then_GetEntry u j d raw env1 env2 w e w1 :
  journal.UpdateEntry u j d raw env1 w = (Ok e, w1) →
  faults env2 SelectEntryByDate = None →
  faults env2 SelectJournal = None →
  faults env2 GetObject = None →
  let row := mkJournalEntry (E_ID e) (E_JournalID e) (E_EntryDate e) (E_S3Key e)
               (E_GitCommitHash e) (E_WordCount e) (E_CreatedAt e) (now env1) in
  journal.GetEntry u j d env2 w1 = (Ok (row, journal.sanitizeMarkdown raw), w1)
  ∧ E_WordCount e = Some (int32 (journal.countWords (journal.sanitizeMarkdown raw)))
  ∧ ∃ old, find (store.entry_at j (E_EntryDate e)) (journal_entries w) = Some old
           ∧ E_ID e = E_ID old ∧ E_S3Key e = E_S3Key old
           ∧ E_CreatedAt e = E_CreatedAt old ∧ E_UpdatedAt e = E_UpdatedAt old.
Proof.
  intros Hrun F1 F2 F3 row.
  after Hrun (UpdateEntry_keeps_journals u j d raw) Kj.
  unfold journal.UpdateEntry in Hrun. inv_Ok.
  match goal with
  | H : store.GetJournalEntryByDate _ _ _ _ = _ |- _ =>
      apply GetJournalEntryByDate_Ok in H as [-> Hfind]
  end.
  match goal with
  | H : store.GetJournal _ _ _ _ = _ |- _ => apply GetJournal_Ok in H as [-> Hj]
  end.
  match goal with
  | H : s3.Upload _ _ _ _ = _ |- _ => apply Upload_Ok in H as ->
  end.
  match goal with
  | H : git.CommitFile ?u ?j ?d ?c ?msg ?env ?w0 = (Ok ?h, ?w1) |- _ =>
      after H (CommitFile_keeps_bucket u j d c msg) Kb;
      after H (CommitFile_keeps_journal_entries u j d c msg) Ke
  end.
  match goal with
  | H : store.UpdateJournalEntry ?e _ _ = _ |- _ =>
      apply UpdateJournalEntry_Ok in H as (Ue & Ub & _)
  end.
  match goal with
  | H : store.CreateJournalVersion ?v _ _ = _ |- _ =>
      after H (CreateJournalVersion_keeps_bucket v) Vb;
      after H (CreateJournalVersion_keeps_journal_entries v) Ve
  end.
  pose proof Hfind as Hat. apply find_some in Hat as [_ Hat].
  apply andb_true_iff in Hat as [Hjid Hdate].
  apply String.eqb_eq in Hjid. apply bool_decide_eq_true in Hdate.
  split; [ | split; [reflexivity | ]].
  - unfold journal.GetEntry.
    match goal with H : parseDate d = Some _ |- _ => rewrite H end.
    unfold bind, wrap, ret.
    rewrite (GetJournalEntryByDate_run _ _ _ _ F1), Ve, Ue, Ke. simpl.
    rewrite find_map_same by (intros; apply entry_at_rewritten).
    rewrite Hfind. simpl. unfold rewritten at 1. simpl. rewrite String.eqb_refl.
    rewrite (GetJournal_run _ _ _ _ _ F2 ltac:(rewrite Kj; exact Hj)). simpl.
    rewrite (Download_run _ _ _ (journal.sanitizeMarkdown raw) F3);
      [ | rewrite Vb, Ub, Kb; apply lookup_insert_eq].
    subst row. unfold rewritten. simpl. by rewrite String.eqb_refl.
  - eexists. simpl. rewrite Hdate. split; [exact Hfind | done].
Qed.

Lemma UpdateEntry_then_GetEntry_witness :
  let run := journal.UpdateEntry "alice" "journal-100" "2025-12-01" ("Version 2" +:+ CR)
               (no_faults 400) one_entry_world in
  run.1 = Ok updated_entry
  ∧ journal.GetEntry "alice" "journal-100" "2025-12-01" (no_faults 500) run.2
    = (Ok (mkJournalEntry "journal-200" "journal-100" (mkDate 2025 12 1)
             "alice/journal-100/2025-12-01.md" (Some 3%nat) (Some 2) 200 400,
           "Version 2" +:+ LF), run.2).
Proof.
  intros run.
  assert (run = (Ok updated_entry, run.2)) as Hrun by (vm_compute; reflexivity).
  split; [by rewrite Hrun | ].
  exact (proj1 (UpdateEntry_then_GetEntry "alice" "journal-100" "2025-12-01"
                  ("Version 2" +:+ CR) (no_faults 400) (no_faults 500) one_entry_world
                  updated_entry run.2 Hrun eq_refl eq_refl eq_refl)).
Defined.

(** ** X10 *)

(** X10. A successful [DeleteEntry] removes the row of the entry and, with it,
    the version rows of the entry, so that [ListJournalVersions] finds none;
    the journals are left as they are.  The object of the entry is removed
    from the bucket when its delete is answered; when that delete fails the
    call still succeeds, and the object stays. *)
Theorem DeleteEntry_cascades u j d env w w' :
  journal.DeleteEntry u j d env w = (Ok tt, w') →
  ∃ date e,
    parseDate d = Some date
    ∧ find (store.entry_at j date) (journal_entries w) = Some e
    ∧ journal_entries w'
      = filter (λ x, String.eqb (E_ID x) (E_ID e) = false) (journal_entries w)
    ∧ journal_versions w'
      = filter (λ v, String.eqb (V_EntryID v) (E_ID e) = false) (journal_versions w)
    ∧ journals w' = journals w
    ∧ bucket w' = match faults env (DeleteObject (E_S3Key e)) with
                  | None => delete (E_S3Key e) (bucket w)
                  | Some _ => bucket w
                  end
    ∧ ∀ env2, faults env2 SelectVersions = None →
              store.ListJournalVersions (E_ID e) env2 w' = (Ok [], w').
Proof.
  intros Hrun.
  after Hrun (DeleteEntry_keeps_journals u j d) Kj.
  unfold journal.DeleteEntry in Hrun. inv_Ok.
  match goal with
  | H : store.GetJournalEntryByDate _ _ _ _ = _ |- _ =>
      apply GetJournalEntryByDate_Ok in H as [-> Hfind]
  end.
  match goal with
  | H : store.GetJournal _ _ _ _ = _ |- _ => apply GetJournal_Ok in H as [-> _]
  end.
  match goal with
  | H : s3.Delete ?key ?env ?w = (_, ?w1) |- _ =>
      assert (w1 = (s3.Delete key env w).2) as Hw1 by (by rewrite H);
      rewrite Delete_run in Hw1; clear H
  end.
  match goal with
  | H : store.DeleteJournalEntry _ _ _ = _ |- _ =>
      unfold store.DeleteJournalEntry in H; inv_Ok
  end.
  - eexists _, _. split; [done | ]. split; [exact Hfind | ].
    simpl. destruct (faults env (DeleteObject _)); subst; simpl.
    all: repeat split; try done.
    all: intros env2 F; rewrite ListJournalVersions_run, F; simpl.
    all: rewrite (filter_none (λ v, String.eqb (V_EntryID v) _ = true)); [done | ].
    all: intros v [Hv _]%list_elem_of_filter; congruence.
  - exfalso.
    match goal with
    | H : existsb _ (journal_entries ?w1) = false |- _ =>
        assert (journal_entries w1 = journal_entries w) as Ke
          by (subst; by destruct (faults env (DeleteObject _)));
        rewrite Ke in H;
        rewrite (find_Some_existsb_eq _ _ _ _ Hfind) in H;
        [discriminate | apply String.eqb_refl]
    end.
Qed.

Lemma DeleteEntry_cascades_witness :
  let run := journal.DeleteEntry "alice" "journal-100" "2025-12-01" (no_faults 300)
               one_entry_world in
  run.1 = Ok tt ∧ journal_entries run.2 = [] ∧ journal_versions run.2 = []
  ∧ bucket run.2 = ∅.
Proof.
  intros run.
  assert (run = (Ok tt, run.2)) as Hrun by (vm_compute; reflexivity).
  split; [by rewrite Hrun | ].
  destruct (DeleteEntry_cascades "alice" "journal-100" "2025-12-01" (no_faults 300)
              one_entry_world run.2 Hrun)
    as (date & e & Hdate & Hfind & He & Hv & _ & Hb & _).
  vm_compute in Hdate. injection Hdate as <-.
  assert (Some e = Some first_entry) as [= ->]
    by (rewrite <- Hfind; vm_compute; reflexivity).
  rewrite He, Hv, Hb. repeat split; vm_compute; reflexivity.
Defined.

(** ** X11 *)

(** X11. A version row that [CreateJournalVersion] has inserted is the row
    that [GetJournalVersion] returns for its entry and commit, and one of the
    rows that [ListJournalVersions] returns for its entry, all of which are
    rows of that entry.  Its entry exists.  A second insert for the same entry
    and commit is refused, whatever the rest of the row. *)
Theorem CreateJournalVersion_then_GetJournalVersion v env w v' w' :
  store.CreateJournalVersion v env w = (Ok v', w') →
  v' = mkJournalVersion
         (if String.eqb (V_ID v) "" then "journal-" +:+ pretty (now env) else V_ID v)
         (V_EntryID v) (V_CommitHash v) (V_CommitMessage v) (V_AuthorName v)
         (V_AuthorEmail v) (V_CreatedAt v)
  ∧ journal_versions w' = journal_versions w ++ [v']
  ∧ existsb (λ e, String.eqb (E_ID e) (V_EntryID v)) (journal_entries w) = true
  ∧ (∀ env2, faults env2 SelectVersion = None →
       store.GetJournalVersion (V_EntryID v) (V_CommitHash v) env2 w' = (Ok v', w'))
  ∧ (∀ env2, faults env2 SelectVersions = None →
       ∃ l, store.ListJournalVersions (V_EntryID v) env2 w' = (Ok l, w')
            ∧ v' ∈ l
            ∧ ∀ x, x ∈ l → x ∈ journal_versions w' ∧ V_EntryID x = V_EntryID v)
  ∧ (∀ v2 env2, V_EntryID v2 = V_EntryID v → V_CommitHash v2 = V_CommitHash v →
       is_Ok (store.CreateJournalVersion v2 env2 w').1 = false).
Proof.
  intros Hrun.
  assert (v' = mkJournalVersion
                 (if String.eqb (V_ID v) "" then "journal-" +:+ pretty (now env)
                  else V_ID v)
                 (V_EntryID v) (V_CommitHash v) (V_CommitMessage v) (V_AuthorName v)
                 (V_AuthorEmail v) (V_CreatedAt v)
          ∧ journal_versions w' = journal_versions w ++ [v']
          ∧ existsb (λ e, String.eqb (E_ID e) (V_EntryID v)) (journal_entries w) = true
          ∧ existsb (store.version_of (V_EntryID v) (V_CommitHash v)) (journal_versions w)
            = false) as (Hv' & Hvs & Hfk & Hfresh).
  { rewrite CreateJournalVersion_run in Hrun. cbv zeta in Hrun.
    destruct (faults env InsertVersion); [discriminate | ].
    destruct (existsb _ (journal_versions w)) eqn:Hpk in Hrun; [discriminate | ].
    destruct (existsb _ (journal_entries w)) eqn:Hfk in Hrun; [ | discriminate].
    cbn [negb] in Hrun.
    destruct (existsb (store.version_of _ _) (journal_versions w)) eqn:Huniq in Hrun;
      [discriminate | ].
    injection Hrun as <- <-. done. }
  assert (store.version_of (V_EntryID v) (V_CommitHash v) v' = true) as Hmatch.
  { rewrite Hv'. unfold store.version_of. simpl.
    by rewrite String.eqb_refl, Nat.eqb_refl. }
  split; [exact Hv' | ]. split; [exact Hvs | ]. split; [exact Hfk | ].
  split; [ | split].
  - intros env2 F. unfold store.GetJournalVersion, bind, get, ret.
    rewrite (fallible_run _ _ _ F), Hvs.
    by rewrite (find_snoc_fresh _ _ v' Hfresh Hmatch).
  - intros env2 F. rewrite ListJournalVersions_run, F. eexists. split; [reflexivity | ].
    split.
    + rewrite merge_sort_Permutation. apply list_elem_of_filter. split.
      * apply andb_true_iff in Hmatch as [H _]. exact H.
      * rewrite Hvs. apply elem_of_app. right. by apply list_elem_of_singleton.
    + intros x. rewrite merge_sort_Permutation, list_elem_of_filter, String.eqb_eq. tauto.
  - intros v2 env2 He Hc.
    rewrite CreateJournalVersion_run. cbv zeta.
    assert (existsb (store.version_of (V_EntryID v2) (V_CommitHash v2))
                    (journal_versions w') = true) as Hdup.
    { rewrite He, Hc. apply existsb_elem_of. exists v'. split; [ | exact Hmatch].
      rewrite Hvs. apply elem_of_app. right. by apply list_elem_of_singleton. }
    rewrite Hdup. clear Hdup.
    destruct (faults env2 InsertVersion); [done | ].
    by repeat case_match.
Qed.

Lemma CreateJournalVersion_then_GetJournalVersion_witness :
  let run := store.CreateJournalVersion other_version (no_faults 500) one_entry_world in
  let row := mkJournalVersion "journal-500" "journal-200" 7%nat None None None 500 in
  run.1 = Ok row
  ∧ store.GetJournalVersion "journal-200" 7%nat (no_faults 600) run.2 = (Ok row, run.2).
Proof.
  intros run row.
  assert (run = (Ok row, run.2)) as Hrun by (vm_compute; reflexivity).
  split; [by rewrite Hrun | ].
  destruct (CreateJournalVersion_then_GetJournalVersion other_version (no_faults 500)
              one_entry_world row run.2 Hrun) as (_ & _ & _ & Hget & _).
  exact (Hget (no_faults 600) eq_refl).
Defined.

(** ** X12 *)

(** X12. What [CommitFile] returns names a commit of the user's chain that
    holds the content at the path of the entry: when the content is not empty
    [GetFileContent] reads it back, at that hash and at HEAD, and
    [GetLatestCommitHash] returns that hash, each as soon as its calls are
    answered. *)
Theorem CommitFile_then_GetFileContent u j d content msg env w h w' env2 :
  git.CommitFile u j d content msg env w = (Ok h, w') →
  content ≠ "" →
  (∀ s, faults env2 s = None) →
  git.GetFileContent u j d (Some h) env2 w' = (Ok content, w')
  ∧ git.GetFileContent u j d None env2 w' = (Ok content, w')
  ∧ (∀ j' d', git.GetLatestCommitHash u j' d' env2 w' = (Ok h, w')).
Proof.
  intros Hcommit Hne F.
  apply CommitFile_Ok in Hcommit as (r & c & rest & Hr & Hc & Hh & Htree).
  assert (find (λ c, Nat.eqb (C_Hash c) h) (commits r) = Some c) as Hfind.
  { rewrite Hc. simpl. by rewrite Hh, Nat.eqb_refl. }
  split; [ | split].
  - by apply (GetFileContent_run u j d h env2 w' r c).
  - unfold git.GetFileContent, bind, wrap.
    rewrite (GetOrInitRepo_open _ _ _ _ (F _) Hr).
    unfold git.Head_, git.CommitObject_, git.Read_, bind, ret.
    rewrite !(fallible_run _ _ _ (F _)), (repository_run _ _ _ _ Hr), Hc.
    rewrite !(fallible_run _ _ _ (F _)), (repository_run _ _ _ _ Hr), Hh.
    rewrite Hfind, Htree, !(fallible_run _ _ _ (F _)).
    apply String.eqb_neq in Hne. by rewrite Hne.
  - intros j' d'. unfold git.GetLatestCommitHash, bind, wrap.
    rewrite (GetOrInitRepo_open _ _ _ _ (F _) Hr).
    unfold git.Head_, bind, ret.
    by rewrite !(fallible_run _ _ _ (F _)), (repository_run _ _ _ _ Hr), Hc, Hh.
Qed.

Lemma CommitFile_then_GetFileContent_witness :
  let run := git.CommitFile "alice" "journal-100" "2025-12-01" "hello" ""
               (no_faults 200) alice_world in
  run.1 = Ok 2%nat
  ∧ git.GetFileContent "alice" "journal-100" "2025-12-01" (Some 2%nat) (no_faults 300)
                       run.2
    = (Ok "hello", run.2).
Proof.
  intros run.
  assert (run = (Ok 2%nat, run.2)) as Hrun by (vm_compute; reflexivity).
  split; [by rewrite Hrun | ].
  refine (proj1 (CommitFile_then_GetFileContent "alice" "journal-100" "2025-12-01"
                   "hello" "" (no_faults 200) alice_world 2%nat run.2 (no_faults 300)
                   Hrun _ (λ _, eq_refl))).
  discriminate.
Defined.

(** ** X13 *)

(** X13. No operation of the service, and no [CommitFile], takes a commit away
    or changes one: in the world it leaves, every repository that was there is
    still there, and its chain is the old one with, at most, commits added on
    top.  If the commits were numbered from the root they still are, so that a
    hash names one commit of a chain. *)
Theorem history_is_append_only env w :
  (∀ u title description, grows w (journal.CreateJournal u title description env w).2)
  ∧ (∀ id u, grows w (journal.GetJournal id u env w).2)
  ∧ (∀ u, grows w (journal.ListJournals u env w).2)
  ∧ (∀ id u title description,
       grows w (journal.UpdateJournal id u title description env w).2)
  ∧ (∀ id u, grows w (journal.DeleteJournal id u env w).2)
  ∧ (∀ u j d raw, grows w (journal.CreateEntry u j d raw env w).2)
  ∧ (∀ u j d, grows w (journal.GetEntry u j d env w).2)
  ∧ (∀ u j d raw, grows w (journal.UpdateEntry u j d raw env w).2)
  ∧ (∀ u j, grows w (journal.ListEntries u j env w).2)
  ∧ (∀ u j d, grows w (journal.DeleteEntry u j d env w).2)
  ∧ (∀ u j d, grows w (journal.ListVersions u j d env w).2)
  ∧ (∀ u j d h, grows w (journal.GetVersion u j d h env w).2)
  ∧ (∀ u j d content msg, grows w (git.CommitFile u j d content msg env w).2).
Proof.
  split; [intros; apply keeps_repos_grows, CreateJournal_keeps_repos | ].
  split; [intros; apply keeps_repos_grows, GetJournal_keeps_repos | ].
  split; [intros; apply keeps_repos_grows, ListJournals_keeps_repos | ].
  split; [intros; apply keeps_repos_grows, UpdateJournal_keeps_repos | ].
  split; [intros; apply keeps_repos_grows, DeleteJournal_keeps_repos | ].
  split; [intros; apply CreateEntry_grows | ].
  split; [intros; apply keeps_repos_grows, GetEntry_keeps_repos | ].
  split; [intros; apply UpdateEntry_grows | ].
  split; [intros; apply keeps_repos_grows, ListEntries_keeps_repos | ].
  split; [intros; apply keeps_repos_grows, DeleteEntry_keeps_repos | ].
  split; [intros; apply ListVersions_grows | ].
  split; [intros; apply GetVersion_grows | ].
  intros. apply CommitFile_grows.
Qed.

(** ** X14 *)

(** X14. A version that is in the repository stays readable.  Take a commit of
    the user's chain, numbered from the root, whose tree holds a file that is
    not empty.  In every world that is reached by letting the chains grow,
    which is what every operation does, [GetFileContent] at the hash of that
    commit returns that content, as soon as its four calls are answered; and
    so does [GetVersion] while the journal is the caller's. *)
Theorem a_version_stays_readable u j d r c content w w' env :
  chains_numbered w →
  repos w !! u = Some r → c ∈ commits r →
  C_Tree c !! git.filePath j d = Some content → content ≠ "" →
  grows w w' →
  faults env PlainOpen = None → faults env CommitObject = None →
  faults env FileReader = None → faults env Read = None →
  git.GetFileContent u j d (Some (C_Hash c)) env w' = (Ok content, w')
  ∧ (∀ jr, faults env SelectJournal = None →
           find (store.journal_matches j u) (journals w') = Some jr →
           journal.GetVersion u j d (Some (C_Hash c)) env w' = (Ok content, w')).
Proof.
  intros Hn Hr Hc Htree Hne [Hgrows Hn'] F1 F2 F3 F4.
  destruct (Hgrows u r Hr) as (r' & Hr' & [new Hnew]).
  assert (git.GetFileContent u j d (Some (C_Hash c)) env w' = (Ok content, w')) as Hget.
  { apply (GetFileContent_run u j d (C_Hash c) env w' r' c); try done.
    apply numbered_find; [by apply (Hn' Hn u) | ].
    rewrite Hnew. apply elem_of_app. by right. }
  split; [exact Hget | ].
  intros jr F5 Hj. unfold journal.GetVersion, bind, wrap.
  by rewrite (GetJournal_run _ _ _ _ jr F5 Hj), Hget.
Qed.

Lemma a_version_stays_readable_witness :
  git.GetFileContent "alice" "journal-100" "2025-12-01" (Some 2%nat) (no_faults 400)
                     two_entries_world
  = (Ok normalized_text, two_entries_world).
Proof.
  refine (proj1 (a_version_stays_readable "alice" "journal-100" "2025-12-01"
                   one_entry_repo first_commit normalized_text one_entry_world
                   two_entries_world (no_faults 400) _ _ _ _ _ _
                   eq_refl eq_refl eq_refl eq_refl)).
  - apply (CreateEntry_grows "alice" "journal-100" "2025-12-01" raw_text
             (no_faults 200) alice_world).
    intros u r Hr. vm_compute in Hr. discriminate.
  - vm_compute. reflexivity.
  - assert (commits one_entry_repo = [first_commit; mkCommit 1%nat "Initial commit"
              "LifeLogger System" "system@lifelogger.life" 200 gitkeep]) as ->
      by (vm_compute; reflexivity).
    apply list_elem_of_here.
  - vm_compute. reflexivity.
  - vm_compute. discriminate.
  - apply (CreateEntry_grows "alice" "journal-100" "2025-12-02" "B" (no_faults 300)
             one_entry_world).
Defined.

(** ** X15 *)

(** X15. The user of a request.  A handler answers 401 when the request has no
    [X-User-Sub], and it has then called no backend: the world, its trace
    included, is as it was.  With a user, the status is one of 200, 201, 204,
    400, 404, 409 and 500, whatever the backends do. *)
Theorem unauthorized_iff_no_user u route env w :
  (u = "" → answer u route env w = (401, w))
  ∧ (u ≠ "" → (answer u route env w).1 ∈ statuses)
  ∧ ((answer u route env w).1 = 401 ↔ u = "").
Proof.
  assert (u = "" → answer u route env w = (401, w)) as Hno.
  { intros ->. by destruct route. }
  assert (u ≠ "" → (answer u route env w).1 ∈ statuses) as Hyes.
  { intros Hu. apply String.eqb_neq in Hu.
    destruct route; unfold answer; cbv zeta; cbn [fst snd].
    - unfold handlers.CreateJournal. rewrite Hu. status_cases.
    - unfold handlers.GetJournal. rewrite Hu. status_cases.
    - unfold handlers.ListJournals. rewrite Hu. status_cases.
    - unfold handlers.UpdateJournal. rewrite Hu. cbv zeta. status_cases.
    - unfold handlers.DeleteJournal. rewrite Hu. status_cases.
    - unfold handlers.CreateEntry. cbn [handlers.userSub handlers.body]. rewrite Hu.
      status_cases.
    - unfold handlers.GetEntry. rewrite Hu. status_cases.
    - unfold handlers.ListEntries. rewrite Hu. status_cases.
    - unfold handlers.UpdateEntry. cbn [handlers.userSub handlers.body]. rewrite Hu.
      status_cases.
    - unfold handlers.DeleteEntry. rewrite Hu. status_cases.
    - unfold handlers.ListVersions. rewrite Hu. status_cases.
    - unfold handlers.GetVersion. rewrite Hu. status_cases. }
  split; [done | ]. split; [done | ]. split.
  - intros H401. destruct (decide (u = "")) as [ | Hu]; [done | ].
    apply Hyes in Hu. rewrite H401 in Hu. unfold statuses in Hu.
    rewrite !elem_of_cons, elem_of_nil in Hu. lia.
  - intros Hu. by rewrite (Hno Hu).
Qed.

(** ** X16 *)

(** X16. The requests that are answered with 400.  They are those that have a
    user and whose body is not decoded or lacks a required field: the title of
    a new journal, the date or the content of a new entry, the content of an
    update.  Such a request calls no backend: the world, its trace included,
    is as it was.  An update of a journal requires no field. *)
Theorem bad_request_calls_no_backend u route env w :
  ((answer u route env w).1 = 400 ↔ u ≠ "" ∧ lacking route)
  ∧ ((answer u route env w).1 = 400 → (answer u route env w).2 = w).
Proof.
  assert (u ≠ "" → lacking route → answer u route env w = (400, w)) as Hbad.
  { intros Hu%String.eqb_neq Hlack. unfold answer. cbv zeta.
    destruct route as [[req|]|?| |? [req|]|?|? [req|]|? ?|?|? ? [content|]|? ?|? ?|? ? ?];
      simpl in Hlack; try done.
    - unfold handlers.CreateJournal. by rewrite Hu, Hlack.
    - unfold handlers.CreateJournal. by rewrite Hu.
    - unfold handlers.UpdateJournal. by rewrite Hu.
    - unfold handlers.CreateEntry. cbn [handlers.userSub handlers.body]. rewrite Hu.
      destruct Hlack as [-> | ->]; [done | ].
      by destruct (String.eqb (handlers.EntryDate req) "").
    - unfold handlers.CreateEntry. cbn [handlers.userSub handlers.body]. by rewrite Hu.
    - unfold handlers.UpdateEntry. cbn [handlers.userSub handlers.body].
      by rewrite Hu, Hlack.
    - unfold handlers.UpdateEntry. cbn [handlers.userSub handlers.body]. by rewrite Hu. }
  assert ((answer u route env w).1 = 400 → u ≠ "" ∧ lacking route) as Hwhy.
  { destruct (String.eqb u "") eqn:Hu.
    { apply String.eqb_eq in Hu as ->. by destruct route. }
    intros H400. split; [by apply String.eqb_neq | ]. revert H400.
    unfold answer. cbv zeta.
    destruct route as [[req|]|?| |? [req|]|?|? [req|]|? ?|?|? ? [content|]|? ?|? ?|? ? ?];
      cbn [fst snd lacking]; try done.
    - unfold handlers.CreateJournal. rewrite Hu.
      destruct (String.eqb (handlers.Title req) "") eqn:Ht;
        [intros _; by apply String.eqb_eq | ].
      intros H400. exfalso. revert H400. served.
    - unfold handlers.GetJournal. rewrite Hu. intros H400. exfalso. revert H400. served.
    - unfold handlers.ListJournals. rewrite Hu. intros H400. exfalso. revert H400. served.
    - unfold handlers.UpdateJournal. rewrite Hu. cbv zeta.
      intros H400. exfalso. revert H400. served.
    - unfold handlers.DeleteJournal. rewrite Hu. intros H400. exfalso. revert H400. served.
    - unfold handlers.CreateEntry. cbn [handlers.userSub handlers.body]. rewrite Hu.
      destruct (String.eqb (handlers.EntryDate req) "") eqn:Hd;
        [intros _; left; by apply String.eqb_eq | ].
      destruct (String.eqb (handlers.Content req) "") eqn:Hc;
        [intros _; right; by apply String.eqb_eq | ].
      intros H400. exfalso. revert H400. served.
    - unfold handlers.GetEntry. rewrite Hu. intros H400. exfalso. revert H400. served.
    - unfold handlers.ListEntries. rewrite Hu. intros H400. exfalso. revert H400. served.
    - unfold handlers.UpdateEntry. cbn [handlers.userSub handlers.body]. rewrite Hu.
      destruct (String.eqb content "") eqn:Hc; [intros _; by apply String.eqb_eq | ].
      intros H400. exfalso. revert H400. served.
    - unfold handlers.DeleteEntry. rewrite Hu. intros H400. exfalso. revert H400. served.
    - unfold handlers.ListVersions. rewrite Hu. intros H400. exfalso. revert H400. served.
    - unfold handlers.GetVersion. rewrite Hu. intros H400. exfalso. revert H400. served. }
  split; [split; [exact Hwhy | ] | ].
  - intros [Hu Hlack]. by rewrite Hbad.
  - intros H400. destruct (Hwhy H400) as [Hu Hlack]. by rewrite Hbad.
Qed.

(** ** X17 *)

(** X17. A journal that the caller does not have is no 404 for the journal
    handlers: GET and PUT answer 500 with the text of [sql.ErrNoRows], which
    does not say "not found", and DELETE answers 204 and changes no row. *)
Theorem missing_journal_is_not_404 u id env w :
  u ≠ "" →
  find (store.journal_matches id u) (journals w) = None →
  faults env SelectJournal = None →
  handlers.GetJournal u id env w
    = (handlers.Refused "sql: no rows in result set" 500, w)
  ∧ (∀ req, handlers.UpdateJournal u id (Some req) env w
            = (handlers.Refused "sql: no rows in result set" 500, w))
  ∧ (faults env SelectEntries = None → faults env DeleteJournalRow = None →
     (handlers.DeleteJournal u id env w).1 = handlers.NoContent
     ∧ same_tables w (handlers.DeleteJournal u id env w).2).
Proof.
  intros Hu Hnone F. apply String.eqb_neq in Hu.
  destruct (GetJournal_not_owned id u env w Hnone) as (cause & Hget & Hcause).
  rewrite (Hcause F) in Hget.
  split; [ | split].
  - unfold handlers.GetJournal, journal.GetJournal. by rewrite Hu, Hget.
  - intros req. unfold handlers.UpdateJournal, journal.GetJournal. by rewrite Hu, Hget.
  - intros F1 F2. unfold handlers.DeleteJournal. rewrite Hu.
    pose proof (DeleteJournal_not_owned_Ok id u env w F1 F2) as Hok.
    pose proof (DeleteJournal_tables id u env w) as Htables. cbv zeta in Htables.
    destruct Htables as [[Htables _]|(_ & Hown & _)];
      [ | apply find_None_existsb in Hnone; congruence].
    destruct (journal.DeleteJournal id u env w) as [r w']. simpl in *. by subst r.
Qed.

Lemma missing_journal_is_not_404_witness :
  handlers.GetJournal "bob" "journal-100" (no_faults 150) alice_world
  = (handlers.Refused "sql: no rows in result set" 500, alice_world).
Proof.
  refine (proj1 (missing_journal_is_not_404 "bob" "journal-100" (no_faults 150)
                   alice_world _ _ eq_refl)).
  - discriminate.
  - vm_compute. reflexivity.
Defined.

(** ** X18 *)

(** X18. The entry and version handlers on a journal that is not the caller's,
    the date being one that parses: each answers 404 and leaves the world as
    it is. *)
Theorem not_the_callers_journal_is_404 u j d env w :
  u ≠ "" →
  find (store.journal_matches j u) (journals w) = None →
  is_Some (parseDate d) →
  handlers.GetEntry u j d env w = (handlers.Refused "Entry not found" 404, w)
  ∧ handlers.ListEntries u j env w = (handlers.Refused "Journal not found" 404, w)
  ∧ handlers.DeleteEntry u j d env w = (handlers.Refused "Entry not found" 404, w)
  ∧ handlers.ListVersions u j d env w
    = (handlers.Refused "Journal or entry not found" 404, w)
  ∧ (∀ h, handlers.GetVersion u j d h env w
          = (handlers.Refused "Version not found" 404, w))
  ∧ (∀ content, content ≠ "" →
       ∃ msg, handlers.UpdateEntry (handlers.mkRequest u j d (Some content)) env w
              = (handlers.HttpError msg 404, w))
  ∧ (∀ content, content ≠ "" → faults env SelectJournal = None →
       handlers.CreateEntry
         (handlers.mkRequest u j "" (Some (handlers.mkCreateEntryRequest d content)))
         env w
       = (handlers.HttpError "journal not found: sql: no rows in result set" 404, w)).
Proof.
  intros Hu Hnone Hd. apply String.eqb_neq in Hu.
  destruct (not_owned_refused u j env w Hnone)
    as (Hcreate & Hget & Hupdate & Hdelete & Hlist & Hversions & Hversion).
  repeat split.
  - unfold handlers.GetEntry. rewrite Hu.
    destruct (Hget d) as (e & -> & Hsays). by rewrite refuse_not_found by auto.
  - unfold handlers.ListEntries. rewrite Hu.
    destruct Hlist as (e & -> & Hsays). by rewrite refuse_not_found.
  - unfold handlers.DeleteEntry. rewrite Hu.
    destruct (Hdelete d) as (e & -> & Hsays). by rewrite refuse_not_found by auto.
  - unfold handlers.ListVersions. rewrite Hu.
    destruct (Hversions d) as (e & -> & Hsays). by rewrite refuse_not_found.
  - intros h. unfold handlers.GetVersion. rewrite Hu.
    destruct (Hversion d h) as (e & -> & Hsays). by rewrite refuse_not_found.
  - intros content Hc. unfold handlers.UpdateEntry. simpl.
    apply String.eqb_neq in Hc. rewrite Hu, Hc.
    destruct (Hupdate d content) as (e & -> & Hsays).
    unfold says_not_found in Hsays. rewrite Hsays by done. by eexists.
  - intros content Hc F. unfold handlers.CreateEntry. simpl.
    apply String.eqb_neq in Hc. rewrite Hu, Hc.
    assert (String.eqb d "" = false) as ->.
    { apply String.eqb_neq. intros ->. by destruct Hd. }
    unfold journal.CreateEntry. destruct Hd as [date ->].
    destruct (GetJournal_not_owned j u env w Hnone) as (cause & Hrun & Hcause).
    rewrite (Hcause F) in Hrun. unfold bind, wrap. by rewrite Hrun.
Qed.

Lemma not_the_callers_journal_is_404_witness :
  handlers.GetEntry "bob" "journal-100" "2025-12-01" (no_faults 300) one_entry_world
  = (handlers.Refused "Entry not found" 404, one_entry_world).
Proof.
  refine (proj1 (not_the_callers_journal_is_404 "bob" "journal-100" "2025-12-01"
                   (no_faults 300) one_entry_world _ _ _)).
  - discriminate.
  - vm_compute. reflexivity.
  - vm_compute. eexists. reflexivity.
Defined.

(** ** X19 *)

(** X19. What [Load] returns for a setting that is a string: the value of its
    variable, if that is not empty; else the value in [config.json], if the
    file is read and the value is not empty; else the default.  The variable
    is read from the environment of the process first and, outside production,
    from [.env] when the process does not have it.  [Load] fails in one case
    only: outside production, with a [.env] that is there and is not read. *)
Theorem Load_precedence env files :
  (∀ c, config.Load env files = Ok c →
     ∀ var field, (var, field) ∈ string_settings →
       field c = first_set [seen env files var; from_json files field "";
                            field config.Default])
  ∧ (∀ e, config.Load env files = Err e ↔
          production env = false
          ∧ ∃ cause, config.dotenv files = Some (Err cause)
                     ∧ e = Wrap "failed to load .env file" cause).
Proof.
  rewrite Load_run. split.
  - intros c Hc var field Hin. rewrite <- Getenv_effective.
    assert (c = match config.config_json files with
                | Some (Some jsonConfig) =>
                    config.mergeFromJSON (effective env files) jsonConfig
                      (config.loadFromEnv (effective env files) config.Default)
                | _ => config.loadFromEnv (effective env files) config.Default
                end) as ->.
    { destruct (production env), (config.dotenv files) as [[vars|e]|];
        try discriminate; by injection Hc. }
    unfold from_json. destruct (config.config_json files) as [[jsonConfig|]|].
    + by apply loadFromEnv_mergeFromJSON.
    + rewrite (loadFromEnv_field _ _ var field Hin).
      by rewrite !first_set_cons.
    + rewrite (loadFromEnv_field _ _ var field Hin).
      by rewrite !first_set_cons.
  - intros e. destruct (production env), (config.dotenv files) as [[vars|e0]|].
    all: split; [intros H | intros (Hp & cause & Hd & He)]; try discriminate.
    + injection H as <-. eauto.
    + injection Hd as <-. by rewrite He.
Qed.

(** ** X20 *)

(** X20. The port that [Load] returns.  With a port variable that is not
    empty, it is the number that the variable spells in decimal digits, and
    the default 9002 when the variable spells no number or one above 65535:
    [config.json] is not consulted then.  With no port variable, it is the
    port of [config.json] when the file is read and its port is not 0, and the
    default otherwise. *)
Theorem Load_port env files c :
  config.Load env files = Ok c →
  let portStr := seen env files "LL_JOURNAL_PORT" in
  config.Port c
  = if String.eqb portStr ""
    then if from_json files config.Port 0 =? 0 then 9002
         else from_json files config.Port 0
    else match spelled portStr with
         | Some n => if n <=? 65535 then n else 9002
         | None => 9002
         end.
Proof.
  intros Hc portStr.
  assert (default 9002 (config.ParseUint portStr)
          = match spelled portStr with
            | Some n => if n <=? 65535 then n else 9002
            | None => 9002
            end) as <-.
  { unfold config.ParseUint, spelled. destruct (String.eqb portStr ""); [done | ].
    pose proof (ParseUint_loop_spelled portStr 0) as H.
    destruct (config.ParseUint_loop 0 portStr) as [m|] eqn:Hm.
    - destruct (proj1 (H m ltac:(lia)) eq_refl) as [-> Hle].
      simpl. by rewrite (proj2 (Z.leb_le m 65535) Hle).
    - destruct (spelled_from 0 portStr) as [n|]; [ | done].
      destruct (n <=? 65535) eqn:Hn; [ | done].
      apply Z.leb_le in Hn. discriminate (proj2 (H n ltac:(lia)) (conj eq_refl Hn)). }
  rewrite Load_run in Hc. subst portStr. rewrite <- Getenv_effective.
  assert (c = match config.config_json files with
              | Some (Some jsonConfig) =>
                  config.mergeFromJSON (effective env files) jsonConfig
                    (config.loadFromEnv (effective env files) config.Default)
              | _ => config.loadFromEnv (effective env files) config.Default
              end) as ->.
  { destruct (production env), (config.dotenv files) as [[vars|e]|];
      try discriminate; by injection Hc. }
  unfold from_json. destruct (config.config_json files) as [[jsonConfig|]|].
  - rewrite mergeFromJSON_Port, loadFromEnv_Port. cbv zeta.
    destruct (String.eqb (config.Getenv (effective env files) "LL_JOURNAL_PORT") "");
      simpl; [ | done].
    by destruct (config.Port jsonConfig =? 0).
  - rewrite loadFromEnv_Port. cbv zeta. by destruct (String.eqb _ "").
  - rewrite loadFromEnv_Port. cbv zeta. by destruct (String.eqb _ "").
Qed.

Lemma Load_port_witness :
  config.Load port_environment port_files = Ok config.Default
  ∧ config.Port config.Default = 9002.
Proof.
  assert (config.Load port_environment port_files = Ok config.Default) as Hload
    by (vm_compute; reflexivity).
  split; [exact Hload | ].
  refine (eq_trans (Load_port port_environment port_files config.Default Hload) _).
  vm_compute. reflexivity.
Defined.

(** ** X21 *)


(** ** X22 *)

(** X22. The migration files are the entries of the directory that are no
    directories and whose names end in [.sql], as often as the directory lists
    them, in the order of their names: sorting the paths, as the code does, is
    sorting the names, whatever the directory is. *)
Theorem getMigrationFiles_in_name_order env files :
  migrations.getMigrationFiles env = Ok files →
  files ≡ₚ filter is_migration (migrations.listing env)
  ∧ StronglySorted by_name files
  ∧ (∀ a b, migrations.in_order (migrations.dir env) a b ↔ by_name a b).
Proof.
  unfold migrations.getMigrationFiles.
  destruct (migrations.faults env migrations.ReadDir); [discriminate | ].
  intros [= <-]. split; [apply merge_sort_Permutation | ]. split.
  - eapply StronglySorted_impl; [ | apply StronglySorted_merge_sort; apply _].
    intros a b. apply path_order.
  - intros a b. apply path_order.
Qed.

Lemma getMigrationFiles_in_name_order_witness :
  let files := [ migrations.mkDirEntry "001_journals.sql" false create_journals;
                 migrations.mkDirEntry "002_entries.sql" false
                                       "CREATE TABLE journal_entries ();" ] in
  migrations.getMigrationFiles migrations_directory = Ok files
  ∧ StronglySorted by_name files.
Proof.
  intros files.
  assert (migrations.getMigrationFiles migrations_directory = Ok files) as Hfiles
    by (vm_compute; reflexivity).
  split; [exact Hfiles | ].
  exact (proj1 (proj2 (getMigrationFiles_in_name_order migrations_directory files Hfiles))).
Defined.

(** ** X23 *)

(** X23. A run of the migrations applies the pending ones, those of the
    migration files whose names are not recorded, in the order of the files,
    stops at the first failure, and applies all of them when it succeeds.
    Each is applied as a whole or not at all: its name is recorded and all the
    statements of its file are executed, as [splitSQL] returns them.  The
    names in the directory are taken to be distinct. *)
Theorem RunMigrations_applies_the_pending env db r db' :
  NoDup (migrations.Name <$> migrations.listing env) →
  migrations.RunMigrations env db = (r, db') →
  let recorded := default [] (migrations.schema_migrations db) in
  ∃ applied,
    applied `prefix_of` pending recorded (migration_files env)
    ∧ (r = Ok tt → applied = pending recorded (migration_files env))
    ∧ (db' = fold_left applied_to applied (with_table db)
       ∨ db' = db ∧ applied = [] ∧ r ≠ Ok tt).
Proof.
  intros Hnodup Hrun recorded. unfold migration_files.
  destruct (RunMigrations_outcome _ _ _ _ Hnodup Hrun)
    as [[[err ->] ->]
       |[([err ->] & -> & err' & Hfiles)
        |(files & applied & Hfiles & Hpre & Hall & ->)]].
  - exists []. split; [apply list.prefix_nil | ]. split; [done | by right].
  - exists []. split; [apply list.prefix_nil | ]. split; [done | by left].
  - rewrite Hfiles. exists applied. split; [done | ]. split; [done | by left].
Qed.

Lemma RunMigrations_applies_the_pending_witness :
  let run := migrations.RunMigrations second_fails no_database in
  (∃ err, run.1 = Err err)
  ∧ migrations.schema_migrations run.2 = Some ["001_journals.sql"]
  ∧ migrations.executed run.2
    = [ "CREATE TABLE journals (" +:+ LF +:+ "id TEXT" +:+ LF +:+ ");";
        "CREATE INDEX idx ON journals (id);" ]
  ∧ ∃ applied,
      applied `prefix_of` pending [] (migration_files second_fails)
      ∧ (run.2 = fold_left applied_to applied (with_table no_database)
         ∨ run.2 = no_database ∧ applied = [] ∧ run.1 ≠ Ok tt).
Proof.
  intros run.
  split; [eexists; vm_compute; reflexivity | ].
  split; [vm_compute; reflexivity | ]. split; [vm_compute; reflexivity | ].
  destruct (RunMigrations_applies_the_pending second_fails no_database run.1 run.2
              migrations_directory_NoDup (surjective_pairing run))
    as (applied & Hpre & _ & Hdb).
  by exists applied.
Defined.

(** ** X24 *)

(** X24. Running the migrations again.  After a run that succeeded, the name
    of every migration file is recorded, and a run over the same entries
    leaves the database as it is, whatever fails in it and whatever the
    directory is called: nothing is executed a second time. *)
Theorem RunMigrations_again env db db1 env2 r2 db2 :
  NoDup (migrations.Name <$> migrations.listing env) →
  migrations.RunMigrations env db = (Ok tt, db1) →
  migrations.listing env2 = migrations.listing env →
  migrations.RunMigrations env2 db1 = (r2, db2) →
  db2 = db1
  ∧ (∀ file, file ∈ migrations.listing env → is_migration file →
       migrations.Name file ∈ default [] (migrations.schema_migrations db1)).
Proof.
  intros Hnodup Hfirst Hsame Hsecond.
  destruct (RunMigrations_outcome _ _ _ _ Hnodup Hfirst)
    as [[[err [=]] _]|[([err [=]] & _)|(files & applied & Hfiles & _ & Hall & ->)]].
  rewrite (Hall eq_refl) in *. clear Hall applied.
  assert (∀ file, file ∈ migrations.listing env → is_migration file →
            migrations.Name file
            ∈ default [] (migrations.schema_migrations
                            (fold_left applied_to
                               (pending (default [] (migrations.schema_migrations db)) files)
                               (with_table db)))) as Hnames.
  { intros file Hin Hmig. rewrite applied_to_names. simpl. apply elem_of_app.
    destruct (elem_of_pending (default [] (migrations.schema_migrations db)) files file)
      as [H|H]; [by eapply getMigrationFiles_elem_of | by left | right].
    apply list_elem_of_fmap. by exists file. }
  split; [ | done].
  assert (with_table (fold_left applied_to
                        (pending (default [] (migrations.schema_migrations db)) files)
                        (with_table db))
          = fold_left applied_to
              (pending (default [] (migrations.schema_migrations db)) files)
              (with_table db)) as Htable.
  { apply with_table_same. by rewrite applied_to_names. }
  rewrite <- Hsame in Hnodup.
  destruct (RunMigrations_outcome _ _ _ _ Hnodup Hsecond)
    as [[_ ->]|[(_ & -> & _)|(files2 & applied2 & Hfiles2 & Hpre & _ & ->)]];
    [done | done | ].
  rewrite pending_nil in Hpre.
  - apply prefix_nil_inv in Hpre as ->. simpl. apply Htable.
  - intros file Hin. apply (getMigrationFiles_elem_of _ _ _ Hfiles2) in Hin as [Hin Hmig].
    rewrite Hsame in Hin. by apply Hnames.
Qed.

Lemma RunMigrations_again_witness :
  let first := migrations.RunMigrations migrations_directory no_database in
  first.1 = Ok tt
  ∧ migrations.schema_migrations first.2 = Some ["001_journals.sql"; "002_entries.sql"]
  ∧ (migrations.RunMigrations second_fails first.2).2 = first.2.
Proof.
  intros first.
  assert (first = (Ok tt, first.2)) as Hfirst by (vm_compute; reflexivity).
  split; [by rewrite Hfirst | ]. split; [vm_compute; reflexivity | ].
  exact (proj1 (RunMigrations_again migrations_directory no_database first.2 second_fails
                  (migrations.RunMigrations second_fails first.2).1
                  (migrations.RunMigrations second_fails first.2).2
                  migrations_directory_NoDup Hfirst eq_refl
                  (surjective_pairing _))).
Defined.
